(** * SEW-ResNet (braincog/model_zoo/sew_resnet.py): a shallow embedding

  The file follows the Python module top to bottom: the combination
  function [sew_function], the two residual blocks, the three network
  classes with their constructors and forward passes, and the factory
  functions.  Tensors are nested stacks over an abstract scalar type;
  Python exceptions are an error result; the mutable module tree of a
  network (spiking-node state included) is threaded explicitly. *)

From stdpp Require Import gmap strings list fin_maps.

Set Default Proof Using "Type".
Open Scope string_scope.
Open Scope list_scope.
Open Scope nat_scope.

(** ** Python exceptions *)

Inductive exn :=
| NotImplementedError
| ValueError
| TypeError
| AttributeError (attr : string)
| IndexError
| ZeroDivisionError
| RuntimeError
| KeyError (key : string)
| EinopsError.

Inductive res (A : Type) :=
| Ok (a : A)
| Raise (e : exn).
Arguments Ok {A} a.
Arguments Raise {A} e.

Definition res_bind {A B} (r : res A) (k : A -> res B) : res B :=
match r with
| Ok a => k a
| Raise e => Raise e
end.

Definition is_ok {A} (r : res A) : bool :=
match r with Ok _ => true | Raise _ => false end.

(** ** Scalars and tensors *)

(** The element type of a tensor, with the arithmetic the module uses.
  No algebraic law is assumed: the operations stand for whatever the
  tensor library computes (floating point in practice). *)
Class ScalarOps (R : Type) := {
radd : R -> R -> R;
rmul : R -> R -> R;
rsub : R -> R -> R;
rdiv : R -> R -> R;
rzero : R;
rone : R;
rofnat : nat -> R
}.

(** A tensor is a scalar or a stack of tensors along its leading
  dimension (row-major nesting, as [torch.stack] builds it). *)
#[local] Unset Elimination Schemes.
Inductive tensor (R : Type) :=
| Scalar (r : R)
| Stack (l : list (tensor R)).
Arguments Scalar {R} r.
Arguments Stack {R} l.
#[local] Set Elimination Schemes.

Section TensorInd.
Context {R : Type} (P : tensor R -> Prop).
Hypothesis Hsc : forall r, P (Scalar r).
Hypothesis Hst : forall l, Forall P l -> P (Stack l).

Fixpoint tensor_ind' (t : tensor R) : P t :=
  match t with
  | Scalar r => Hsc r
  | Stack l =>
      Hst l ((fix go (l : list (tensor R)) : Forall P l :=
                match l with
                | [] => Forall_nil_2 P
                | x :: l' => Forall_cons_2 P x l' (tensor_ind' x) (go l')
                end) l)
  end.
End TensorInd.

Section Tensors.
Context {R : Type} `{ScalarOps R}.

Fixpoint shape (t : tensor R) : list nat :=
  match t with
  | Scalar _ => []
  | Stack l => length l :: match l with [] => [] | x :: _ => shape x end
  end.

(** Structural equality of shapes: what "equal-shaped" means for the
    operands of an elementwise operation. *)
Fixpoint same_shape (a b : tensor R) : bool :=
  match a, b with
  | Scalar _, Scalar _ => true
  | Stack l1, Stack l2 =>
      (fix go (l1 l2 : list (tensor R)) : bool :=
         match l1, l2 with
         | [], [] => true
         | x :: l1', y :: l2' => same_shape x y && go l1' l2'
         | _, _ => false
         end) l1 l2
  | _, _ => false
  end.

(** The element at a multi-index. *)
Fixpoint tget (idx : list nat) (t : tensor R) : option R :=
  match idx, t with
  | [], Scalar r => Some r
  | i :: idx', Stack l =>
      match l !! i with
      | Some x => tget idx' x
      | None => None
      end
  | _, _ => None
  end.

(** Scalar-with-tensor arithmetic ([1. - y], [0 + x], [x / n]). *)
Fixpoint tmap (f : R -> R) (t : tensor R) : tensor R :=
  match t with
  | Scalar r => Scalar (f r)
  | Stack l => Stack (map (tmap f) l)
  end.

(** Tensor-with-tensor arithmetic ([x + y], [x * y]).  Operands of
    different shapes: torch raises RuntimeError unless the shapes
    broadcast; broadcasting is not part of this model, so every shape
    mismatch is the RuntimeError. *)
Fixpoint tzip (f : R -> R -> R) (a b : tensor R) : res (tensor R) :=
  match a, b with
  | Scalar x, Scalar y => Ok (Scalar (f x y))
  | Stack l1, Stack l2 =>
      res_bind
        ((fix go (l1 l2 : list (tensor R)) : res (list (tensor R)) :=
            match l1, l2 with
            | [], [] => Ok []
            | x :: l1', y :: l2' =>
                res_bind (tzip f x y) (fun z =>
                res_bind (go l1' l2') (fun zs => Ok (z :: zs)))
            | _, _ => Raise RuntimeError
            end) l1 l2)
        (fun zs => Ok (Stack zs))
  | _, _ => Raise RuntimeError
  end.

(** The list-level worker of [tzip], named for the proofs. *)
Fixpoint tzip_list (f : R -> R -> R) (l1 l2 : list (tensor R))
  : res (list (tensor R)) :=
  match l1, l2 with
  | [], [] => Ok []
  | x :: l1', y :: l2' =>
      res_bind (tzip f x y) (fun z =>
      res_bind (tzip_list f l1' l2') (fun zs => Ok (z :: zs)))
  | _, _ => Raise RuntimeError
  end.

Fixpoint same_shape_list (l1 l2 : list (tensor R)) : bool :=
  match l1, l2 with
  | [], [] => true
  | x :: l1', y :: l2' => same_shape x y && same_shape_list l1' l2'
  | _, _ => false
  end.

(** The shape of a tensor as a tensor without content. *)
Fixpoint skel (t : tensor R) : tensor unit :=
  match t with
  | Scalar _ => Scalar tt
  | Stack l => Stack (map skel l)
  end.

Definition tadd := tzip radd.
Definition tmul := tzip rmul.

(** ** The combination function (lines 31-39)

    [cnf] is the Python value of the mode tag: [None] or a string. *)
Definition sew_function (x y : tensor R) (cnf : option string)
  : res (tensor R) :=
  if decide (cnf = Some "ADD") then tadd x y
  else if decide (cnf = Some "AND") then tmul x y
  else if decide (cnf = Some "IAND") then tmul x (tmap (rsub rone) y)
  else Raise NotImplementedError.

(** *** Operations along the leading dimension *)

Definition unstack (t : tensor R) : res (list (tensor R)) :=
  match t with
  | Stack l => Ok l
  | Scalar _ => Raise EinopsError
  end.

Fixpoint res_mapM {A B} (f : A -> res B) (l : list A) : res (list B) :=
  match l with
  | [] => Ok []
  | a :: l' =>
      res_bind (f a) (fun b =>
      res_bind (res_mapM f l') (fun bs => Ok (b :: bs)))
  end.

(** [T] consecutive chunks of [b] elements each. *)
Fixpoint chunks {A} (T b : nat) (l : list A) : list (list A) :=
  match T with
  | 0 => []
  | S T' => take b l :: chunks T' b (drop b l)
  end.

(** The decomposition [(t b) ... -> t b ...] of the leading dimension
    with [t = T], as a list of [T] time slices; einops refuses a
    leading dimension that [T] does not divide. *)
Definition time_slices (T : nat) (l : list (tensor R))
  : res (list (tensor R)) :=
  if Nat.eqb T 0 || negb (Nat.eqb (length l mod T) 0) then Raise EinopsError
  else Ok (Stack <$> chunks T (length l / T) l).

(** Concatenation along the leading dimension: [t b ... -> (t b) ...]. *)
Definition cat0 (ts : list (tensor R)) : res (tensor R) :=
  res_bind (res_mapM unstack ts) (fun ls => Ok (Stack (concat ls))).

(** [rearrange(x, '(t b) c -> t b c', t=T)]: a rank-2 tensor is cut
    into [T] time slices, stacked along a new leading dimension. *)
Definition rearrange_tbc (T : nat) (x : tensor R) : res (tensor R) :=
  if decide (length (shape x) = 2) then
    res_bind (unstack x) (fun l =>
    res_bind (time_slices T l) (fun xs => Ok (Stack xs)))
  else Raise EinopsError.

Fixpoint leaves (t : tensor R) : list R :=
  match t with
  | Scalar r => [r]
  | Stack l => flat_map leaves l
  end.

(** [torch.flatten(x, 1)]: every sample becomes a vector. *)
Definition flatten1 (x : tensor R) : res (tensor R) :=
  match x with
  | Stack l => Ok (Stack (map (fun s => Stack (Scalar <$> leaves s)) l))
  | Scalar _ => Raise IndexError
  end.

Fixpoint tadd_all (acc : tensor R) (ts : list (tensor R)) : res (tensor R) :=
  match ts with
  | [] => Ok acc
  | t :: ts' => res_bind (tadd acc t) (fun acc' => tadd_all acc' ts')
  end.

(** Python's [sum(outputs) / len(outputs)] on a list of tensors: [sum]
    starts from the integer 0, so the first addition is [0 + outputs[0]];
    on the empty list it is the integer division [0 / 0]. *)
Definition py_mean (outputs : list (tensor R)) : res (tensor R) :=
  match outputs with
  | [] => Raise ZeroDivisionError
  | o :: os =>
      res_bind (tadd_all (tmap (radd rzero) o) os) (fun s =>
      Ok (tmap (fun v => rdiv v (rofnat (length outputs))) s))
  end.

(** [x.mean(0)]: the slices along the leading dimension are summed
    (accumulating from zero) and divided by their number.  A scalar and
    an empty leading dimension have no counterpart in a forward pass
    ([rearrange_tbc] never produces them) and are mapped to the
    RuntimeError. *)
Definition mean0 (x : tensor R) : res (tensor R) :=
  match x with
  | Stack (o :: os) =>
      res_bind (tadd_all (tmap (radd rzero) o) os) (fun s =>
      Ok (tmap (fun v => rdiv v (rofnat (length (o :: os)))) s))
  | _ => Raise RuntimeError
  end.

(** The arithmetic mean of the values of one element over the
    timesteps, summed in order from zero. *)
Definition scalar_mean (vs : list R) : R :=
  rdiv (fold_left radd vs rzero) (rofnat (length vs)).

(** [m] is the elementwise arithmetic mean of the tensors [outs]. *)
Definition is_mean_of (outs : list (tensor R)) (m : tensor R) : Prop :=
  (forall o, o ∈ outs -> same_shape o m = true) /\
  forall idx vs,
    Forall2 (fun o v => tget idx o = Some v) outs vs ->
    tget idx m = Some (scalar_mean vs).

Definition pairwise_same_shape (outs : list (tensor R)) : Prop :=
  forall o1 o2, o1 ∈ outs -> o2 ∈ outs -> same_shape o1 o2 = true.

End Tensors.

(** ** State threading

    A method of a Python object mutates [self] and returns or raises;
    a mutation made before an exception stays. *)

Definition M (St A : Type) : Type := St -> res A * St.

Definition ret {St A} (a : A) : M St A := fun s => (Ok a, s).
Definition raise {St A} (e : exn) : M St A := fun s => (Raise e, s).
Definition lift {St A} (r : res A) : M St A := fun s => (r, s).
Definition get {St} : M St St := fun s => (Ok s, s).
Definition modify {St} (f : St -> St) : M St unit := fun s => (Ok tt, f s).
Definition bind {St A B} (m : M St A) (k : A -> M St B) : M St B :=
  fun s =>
    match m s with
    | (Ok a, s') => k a s'
    | (Raise e, s') => (Raise e, s')
    end.

(** Run a method of a sub-object that [self] holds in a field. *)
Definition zoom {St T A} (proj : St -> T) (upd : T -> St -> St)
  (m : M T A) : M St A :=
  fun s => let '(r, t') := m (proj s) in (r, upd t' s).

Declare Scope py_scope.
Delimit Scope py_scope with py.
Notation "x <- m ;; k" := (bind m (fun x => k))
  (at level 100, m at next level, right associativity) : py_scope.
Notation "m ;;; k" := (bind m (fun _ => k))
  (at level 100, right associativity) : py_scope.
Open Scope py_scope.

(** ** The spiking node *)

(** Modelled from the spec: the spiking-node collaborator
    (braincog.base.node.BaseNode), which is not part of this module.
    The spec gives it as a stateful unit that consumes a tensor and an
    implicit internal membrane state, advances one timestep, and is
    reset between samples.  [n_init] is the state after a reset and
    [n_fire] one timestep of the dynamics. *)
Class NodeDynamics (R Mem : Type) := {
  n_init : Mem;
  n_fire : Mem -> tensor R -> tensor R * Mem
}.

(** A node instance: the configuration it was built with
    ([partial(node_type, **kwargs, step=step)]) and its membrane state. *)
Record Node (Mem : Type) := {
  n_step : nat;
  n_layer_by_layer : bool;
  mem : Mem
}.
Arguments n_step {Mem} _.
Arguments n_layer_by_layer {Mem} _.
Arguments mem {Mem} _.

Definition set_mem {Mem} (s : Mem) (n : Node Mem) : Node Mem :=
  {| n_step := n_step n; n_layer_by_layer := n_layer_by_layer n; mem := s |}.

Section Nodes.
Context {R Mem : Type} `{ScalarOps R} `{NodeDynamics R Mem}.

(** One timestep per slice, in order, threading the membrane state. *)
Fixpoint n_unroll (s : Mem) (xs : list (tensor R)) : list (tensor R) * Mem :=
  match xs with
  | [] => ([], s)
  | x :: xs' =>
      let '(y, s1) := n_fire s x in
      let '(ys, s2) := n_unroll s1 xs' in
      (y :: ys, s2)
  end.

(** Modelled from the spec: calling a node.  In looped (and single-pass)
    execution a call advances one timestep.  In layer-by-layer execution
    the node receives the tensor whose leading dimension is timesteps
    multiplied into the batch, and applies the same dynamics to the
    [n_step] time slices in order. *)
Definition Node_forward (x : tensor R) : M (Node Mem) (tensor R) :=
  fun n =>
    if n_layer_by_layer n then
      match res_bind (unstack x) (time_slices (n_step n)) with
      | Raise e => (Raise e, n)
      | Ok xs =>
          let '(ys, s') := n_unroll (mem n) xs in
          (cat0 ys, set_mem s' n)
      end
    else
      let '(y, s') := n_fire (mem n) x in
      (Ok y, set_mem s' n).

(** Modelled from the spec: the reset of a node ([n_reset]). *)
Definition Node_reset (n : Node Mem) : Node Mem := set_mem n_init n.

End Nodes.

(** ** Stateless layers *)

(** The tensor library's layers (convolution, normalisation, pooling,
    linear) are opaque functions on tensors, built by the library's
    constructors from their arguments.  Parameter values and their
    initialisation (lines 211-226) are not represented. *)
Class Torch (R : Type) := {
  (* in_channels out_channels kernel_size stride padding groups dilation *)
  Conv2d : nat -> nat -> nat -> nat -> nat -> nat -> nat -> tensor R -> tensor R;
  BatchNorm2d : nat -> tensor R -> tensor R;
  (* kernel_size stride padding *)
  MaxPool2d : nat -> nat -> nat -> tensor R -> tensor R;
  AdaptiveAvgPool2d : nat -> nat -> tensor R -> tensor R;
  (* in_features out_features *)
  Linear : nat -> nat -> tensor R -> tensor R
}.

Definition conv3x3 {R} `{Torch R} (in_planes out_planes stride groups dilation : nat)
  : tensor R -> tensor R :=
  Conv2d in_planes out_planes 3 stride dilation groups dilation.

Definition conv1x1 {R} `{Torch R} (in_planes out_planes stride : nat)
  : tensor R -> tensor R :=
  Conv2d in_planes out_planes 1 stride 0 1 1.

Definition default {A} (d : A) (o : option A) : A :=
  match o with Some a => a | None => d end.

(** ** BasicBlock (lines 54-98) *)

Module BasicBlock.
Section BasicBlock.
Context {R Mem : Type} `{ScalarOps R} `{NodeDynamics R Mem} `{Torch R}.

Definition expansion : nat := 1.

Record t := {
  conv1 : tensor R -> tensor R;
  bn1 : tensor R -> tensor R;
  node1 : Node Mem;
  conv2 : tensor R -> tensor R;
  bn2 : tensor R -> tensor R;
  node2 : Node Mem;
  downsample : option (tensor R -> tensor R);
  downsample_sn : option (Node Mem);
  stride : nat;
  cnf : option string
}.

Definition set_node1 (n : Node Mem) (b : t) : t :=
  {| conv1 := conv1 b; bn1 := bn1 b; node1 := n; conv2 := conv2 b;
     bn2 := bn2 b; node2 := node2 b; downsample := downsample b;
     downsample_sn := downsample_sn b; stride := stride b; cnf := cnf b |}.

Definition set_node2 (n : Node Mem) (b : t) : t :=
  {| conv1 := conv1 b; bn1 := bn1 b; node1 := node1 b; conv2 := conv2 b;
     bn2 := bn2 b; node2 := n; downsample := downsample b;
     downsample_sn := downsample_sn b; stride := stride b; cnf := cnf b |}.

Definition set_downsample_sn (n : option (Node Mem)) (b : t) : t :=
  {| conv1 := conv1 b; bn1 := bn1 b; node1 := node1 b; conv2 := conv2 b;
     bn2 := bn2 b; node2 := node2 b; downsample := downsample b;
     downsample_sn := n; stride := stride b; cnf := cnf b |}.

Definition __init__ (inplanes planes stride : nat)
  (downsample : option (tensor R -> tensor R)) (groups base_width dilation : nat)
  (norm_layer : option (nat -> tensor R -> tensor R))
  (cnf : option string) (node : option (Node Mem)) : res t :=
  let norm_layer := default BatchNorm2d norm_layer in
  if negb (Nat.eqb groups 1) || negb (Nat.eqb base_width 64) then Raise ValueError
  else if Nat.ltb 1 dilation then Raise NotImplementedError
  else
    match node with
    | None => Raise TypeError
    | Some node =>
        Ok {| conv1 := conv3x3 inplanes planes stride 1 1;
              bn1 := norm_layer planes;
              node1 := node;
              conv2 := conv3x3 planes planes 1 1 1;
              bn2 := norm_layer planes;
              node2 := node;
              downsample := downsample;
              downsample_sn :=
                match downsample with Some _ => Some node | None => None end;
              stride := stride;
              cnf := cnf |}
    end.

(** [self.downsample_sn(y)] *)
Definition call_downsample_sn (y : tensor R) : M t (tensor R) :=
  fun self =>
    match downsample_sn self with
    | Some n =>
        let '(r, n') := Node_forward y n in
        (r, set_downsample_sn (Some n') self)
    | None => (Raise (AttributeError "downsample_sn"), self)
    end.

(** Lines 82-88: the residual (main) path. *)
Definition main_path (x : tensor R) : M t (tensor R) :=
  self <- get ;;
  let out := conv1 self x in
  let out := bn1 self out in
  out <- zoom node1 set_node1 (Node_forward out) ;;
  self <- get ;;
  let out := conv2 self out in
  let out := bn2 self out in
  out <- zoom node2 set_node2 (Node_forward out) ;;
  ret out.

(** Lines 90-91: the identity path, projected when the block has a
    [downsample]. *)
Definition shortcut (x identity : tensor R) : M t (tensor R) :=
  self <- get ;;
  match downsample self with
  | Some ds => call_downsample_sn (ds x)
  | None => ret identity
  end.

Definition forward (x : tensor R) : M t (tensor R) :=
  let identity := x in
  out <- main_path x ;;
  identity <- shortcut x identity ;;
  self <- get ;;
  lift (sew_function identity out (cnf self)).

End BasicBlock.
End BasicBlock.

(** ** Bottleneck (lines 100-154) *)

Module Bottleneck.
Section Bottleneck.
Context {R Mem : Type} `{ScalarOps R} `{NodeDynamics R Mem} `{Torch R}.

Definition expansion : nat := 4.

Record t := {
  conv1 : tensor R -> tensor R;
  bn1 : tensor R -> tensor R;
  node1 : Node Mem;
  conv2 : tensor R -> tensor R;
  bn2 : tensor R -> tensor R;
  node2 : Node Mem;
  conv3 : tensor R -> tensor R;
  bn3 : tensor R -> tensor R;
  node3 : Node Mem;
  downsample : option (tensor R -> tensor R);
  downsample_sn : option (Node Mem);
  stride : nat;
  cnf : option string
}.

Definition set_node1 (n : Node Mem) (b : t) : t :=
  {| conv1 := conv1 b; bn1 := bn1 b; node1 := n; conv2 := conv2 b;
     bn2 := bn2 b; node2 := node2 b; conv3 := conv3 b; bn3 := bn3 b;
     node3 := node3 b; downsample := downsample b;
     downsample_sn := downsample_sn b; stride := stride b; cnf := cnf b |}.

Definition set_node2 (n : Node Mem) (b : t) : t :=
  {| conv1 := conv1 b; bn1 := bn1 b; node1 := node1 b; conv2 := conv2 b;
     bn2 := bn2 b; node2 := n; conv3 := conv3 b; bn3 := bn3 b;
     node3 := node3 b; downsample := downsample b;
     downsample_sn := downsample_sn b; stride := stride b; cnf := cnf b |}.

Definition set_node3 (n : Node Mem) (b : t) : t :=
  {| conv1 := conv1 b; bn1 := bn1 b; node1 := node1 b; conv2 := conv2 b;
     bn2 := bn2 b; node2 := node2 b; conv3 := conv3 b; bn3 := bn3 b;
     node3 := n; downsample := downsample b;
     downsample_sn := downsample_sn b; stride := stride b; cnf := cnf b |}.

Definition set_downsample_sn (n : option (Node Mem)) (b : t) : t :=
  {| conv1 := conv1 b; bn1 := bn1 b; node1 := node1 b; conv2 := conv2 b;
     bn2 := bn2 b; node2 := node2 b; conv3 := conv3 b; bn3 := bn3 b;
     node3 := node3 b; downsample := downsample b;
     downsample_sn := n; stride := stride b; cnf := cnf b |}.

(** [int(planes * (base_width / 64.)) * groups]: the quotient by 64 is
    exact in binary floating point, so the truncation is the integer
    quotient. *)
Definition width_of (planes base_width groups : nat) : nat :=
  (planes * base_width / 64) * groups.

Definition __init__ (inplanes planes stride : nat)
  (downsample : option (tensor R -> tensor R)) (groups base_width dilation : nat)
  (norm_layer : option (nat -> tensor R -> tensor R))
  (cnf : option string) (node : option (Node Mem)) : res t :=
  let norm_layer := default BatchNorm2d norm_layer in
  let width := width_of planes base_width groups in
  match node with
  | None => Raise TypeError
  | Some node =>
      Ok {| conv1 := conv1x1 inplanes width 1;
            bn1 := norm_layer width;
            node1 := node;
            conv2 := conv3x3 width width stride groups dilation;
            bn2 := norm_layer width;
            node2 := node;
            conv3 := conv1x1 width (planes * expansion) 1;
            bn3 := norm_layer (planes * expansion);
            node3 := node;
            downsample := downsample;
            downsample_sn :=
              match downsample with Some _ => Some node | None => None end;
            stride := stride;
            cnf := cnf |}
  end.

Definition call_downsample_sn (y : tensor R) : M t (tensor R) :=
  fun self =>
    match downsample_sn self with
    | Some n =>
        let '(r, n') := Node_forward y n in
        (r, set_downsample_sn (Some n') self)
    | None => (Raise (AttributeError "downsample_sn"), self)
    end.

(** Lines 134-144: the residual (main) path. *)
Definition main_path (x : tensor R) : M t (tensor R) :=
  self <- get ;;
  let out := conv1 self x in
  let out := bn1 self out in
  out <- zoom node1 set_node1 (Node_forward out) ;;
  self <- get ;;
  let out := conv2 self out in
  let out := bn2 self out in
  out <- zoom node2 set_node2 (Node_forward out) ;;
  self <- get ;;
  let out := conv3 self out in
  let out := bn3 self out in
  out <- zoom node3 set_node3 (Node_forward out) ;;
  ret out.

(** Lines 146-147: the identity path, projected when the block has a
    [downsample]. *)
Definition shortcut (x identity : tensor R) : M t (tensor R) :=
  self <- get ;;
  match downsample self with
  | Some ds => call_downsample_sn (ds x)
  | None => ret identity
  end.

Definition forward (x : tensor R) : M t (tensor R) :=
  let identity := x in
  out <- main_path x ;;
  identity <- shortcut x identity ;;
  self <- get ;;
  lift (sew_function out identity (cnf self)).

End Bottleneck.
End Bottleneck.

(** ** The module tree of a network *)

Inductive BlockCls := BasicBlockCls | BottleneckCls.

Definition block_expansion (c : BlockCls) : nat :=
  match c with
  | BasicBlockCls => BasicBlock.expansion
  | BottleneckCls => Bottleneck.expansion
  end.

(** What a forward pass takes from the encoder and gives back: a tensor
    or a Python list of tensors. *)
Inductive value (R : Type) :=
  | VTensor (x : tensor R)
  | VList (l : list (tensor R)).
Arguments VTensor {R} x.
Arguments VList {R} l.

Inductive block (R Mem : Type) :=
  | Basic (b : @BasicBlock.t R Mem)
  | Bottle (b : @Bottleneck.t R Mem).
Arguments Basic {R Mem} b.
Arguments Bottle {R Mem} b.

(** A child module held in an attribute of the network: a stateless
    layer, a spiking node, or an [nn.Sequential] of residual blocks. *)
Inductive module (R Mem : Type) :=
  | MLayer (f : tensor R -> tensor R)
  | MNode (n : Node Mem)
  | MSequential (bs : list (block R Mem)).
Arguments MLayer {R Mem} f.
Arguments MNode {R Mem} n.
Arguments MSequential {R Mem} bs.

(** Modelled from the spec: the collaborators of the surrounding
    framework that this module imports.  [Encoder step encode_type
    layer_by_layer] is the input encoder the base module builds: it maps
    the raw input to a tensor with the timesteps multiplied into the
    batch dimension, or to an indexable sequence of per-timestep
    tensors.  [is_dvs_data] is the dataset-type test that picks the
    input channel count. *)
Class Framework (R : Type) := {
  Encoder : nat -> string -> bool -> tensor R -> value R;
  is_dvs_data : string -> bool
}.

(** The network object: the attributes of the base module, the
    attributes the constructors of this file set, and the table of child
    modules by attribute name. *)
Record Net (R Mem : Type) := {
  step : nat;
  layer_by_layer : bool;
  encoder : tensor R -> value R;
  _norm_layer : nat -> tensor R -> tensor R;
  num_classes : nat;
  node : option (Node Mem);
  once : bool;
  sum_output : bool;
  dataset : string;
  inplanes : nat;
  dilation : nat;
  groups : nat;
  base_width : nat;
  _modules : gmap string (module R Mem)
}.
Arguments step {R Mem} _.
Arguments layer_by_layer {R Mem} _.
Arguments encoder {R Mem} _.
Arguments _norm_layer {R Mem} _.
Arguments num_classes {R Mem} _.
Arguments node {R Mem} _.
Arguments once {R Mem} _.
Arguments sum_output {R Mem} _.
Arguments dataset {R Mem} _.
Arguments inplanes {R Mem} _.
Arguments dilation {R Mem} _.
Arguments groups {R Mem} _.
Arguments base_width {R Mem} _.
Arguments _modules {R Mem} _.

(** The keyword arguments a factory forwards to a constructor.
    [node_type] and [dataset] are indexed unconditionally by the
    constructors: they are required, [node_type] being the node class
    whose dynamics is the [NodeDynamics] instance.  The other keys are
    optional. *)
Record Kwargs (R : Type) := {
  kw_dataset : string;
  kw_once : option bool;
  kw_sum_output : option bool;
  kw_layer_by_layer : option bool;
  kw_num_classes : option nat;
  kw_step : option nat;
  kw_encode_type : option string;
  kw_groups : option nat;
  kw_width_per_group : option nat;
  kw_replace_stride_with_dilation : option (list bool);
  kw_norm_layer : option (nat -> tensor R -> tensor R)
}.
Arguments kw_dataset {R} _.
Arguments kw_once {R} _.
Arguments kw_sum_output {R} _.
Arguments kw_layer_by_layer {R} _.
Arguments kw_num_classes {R} _.
Arguments kw_step {R} _.
Arguments kw_encode_type {R} _.
Arguments kw_groups {R} _.
Arguments kw_width_per_group {R} _.
Arguments kw_replace_stride_with_dilation {R} _.
Arguments kw_norm_layer {R} _.

Section Modules.
Context {R Mem : Type} `{ScalarOps R} `{NodeDynamics R Mem} `{Torch R} `{Framework R}.

Definition with_modules (f : gmap string (module R Mem) -> gmap string (module R Mem))
  (self : Net R Mem) : Net R Mem :=
  {| step := step self; layer_by_layer := layer_by_layer self;
     encoder := encoder self; _norm_layer := _norm_layer self;
     num_classes := num_classes self; node := node self; once := once self;
     sum_output := sum_output self; dataset := dataset self;
     inplanes := inplanes self; dilation := dilation self;
     groups := groups self; base_width := base_width self;
     _modules := f (_modules self) |}.

Definition set_inplanes (n : nat) (self : Net R Mem) : Net R Mem :=
  {| step := step self; layer_by_layer := layer_by_layer self;
     encoder := encoder self; _norm_layer := _norm_layer self;
     num_classes := num_classes self; node := node self; once := once self;
     sum_output := sum_output self; dataset := dataset self;
     inplanes := n; dilation := dilation self;
     groups := groups self; base_width := base_width self;
     _modules := _modules self |}.

Definition set_dilation (n : nat) (self : Net R Mem) : Net R Mem :=
  {| step := step self; layer_by_layer := layer_by_layer self;
     encoder := encoder self; _norm_layer := _norm_layer self;
     num_classes := num_classes self; node := node self; once := once self;
     sum_output := sum_output self; dataset := dataset self;
     inplanes := inplanes self; dilation := n;
     groups := groups self; base_width := base_width self;
     _modules := _modules self |}.

(** [self.name = m] for a child module. *)
Definition setattr (name : string) (m : module R Mem) : M (Net R Mem) unit :=
  modify (with_modules (insert name m)).

Definition block_forward (x : tensor R) : M (block R Mem) (tensor R) :=
  fun b =>
    match b with
    | Basic b => let '(r, b') := BasicBlock.forward x b in (r, Basic b')
    | Bottle b => let '(r, b') := Bottleneck.forward x b in (r, Bottle b')
    end.

(** [nn.Sequential.forward]: the blocks in order; a block that raises
    leaves the later ones untouched. *)
Fixpoint Sequential_forward (x : tensor R) (bs : list (block R Mem))
  : res (tensor R) * list (block R Mem) :=
  match bs with
  | [] => (Ok x, [])
  | b :: bs' =>
      match block_forward x b with
      | (Ok y, b') =>
          let '(r, bs'') := Sequential_forward y bs' in (r, b' :: bs'')
      | (Raise e, b') => (Raise e, b' :: bs')
      end
  end.

Definition module_forward (x : tensor R) : M (module R Mem) (tensor R) :=
  fun m =>
    match m with
    | MLayer f => (Ok (f x), m)
    | MNode n => let '(r, n') := Node_forward x n in (r, MNode n')
    | MSequential bs =>
        let '(r, bs') := Sequential_forward x bs in (r, MSequential bs')
    end.

(** [self.name(x)]: attribute lookup, then the call; the child keeps the
    state the call left. *)
Definition call (name : string) (x : tensor R) : M (Net R Mem) (tensor R) :=
  fun self =>
    match _modules self !! name with
    | None => (Raise (AttributeError name), self)
    | Some m =>
        let '(r, m') := module_forward x m in
        (r, with_modules (insert name m') self)
    end.

(** *** Reset *)

Definition BasicBlock_reset (b : @BasicBlock.t R Mem) : @BasicBlock.t R Mem :=
  BasicBlock.set_node1 (Node_reset (BasicBlock.node1 b))
    (BasicBlock.set_node2 (Node_reset (BasicBlock.node2 b))
       (BasicBlock.set_downsample_sn
          (Node_reset <$> BasicBlock.downsample_sn b) b)).

Definition Bottleneck_reset (b : @Bottleneck.t R Mem) : @Bottleneck.t R Mem :=
  Bottleneck.set_node1 (Node_reset (Bottleneck.node1 b))
    (Bottleneck.set_node2 (Node_reset (Bottleneck.node2 b))
       (Bottleneck.set_node3 (Node_reset (Bottleneck.node3 b))
          (Bottleneck.set_downsample_sn
             (Node_reset <$> Bottleneck.downsample_sn b) b))).

Definition block_reset (b : block R Mem) : block R Mem :=
  match b with
  | Basic b => Basic (BasicBlock_reset b)
  | Bottle b => Bottle (Bottleneck_reset b)
  end.

Definition module_reset (m : module R Mem) : module R Mem :=
  match m with
  | MLayer f => MLayer f
  | MNode n => MNode (Node_reset n)
  | MSequential bs => MSequential (block_reset <$> bs)
  end.

(** Modelled from the spec: the [reset()] hook of the base module
    (braincog.model_zoo.base_module, not part of this module), which
    clears the state of every descendant node. *)
Definition reset : M (Net R Mem) unit :=
  modify (with_modules (fmap module_reset)).

(** *** Reading the encoder's result *)

(** [inputs[t]] *)
Definition getitem (inputs : value R) (t : nat) : res (tensor R) :=
  match inputs with
  | VList l | VTensor (Stack l) =>
      match l !! t with
      | Some x => Ok x
      | None => Raise IndexError
      end
  | VTensor (Scalar _) => Raise IndexError
  end.

(** The argument of the first layer must be a tensor. *)
Definition as_tensor (inputs : value R) : res (tensor R) :=
  match inputs with
  | VTensor x => Ok x
  | VList _ => Raise TypeError
  end.

(** [for t in range(n)] with an accumulator. *)
Fixpoint for_range {St A} (ts : list nat) (body : nat -> A -> M St A) (acc : A)
  : M St A :=
  match ts with
  | [] => ret acc
  | t :: ts' => acc' <- body t acc ;; for_range ts' body acc'
  end.

(** The two multi-step passes of [_forward_impl], which the three
    classes write with the same text around their own chain of layers
    [body] (lines 252-306, 425-477, 596-646). *)
Definition forward_impl_with (body : tensor R -> M (Net R Mem) (tensor R))
  (inputs : tensor R) : M (Net R Mem) (value R) :=
  self <- get ;;
  let inputs := encoder self inputs in
  reset ;;;
  self <- get ;;
  if layer_by_layer self then
    x <- lift (as_tensor inputs) ;;
    x <- body x ;;
    self <- get ;;
    x <- lift (rearrange_tbc (step self) x) ;;
    self <- get ;;
    x <- (if sum_output self then lift (mean0 x) else ret x) ;;
    ret (VTensor x)
  else
    outputs <- for_range (seq 0 (step self))
                 (fun t outputs =>
                    x <- lift (getitem inputs t) ;;
                    x <- body x ;;
                    ret (outputs ++ [x])) [] ;;
    self <- get ;;
    if negb (sum_output self) then ret (VList outputs)
    else
      x <- lift (py_mean outputs) ;;
      ret (VTensor x).

(** *** Construction *)

Definition blank : Net R Mem :=
  {| step := 0; layer_by_layer := false; encoder := VTensor;
     _norm_layer := BatchNorm2d; num_classes := 0; node := None;
     once := false; sum_output := false; dataset := "";
     inplanes := 0; dilation := 0; groups := 0; base_width := 0;
     _modules := ∅ |}.

(** Modelled from the spec: the constructor of the base module, which
    records the step count and the layer-by-layer flag and builds the
    encoder. *)
Definition BaseModule__init__ (step0 : nat) (encode_type : string)
  (kw : Kwargs R) : M (Net R Mem) unit :=
  let lbl := default false (kw_layer_by_layer kw) in
  modify (fun self =>
    {| step := step0; layer_by_layer := lbl;
       encoder := Encoder step0 encode_type lbl;
       _norm_layer := _norm_layer self;
       num_classes := num_classes self; node := node self; once := once self;
       sum_output := sum_output self; dataset := dataset self;
       inplanes := inplanes self; dilation := dilation self;
       groups := groups self; base_width := base_width self;
       _modules := _modules self |}).

(** Lines 167-183 of [SEWResNet.__init__], with the same text in the two
    other classes: the scalar attributes set before the check of
    [replace_stride_with_dilation].  [self.node] is the node factory
    [partial(node_type, **kwargs, step=step)], held as the node it
    builds. *)
Definition init_attributes (norm_layer : nat -> tensor R -> tensor R)
  (num_classes0 step0 : nat) (kw : Kwargs R) : M (Net R Mem) unit :=
  modify (fun self =>
    {| step := step self; layer_by_layer := layer_by_layer self;
       encoder := encoder self;
       _norm_layer := norm_layer;
       num_classes := num_classes0;
       node := Some {| n_step := step0;
                       n_layer_by_layer := default false (kw_layer_by_layer kw);
                       mem := n_init |};
       once := default false (kw_once kw);
       sum_output := default true (kw_sum_output kw);
       dataset := kw_dataset kw;
       inplanes := 64; dilation := 1;
       groups := groups self; base_width := base_width self;
       _modules := _modules self |}).

(** Lines 191-192. *)
Definition init_groups (groups0 width_per_group : nat) : M (Net R Mem) unit :=
  modify (fun self =>
    {| step := step self; layer_by_layer := layer_by_layer self;
       encoder := encoder self; _norm_layer := _norm_layer self;
       num_classes := num_classes self; node := node self; once := once self;
       sum_output := sum_output self; dataset := dataset self;
       inplanes := inplanes self; dilation := dilation self;
       groups := groups0; base_width := width_per_group;
       _modules := _modules self |}).

Definition block_new (cls : BlockCls) (inplanes planes stride : nat)
  (downsample : option (tensor R -> tensor R)) (groups base_width dilation : nat)
  (norm_layer : option (nat -> tensor R -> tensor R))
  (cnf : option string) (node : option (Node Mem)) : res (block R Mem) :=
  match cls with
  | BasicBlockCls =>
      res_bind (BasicBlock.__init__ inplanes planes stride downsample groups
                  base_width dilation norm_layer cnf node) (fun b => Ok (Basic b))
  | BottleneckCls =>
      res_bind (Bottleneck.__init__ inplanes planes stride downsample groups
                  base_width dilation norm_layer cnf node) (fun b => Ok (Bottle b))
  end.

(** [for _ in range(1, blocks): layers.append(block(...))] *)
Fixpoint append_blocks (n : nat) (mk : res (block R Mem)) (layers : list (block R Mem))
  : res (list (block R Mem)) :=
  match n with
  | 0 => Ok layers
  | S n' => res_bind mk (fun b => append_blocks n' mk (layers ++ [b]))
  end.

(** [_make_layer] (lines 228-250, and the same text at 401-423 and
    572-594). *)
Definition _make_layer (cls : BlockCls) (planes blocks stride : nat) (dilate : bool)
  (cnf : option string) (node : option (Node Mem))
  : M (Net R Mem) (list (block R Mem)) :=
  self <- get ;;
  let norm_layer := _norm_layer self in
  let downsample := None in
  let previous_dilation := dilation self in
  stride <- (if dilate
             then modify (set_dilation (dilation self * stride)) ;;; ret 1
             else ret stride) ;;
  self <- get ;;
  let downsample :=
    if negb (Nat.eqb stride 1)
       || negb (Nat.eqb (inplanes self) (planes * block_expansion cls))
    then Some (fun x => norm_layer (planes * block_expansion cls)
                          (conv1x1 (inplanes self) (planes * block_expansion cls)
                             stride x))
    else downsample in
  b <- lift (block_new cls (inplanes self) planes stride downsample
               (groups self) (base_width self) previous_dilation
               (Some norm_layer) cnf node) ;;
  let layers := [b] in
  modify (set_inplanes (planes * block_expansion cls)) ;;;
  self <- get ;;
  lift (append_blocks (blocks - 1)
          (block_new cls (inplanes self) planes 1 None (groups self)
             (base_width self) (dilation self) (Some norm_layer) cnf node)
          layers).

(** [layers[i]] and [replace_stride_with_dilation[i]] *)
Definition index {A} (l : list A) (i : nat) : res A :=
  match l !! i with
  | Some a => Ok a
  | None => Raise IndexError
  end.

End Modules.

(** [self.node()] *)
Definition new_node {R Mem} : M (Net R Mem) (Node Mem) :=
  self <- get ;;
  match node self with
  | Some n => ret n
  | None => raise TypeError
  end.

(** [Cls(...)]: [__init__] runs on a fresh object; the object is the
    result when [__init__] returns. *)
Definition construct {R Mem} `{Torch R} (init : M (Net R Mem) unit)
  : res (Net R Mem) :=
  match init blank with
  | (Ok _, self) => Ok self
  | (Raise e, _) => Raise e
  end.

(** ** SEWResNet (lines 157-329) *)

Module SEWResNet.
Section SEWResNet.
Context {R Mem : Type} `{ScalarOps R} `{NodeDynamics R Mem} `{Torch R} `{Framework R}.

Definition __init__ (block : BlockCls) (layers : list nat) (cnf : option string)
  (kw : Kwargs R) : M (Net R Mem) unit :=
  let num_classes := default 1000 (kw_num_classes kw) in
  let step := default 8 (kw_step kw) in
  let encode_type := default "direct" (kw_encode_type kw) in
  let groups := default 1 (kw_groups kw) in
  let width_per_group := default 64 (kw_width_per_group kw) in
  let replace_stride_with_dilation := kw_replace_stride_with_dilation kw in
  BaseModule__init__ step encode_type kw ;;;
  let norm_layer := default BatchNorm2d (kw_norm_layer kw) in
  init_attributes norm_layer num_classes step kw ;;;
  let init_channel := if negb (is_dvs_data (kw_dataset kw)) then 3 else 2 in
  let replace_stride_with_dilation :=
    match replace_stride_with_dilation with
    | None => [false; false; false]
    | Some l => l
    end in
  if negb (Nat.eqb (length replace_stride_with_dilation) 3) then raise ValueError
  else
    init_groups groups width_per_group ;;;
    self <- get ;;
    setattr "conv1" (MLayer (Conv2d init_channel (inplanes self) 7 2 3 1 1)) ;;;
    setattr "bn1" (MLayer (norm_layer (inplanes self))) ;;;
    n <- new_node ;;
    setattr "node1" (MNode n) ;;;
    setattr "maxpool" (MLayer (MaxPool2d 3 2 1)) ;;;
    blocks <- lift (index layers 0) ;;
    l <- _make_layer block 64 blocks 1 false cnf (node self) ;;
    setattr "layer1" (MSequential l) ;;;
    blocks <- lift (index layers 1) ;;
    dilate <- lift (index replace_stride_with_dilation 0) ;;
    l <- _make_layer block 128 blocks 2 dilate cnf (node self) ;;
    setattr "layer2" (MSequential l) ;;;
    blocks <- lift (index layers 2) ;;
    dilate <- lift (index replace_stride_with_dilation 1) ;;
    l <- _make_layer block 256 blocks 2 dilate cnf (node self) ;;
    setattr "layer3" (MSequential l) ;;;
    blocks <- lift (index layers 3) ;;
    dilate <- lift (index replace_stride_with_dilation 2) ;;
    l <- _make_layer block 512 blocks 2 dilate cnf (node self) ;;
    setattr "layer4" (MSequential l) ;;;
    setattr "avgpool" (MLayer (AdaptiveAvgPool2d 1 1)) ;;;
    setattr "fc" (MLayer (Linear (512 * block_expansion block) num_classes)).

(** The chain of layers that both branches of [_forward_impl] run. *)
Definition body (x : tensor R) : M (Net R Mem) (tensor R) :=
  x <- call "conv1" x ;;
  x <- call "bn1" x ;;
  x <- call "node1" x ;;
  x <- call "maxpool" x ;;
  x <- call "layer1" x ;;
  x <- call "layer2" x ;;
  x <- call "layer3" x ;;
  x <- call "layer4" x ;;
  x <- call "avgpool" x ;;
  x <- lift (flatten1 x) ;;
  x <- call "fc" x ;;
  ret x.

Definition _forward_impl (inputs : tensor R) : M (Net R Mem) (value R) :=
  forward_impl_with body inputs.

Definition _forward_once (x : tensor R) : M (Net R Mem) (tensor R) :=
  x <- call "conv1" x ;;
  x <- call "bn1" x ;;
  x <- call "node1" x ;;
  x <- call "maxpool" x ;;
  x <- call "layer1" x ;;
  x <- call "layer2" x ;;
  x <- call "layer3" x ;;
  x <- call "layer4" x ;;
  x <- call "avgpool" x ;;
  x <- lift (flatten1 x) ;;
  x <- call "fc" x ;;
  ret x.

Definition forward (x : tensor R) : M (Net R Mem) (value R) :=
  self <- get ;;
  if once self then (x <- _forward_once x ;; ret (VTensor x))
  else _forward_impl x.

End SEWResNet.
End SEWResNet.

(** ** SEWResNet19 (lines 331-500) *)

Module SEWResNet19.
Section SEWResNet19.
Context {R Mem : Type} `{ScalarOps R} `{NodeDynamics R Mem} `{Torch R} `{Framework R}.

Definition __init__ (block : BlockCls) (layers : list nat) (cnf : option string)
  (kw : Kwargs R) : M (Net R Mem) unit :=
  let num_classes := default 1000 (kw_num_classes kw) in
  let step := default 8 (kw_step kw) in
  let encode_type := default "direct" (kw_encode_type kw) in
  let groups := default 1 (kw_groups kw) in
  let width_per_group := default 64 (kw_width_per_group kw) in
  let replace_stride_with_dilation := kw_replace_stride_with_dilation kw in
  BaseModule__init__ step encode_type kw ;;;
  let norm_layer := default BatchNorm2d (kw_norm_layer kw) in
  init_attributes norm_layer num_classes step kw ;;;
  let init_channel := if negb (is_dvs_data (kw_dataset kw)) then 3 else 2 in
  let replace_stride_with_dilation :=
    match replace_stride_with_dilation with
    | None => [false; false; false]
    | Some l => l
    end in
  if negb (Nat.eqb (length replace_stride_with_dilation) 3) then raise ValueError
  else
    init_groups groups width_per_group ;;;
    self <- get ;;
    setattr "conv1" (MLayer (Conv2d init_channel (inplanes self) 3 1 1 1 1)) ;;;
    setattr "bn1" (MLayer (norm_layer (inplanes self))) ;;;
    n <- new_node ;;
    setattr "node1" (MNode n) ;;;
    blocks <- lift (index layers 0) ;;
    l <- _make_layer block 128 blocks 1 false cnf (node self) ;;
    setattr "layer1" (MSequential l) ;;;
    blocks <- lift (index layers 1) ;;
    dilate <- lift (index replace_stride_with_dilation 0) ;;
    l <- _make_layer block 256 blocks 2 dilate cnf (node self) ;;
    setattr "layer2" (MSequential l) ;;;
    blocks <- lift (index layers 2) ;;
    dilate <- lift (index replace_stride_with_dilation 1) ;;
    l <- _make_layer block 512 blocks 2 dilate cnf (node self) ;;
    setattr "layer3" (MSequential l) ;;;
    setattr "avgpool" (MLayer (AdaptiveAvgPool2d 1 1)) ;;;
    setattr "fc1" (MLayer (Linear (512 * block_expansion block) 256)) ;;;
    setattr "fc2" (MLayer (Linear 256 num_classes)) ;;;
    n <- new_node ;;
    setattr "node2" (MNode n).

(** The chain of layers that both branches of [_forward_impl] run. *)
Definition body (x : tensor R) : M (Net R Mem) (tensor R) :=
  x <- call "conv1" x ;;
  x <- call "bn1" x ;;
  x <- call "node1" x ;;
  x <- call "layer1" x ;;
  x <- call "layer2" x ;;
  x <- call "layer3" x ;;
  x <- call "avgpool" x ;;
  x <- lift (flatten1 x) ;;
  x <- call "fc1" x ;;
  x <- call "node2" x ;;
  x <- call "fc2" x ;;
  ret x.

Definition _forward_impl (inputs : tensor R) : M (Net R Mem) (value R) :=
  forward_impl_with body inputs.

(** Lines 479-497: the text of [SEWResNet._forward_once]. *)
Definition _forward_once (x : tensor R) : M (Net R Mem) (tensor R) :=
  x <- call "conv1" x ;;
  x <- call "bn1" x ;;
  x <- call "node1" x ;;
  x <- call "maxpool" x ;;
  x <- call "layer1" x ;;
  x <- call "layer2" x ;;
  x <- call "layer3" x ;;
  x <- call "layer4" x ;;
  x <- call "avgpool" x ;;
  x <- lift (flatten1 x) ;;
  x <- call "fc" x ;;
  ret x.

Definition forward (x : tensor R) : M (Net R Mem) (value R) :=
  self <- get ;;
  if once self then (x <- _forward_once x ;; ret (VTensor x))
  else _forward_impl x.

End SEWResNet19.
End SEWResNet19.

(** ** SEWResNetCifar (lines 502-669) *)

Module SEWResNetCifar.
Section SEWResNetCifar.
Context {R Mem : Type} `{ScalarOps R} `{NodeDynamics R Mem} `{Torch R} `{Framework R}.

Definition __init__ (block : BlockCls) (layers : list nat) (cnf : option string)
  (kw : Kwargs R) : M (Net R Mem) unit :=
  let num_classes := default 1000 (kw_num_classes kw) in
  let step := default 8 (kw_step kw) in
  let encode_type := default "direct" (kw_encode_type kw) in
  let groups := default 1 (kw_groups kw) in
  let width_per_group := default 64 (kw_width_per_group kw) in
  let replace_stride_with_dilation := kw_replace_stride_with_dilation kw in
  BaseModule__init__ step encode_type kw ;;;
  let norm_layer := default BatchNorm2d (kw_norm_layer kw) in
  init_attributes norm_layer num_classes step kw ;;;
  let init_channel := if negb (is_dvs_data (kw_dataset kw)) then 3 else 2 in
  let replace_stride_with_dilation :=
    match replace_stride_with_dilation with
    | None => [false; false; false]
    | Some l => l
    end in
  if negb (Nat.eqb (length replace_stride_with_dilation) 3) then raise ValueError
  else
    init_groups groups width_per_group ;;;
    self <- get ;;
    setattr "conv1" (MLayer (Conv2d init_channel (inplanes self) 3 1 1 1 1)) ;;;
    setattr "bn1" (MLayer (norm_layer (inplanes self))) ;;;
    n <- new_node ;;
    setattr "node1" (MNode n) ;;;
    setattr "maxpool" (MLayer (MaxPool2d 3 2 1)) ;;;
    blocks <- lift (index layers 0) ;;
    l <- _make_layer block 128 blocks 1 false cnf (node self) ;;
    setattr "layer1" (MSequential l) ;;;
    blocks <- lift (index layers 1) ;;
    dilate <- lift (index replace_stride_with_dilation 0) ;;
    l <- _make_layer block 256 blocks 2 dilate cnf (node self) ;;
    setattr "layer2" (MSequential l) ;;;
    blocks <- lift (index layers 2) ;;
    dilate <- lift (index replace_stride_with_dilation 1) ;;
    l <- _make_layer block 512 blocks 2 dilate cnf (node self) ;;
    setattr "layer3" (MSequential l) ;;;
    setattr "avgpool" (MLayer (AdaptiveAvgPool2d 1 1)) ;;;
    setattr "fc" (MLayer (Linear (512 * block_expansion block) num_classes)).

(** The chain of layers that both branches of [_forward_impl] run. *)
Definition body (x : tensor R) : M (Net R Mem) (tensor R) :=
  x <- call "conv1" x ;;
  x <- call "bn1" x ;;
  x <- call "node1" x ;;
  x <- call "layer1" x ;;
  x <- call "layer2" x ;;
  x <- call "layer3" x ;;
  x <- call "avgpool" x ;;
  x <- lift (flatten1 x) ;;
  x <- call "fc" x ;;
  ret x.

Definition _forward_impl (inputs : tensor R) : M (Net R Mem) (value R) :=
  forward_impl_with body inputs.

(** Lines 648-666: the text of [SEWResNet._forward_once]. *)
Definition _forward_once (x : tensor R) : M (Net R Mem) (tensor R) :=
  x <- call "conv1" x ;;
  x <- call "bn1" x ;;
  x <- call "node1" x ;;
  x <- call "maxpool" x ;;
  x <- call "layer1" x ;;
  x <- call "layer2" x ;;
  x <- call "layer3" x ;;
  x <- call "layer4" x ;;
  x <- call "avgpool" x ;;
  x <- lift (flatten1 x) ;;
  x <- call "fc" x ;;
  ret x.

Definition forward (x : tensor R) : M (Net R Mem) (value R) :=
  self <- get ;;
  if once self then (x <- _forward_once x ;; ret (VTensor x))
  else _forward_impl x.

End SEWResNetCifar.
End SEWResNetCifar.

(** ** The three classes side by side *)

Inductive NetCls := SEWResNetCls | SEWResNet19Cls | SEWResNetCifarCls.

Section Classes.
Context {R Mem : Type} `{ScalarOps R} `{NodeDynamics R Mem} `{Torch R} `{Framework R}.

Definition net_init (c : NetCls) : BlockCls -> list nat -> option string ->
  Kwargs R -> M (Net R Mem) unit :=
  match c with
  | SEWResNetCls => SEWResNet.__init__
  | SEWResNet19Cls => SEWResNet19.__init__
  | SEWResNetCifarCls => SEWResNetCifar.__init__
  end.

Definition net_body (c : NetCls) : tensor R -> M (Net R Mem) (tensor R) :=
  match c with
  | SEWResNetCls => SEWResNet.body
  | SEWResNet19Cls => SEWResNet19.body
  | SEWResNetCifarCls => SEWResNetCifar.body
  end.

Definition net_forward_once (c : NetCls) : tensor R -> M (Net R Mem) (tensor R) :=
  match c with
  | SEWResNetCls => SEWResNet._forward_once
  | SEWResNet19Cls => SEWResNet19._forward_once
  | SEWResNetCifarCls => SEWResNetCifar._forward_once
  end.

Definition net_forward (c : NetCls) : tensor R -> M (Net R Mem) (value R) :=
  match c with
  | SEWResNetCls => SEWResNet.forward
  | SEWResNet19Cls => SEWResNet19.forward
  | SEWResNetCifarCls => SEWResNetCifar.forward
  end.

(** A chain of layers as data: the attribute called at each statement,
    or the flattening. *)
Inductive stage := SCall (name : string) | SFlatten.

Definition run_stage (st : stage) (x : tensor R) : M (Net R Mem) (tensor R) :=
  match st with
  | SCall name => call name x
  | SFlatten => lift (flatten1 x)
  end.

Fixpoint run_chain (sts : list stage) (x : tensor R) : M (Net R Mem) (tensor R) :=
  match sts with
  | [] => ret x
  | st :: sts' => x <- run_stage st x ;; run_chain sts' x
  end.

Definition once_stages : list stage :=
  [SCall "conv1"; SCall "bn1"; SCall "node1"; SCall "maxpool"; SCall "layer1";
   SCall "layer2"; SCall "layer3"; SCall "layer4"; SCall "avgpool"; SFlatten;
   SCall "fc"].

Definition body_stages (c : NetCls) : list stage :=
  match c with
  | SEWResNetCls => once_stages
  | SEWResNet19Cls =>
      [SCall "conv1"; SCall "bn1"; SCall "node1"; SCall "layer1"; SCall "layer2";
       SCall "layer3"; SCall "avgpool"; SFlatten; SCall "fc1"; SCall "node2";
       SCall "fc2"]
  | SEWResNetCifarCls =>
      [SCall "conv1"; SCall "bn1"; SCall "node1"; SCall "layer1"; SCall "layer2";
       SCall "layer3"; SCall "avgpool"; SFlatten; SCall "fc"]
  end.

(** The attributes a chain of layers calls. *)
Definition stage_names (sts : list stage) : list string :=
  omap (fun st => match st with SCall n => Some n | SFlatten => None end) sts.

(** The number of layer stacks a class builds, one entry of [layers]
    each. *)
Definition stacks (c : NetCls) : nat :=
  match c with
  | SEWResNetCls => 4
  | SEWResNet19Cls | SEWResNetCifarCls => 3
  end.

(** The result of the timestep loop of the looped pass: the outputs
    collected so far, one per timestep. *)
Definition looped_outputs (body : tensor R -> M (Net R Mem) (tensor R))
  (inputs : value R) (ts : list nat) : M (Net R Mem) (list (tensor R)) :=
  for_range ts
    (fun t outputs =>
       x <- lift (getitem inputs t) ;;
       x <- body x ;;
       ret (outputs ++ [x])) [].

(** The state a reset leaves. *)
Definition reset_net (self : Net R Mem) : Net R Mem :=
  with_modules (fmap module_reset) self.

End Classes.

(** ** Factory functions (lines 672-988) *)

(** A Python object passed where the callee declares no parameter. *)
Inductive PyObject := PyNone | PyCallable.

Definition model_urls : list (string * string) :=
  [ ("resnet18", "https://download.pytorch.org/models/resnet18-f37072fd.pth");
    ("resnet34", "https://download.pytorch.org/models/resnet34-b627a593.pth");
    ("resnet50", "https://download.pytorch.org/models/resnet50-0676ba61.pth");
    ("resnet101", "https://download.pytorch.org/models/resnet101-63fe2227.pth");
    ("resnet152", "https://download.pytorch.org/models/resnet152-394f9c45.pth");
    ("resnext50_32x4d",
     "https://download.pytorch.org/models/resnext50_32x4d-7cdf4587.pth");
    ("resnext101_32x8d",
     "https://download.pytorch.org/models/resnext101_32x8d-8ba56ff5.pth");
    ("wide_resnet50_2",
     "https://download.pytorch.org/models/wide_resnet50_2-95faca4d.pth");
    ("wide_resnet101_2",
     "https://download.pytorch.org/models/wide_resnet101_2-32ee1156.pth") ].

Fixpoint assoc (k : string) (l : list (string * string)) : res string :=
  match l with
  | [] => Raise (KeyError k)
  | (k', v) :: l' => if decide (k = k') then Ok v else assoc k l'
  end.

(** Fetching a reference checkpoint and loading it into the model is the
    tensor library's business. *)
Class Checkpoints (R Mem : Type) := {
  load_state_dict_from_url : string -> bool -> Net R Mem -> res (Net R Mem)
}.

Definition set_groups_width {R} (g w : option nat) (kw : Kwargs R) : Kwargs R :=
  {| kw_dataset := kw_dataset kw; kw_once := kw_once kw;
     kw_sum_output := kw_sum_output kw;
     kw_layer_by_layer := kw_layer_by_layer kw;
     kw_num_classes := kw_num_classes kw; kw_step := kw_step kw;
     kw_encode_type := kw_encode_type kw;
     kw_groups := match g with Some _ => g | None => kw_groups kw end;
     kw_width_per_group :=
       match w with Some _ => w | None => kw_width_per_group kw end;
     kw_replace_stride_with_dilation := kw_replace_stride_with_dilation kw;
     kw_norm_layer := kw_norm_layer kw |}.

Definition set_replace_stride_with_dilation {R} (o : option (list bool))
  (kw : Kwargs R) : Kwargs R :=
  {| kw_dataset := kw_dataset kw; kw_once := kw_once kw;
     kw_sum_output := kw_sum_output kw;
     kw_layer_by_layer := kw_layer_by_layer kw;
     kw_num_classes := kw_num_classes kw; kw_step := kw_step kw;
     kw_encode_type := kw_encode_type kw;
     kw_groups := kw_groups kw;
     kw_width_per_group := kw_width_per_group kw;
     kw_replace_stride_with_dilation := o;
     kw_norm_layer := kw_norm_layer kw |}.

(** [kwargs['layer_by_layer'] = b] *)
Definition set_layer_by_layer {R} (o : option bool) (kw : Kwargs R) : Kwargs R :=
  {| kw_dataset := kw_dataset kw; kw_once := kw_once kw;
     kw_sum_output := kw_sum_output kw;
     kw_layer_by_layer := o;
     kw_num_classes := kw_num_classes kw; kw_step := kw_step kw;
     kw_encode_type := kw_encode_type kw;
     kw_groups := kw_groups kw;
     kw_width_per_group := kw_width_per_group kw;
     kw_replace_stride_with_dilation := kw_replace_stride_with_dilation kw;
     kw_norm_layer := kw_norm_layer kw |}.

Section Factories.
Context {R Mem : Type} `{ScalarOps R} `{NodeDynamics R Mem} `{Torch R}
  `{Framework R} `{Checkpoints R Mem}.

(** [_sew_resnet(arch, block, layers, pretrained, progress, cnf, **kwargs)]
    declares six positional parameters and no [*args]: [extra] is what a
    call passes positionally beyond them, which Python refuses with a
    TypeError before the body runs. *)
Definition _sew_resnet (arch : string) (block : BlockCls) (layers : list nat)
  (pretrained progress : bool) (cnf : option string) (extra : list PyObject)
  (kw : Kwargs R) : res (Net R Mem) :=
  match extra with
  | _ :: _ => Raise TypeError
  | [] =>
      res_bind (construct (SEWResNet.__init__ block layers cnf kw)) (fun model =>
      if pretrained then
        res_bind (assoc arch model_urls) (fun url =>
        load_state_dict_from_url url progress model)
      else Ok model)
  end.

Definition sew_resnet19 (pretrained progress : bool) (cnf : option string)
  (kw : Kwargs R) : res (Net R Mem) :=
  construct (SEWResNet19.__init__ BasicBlockCls [3; 3; 2] cnf kw).

Definition sew_resnet18 (pretrained progress : bool) (cnf : option string)
  (kw : Kwargs R) : res (Net R Mem) :=
  _sew_resnet "resnet18" BasicBlockCls [2; 2; 2; 2] pretrained progress cnf [] kw.

Definition sew_resnet20 (pretrained progress : bool) (cnf : option string)
  (kw : Kwargs R) : res (Net R Mem) :=
  construct (SEWResNetCifar.__init__ BasicBlockCls [3; 3; 3] cnf kw).

Definition sew_resnet32 (pretrained progress : bool) (cnf : option string)
  (kw : Kwargs R) : res (Net R Mem) :=
  construct (SEWResNetCifar.__init__ BasicBlockCls [5; 5; 5] cnf kw).

Definition sew_resnet44 (pretrained progress : bool) (cnf : option string)
  (kw : Kwargs R) : res (Net R Mem) :=
  construct (SEWResNetCifar.__init__ BasicBlockCls [7; 7; 7] cnf kw).

Definition sew_resnet56 (pretrained progress : bool) (cnf : option string)
  (kw : Kwargs R) : res (Net R Mem) :=
  construct (SEWResNetCifar.__init__ BasicBlockCls [9; 9; 9] cnf kw).

Definition sew_resnet34 (pretrained progress : bool) (cnf : option string)
  (kw : Kwargs R) : res (Net R Mem) :=
  _sew_resnet "resnet34" BasicBlockCls [3; 4; 6; 3] pretrained progress cnf [] kw.

Definition sew_resnet50 (pretrained progress : bool) (cnf : option string)
  (kw : Kwargs R) : res (Net R Mem) :=
  _sew_resnet "resnet50" BottleneckCls [3; 4; 6; 3] pretrained progress cnf [] kw.

Definition sew_resnet101 (pretrained progress : bool) (cnf : option string)
  (kw : Kwargs R) : res (Net R Mem) :=
  _sew_resnet "resnet101" BottleneckCls [3; 4; 23; 3] pretrained progress cnf [] kw.

Definition sew_resnet152 (pretrained progress : bool) (cnf : option string)
  (kw : Kwargs R) : res (Net R Mem) :=
  _sew_resnet "resnet152" BottleneckCls [3; 8; 36; 3] pretrained progress cnf [] kw.

Definition sew_resnext50_32x4d (pretrained progress : bool) (cnf : option string)
  (kw : Kwargs R) : res (Net R Mem) :=
  let kw := set_groups_width (Some 32) (Some 4) kw in
  _sew_resnet "resnext50_32x4d" BottleneckCls [3; 4; 6; 3] pretrained progress
    cnf [] kw.

Definition sew_resnext34_32x4d (pretrained progress : bool) (cnf : option string)
  (kw : Kwargs R) : res (Net R Mem) :=
  let kw := set_groups_width (Some 32) (Some 4) kw in
  _sew_resnet "resnext34_32x4d" BasicBlockCls [3; 4; 6; 3] pretrained progress
    cnf [] kw.

(** Line 938 passes [node] as a seventh positional argument. *)
Definition sew_resnext101_32x8d (pretrained progress : bool) (cnf : option string)
  (node : PyObject) (kw : Kwargs R) : res (Net R Mem) :=
  let kw := set_groups_width (Some 32) (Some 8) kw in
  _sew_resnet "resnext101_32x8d" BottleneckCls [3; 4; 23; 3] pretrained progress
    cnf [node] kw.

Definition sew_wide_resnet50_2 (pretrained progress : bool) (cnf : option string)
  (kw : Kwargs R) : res (Net R Mem) :=
  let kw := set_groups_width None (Some (64 * 2)) kw in
  _sew_resnet "wide_resnet50_2" BottleneckCls [3; 4; 6; 3] pretrained progress
    cnf [] kw.

Definition sew_wide_resnet101_2 (pretrained progress : bool) (cnf : option string)
  (kw : Kwargs R) : res (Net R Mem) :=
  let kw := set_groups_width None (Some (64 * 2)) kw in
  _sew_resnet "wide_resnet101_2" BottleneckCls [3; 4; 23; 3] pretrained progress
    cnf [] kw.

End Factories.

(** ** The two execution strategies side by side

    What the comparison of the looped and the flattened pass is stated
    with: the same network under either strategy, the layers that act on
    every sample alone, and the looped pass as an iteration over time
    slices. *)

Definition node_mode {Mem} (lbl : bool) (T : nat) (n : Node Mem) : Node Mem :=
  {| n_step := T; n_layer_by_layer := lbl; mem := mem n |}.

Section Strategies.
Context {R Mem : Type} `{ScalarOps R} `{NodeDynamics R Mem} `{Torch R} `{Framework R}.

Definition BasicBlock_mode (lbl : bool) (T : nat) (b : @BasicBlock.t R Mem)
  : @BasicBlock.t R Mem :=
  {| BasicBlock.conv1 := BasicBlock.conv1 b; BasicBlock.bn1 := BasicBlock.bn1 b;
     BasicBlock.node1 := node_mode lbl T (BasicBlock.node1 b);
     BasicBlock.conv2 := BasicBlock.conv2 b; BasicBlock.bn2 := BasicBlock.bn2 b;
     BasicBlock.node2 := node_mode lbl T (BasicBlock.node2 b);
     BasicBlock.downsample := BasicBlock.downsample b;
     BasicBlock.downsample_sn := node_mode lbl T <$> BasicBlock.downsample_sn b;
     BasicBlock.stride := BasicBlock.stride b; BasicBlock.cnf := BasicBlock.cnf b |}.

Definition Bottleneck_mode (lbl : bool) (T : nat) (b : @Bottleneck.t R Mem)
  : @Bottleneck.t R Mem :=
  {| Bottleneck.conv1 := Bottleneck.conv1 b; Bottleneck.bn1 := Bottleneck.bn1 b;
     Bottleneck.node1 := node_mode lbl T (Bottleneck.node1 b);
     Bottleneck.conv2 := Bottleneck.conv2 b; Bottleneck.bn2 := Bottleneck.bn2 b;
     Bottleneck.node2 := node_mode lbl T (Bottleneck.node2 b);
     Bottleneck.conv3 := Bottleneck.conv3 b; Bottleneck.bn3 := Bottleneck.bn3 b;
     Bottleneck.node3 := node_mode lbl T (Bottleneck.node3 b);
     Bottleneck.downsample := Bottleneck.downsample b;
     Bottleneck.downsample_sn := node_mode lbl T <$> Bottleneck.downsample_sn b;
     Bottleneck.stride := Bottleneck.stride b; Bottleneck.cnf := Bottleneck.cnf b |}.

Definition block_mode (lbl : bool) (T : nat) (b : block R Mem) : block R Mem :=
  match b with
  | Basic b => Basic (BasicBlock_mode lbl T b)
  | Bottle b => Bottle (Bottleneck_mode lbl T b)
  end.

Definition module_mode (lbl : bool) (T : nat) (m : module R Mem) : module R Mem :=
  match m with
  | MLayer f => MLayer f
  | MNode n => MNode (node_mode lbl T n)
  | MSequential bs => MSequential (block_mode lbl T <$> bs)
  end.

(** The network [self] set up for layer-by-layer ([lbl = true]) or for
    looped execution, with the encoder [enc] of that strategy: the flag
    of the network and of every node, nothing else. *)
Definition net_mode (lbl : bool) (enc : tensor R -> value R) (self : Net R Mem)
  : Net R Mem :=
  {| step := step self; layer_by_layer := lbl; encoder := enc;
     _norm_layer := _norm_layer self; num_classes := num_classes self;
     node := node_mode lbl (step self) <$> node self; once := once self;
     sum_output := sum_output self; dataset := dataset self;
     inplanes := inplanes self; dilation := dilation self;
     groups := groups self; base_width := base_width self;
     _modules := module_mode lbl (step self) <$> _modules self |}.

(** A layer that treats every sample of the batch on its own. *)
Definition per_sample (f : tensor R -> tensor R) : Prop :=
  exists h, forall l, f (Stack l) = Stack (h <$> l).

Definition BasicBlock_per_sample (b : @BasicBlock.t R Mem) : Prop :=
  per_sample (BasicBlock.conv1 b) /\ per_sample (BasicBlock.bn1 b) /\
  per_sample (BasicBlock.conv2 b) /\ per_sample (BasicBlock.bn2 b) /\
  forall ds, BasicBlock.downsample b = Some ds -> per_sample ds.

Definition Bottleneck_per_sample (b : @Bottleneck.t R Mem) : Prop :=
  per_sample (Bottleneck.conv1 b) /\ per_sample (Bottleneck.bn1 b) /\
  per_sample (Bottleneck.conv2 b) /\ per_sample (Bottleneck.bn2 b) /\
  per_sample (Bottleneck.conv3 b) /\ per_sample (Bottleneck.bn3 b) /\
  forall ds, Bottleneck.downsample b = Some ds -> per_sample ds.

Definition block_per_sample (b : block R Mem) : Prop :=
  match b with
  | Basic b => BasicBlock_per_sample b
  | Bottle b => Bottleneck_per_sample b
  end.

Definition module_per_sample (m : module R Mem) : Prop :=
  match m with
  | MLayer f => per_sample f
  | MNode _ => True
  | MSequential bs => Forall block_per_sample bs
  end.

Definition layers_per_sample (self : Net R Mem) : Prop :=
  forall name m, _modules self !! name = Some m -> module_per_sample m.

(** One timestep of a node keeps the batch: a stack of samples in, a
    stack of as many samples out. *)
Definition node_keeps_batch : Prop :=
  forall (s : Mem) (l : list (tensor R)),
    exists l', (n_fire s (Stack l)).1 = Stack l' /\ length l' = length l.

(** A stateful function applied to the time slices in order. *)
Fixpoint unroll {X} (f : tensor R -> M X (tensor R)) (xs : list (tensor R))
  : M X (list (tensor R)) :=
  match xs with
  | [] => ret []
  | x :: xs' => y <- f x ;; ys <- unroll f xs' ;; ret (y :: ys)
  end.

(** [f] computes on the flattened tensor, in layer-by-layer mode, what it
    computes slice by slice in looped mode: [T] slices of [b] samples
    each, from states [good] and equal up to the mode [md]. *)
Definition timewise {X} (T : nat) (good : X -> Prop) (md : bool -> X -> X)
  (f : tensor R -> M X (tensor R)) : Prop :=
  forall b ls s outs s',
    length ls = T -> Forall (fun l => length l = b) ls -> good s ->
    unroll f (Stack <$> ls) (md false s) = (Ok outs, s') ->
    exists os s'',
      outs = Stack <$> os /\ Forall (fun l => length l = b) os /\
      s' = md false s'' /\ good s'' /\
      f (Stack (concat ls)) (md true s) = (Ok (Stack (concat os)), md true s'').

End Strategies.

(** ** Reading the structure of a network

    What a constructor built, as [print(model)] shows it: the class, the
    stride and the projection shortcut of a block, and the names of the
    children of a network in the order of the assignments in
    [__init__] (lines 196-209, 368-380, 539-552). *)

Section Structure.
Context {R Mem : Type}.

Definition block_class (b : block R Mem) : BlockCls :=
  match b with
  | Basic _ => BasicBlockCls
  | Bottle _ => BottleneckCls
  end.

Definition block_stride (b : block R Mem) : nat :=
  match b with
  | Basic b => BasicBlock.stride b
  | Bottle b => Bottleneck.stride b
  end.

Definition block_downsample (b : block R Mem) : option (tensor R -> tensor R) :=
  match b with
  | Basic b => BasicBlock.downsample b
  | Bottle b => Bottleneck.downsample b
  end.

Definition block_downsample_sn (b : block R Mem) : option (Node Mem) :=
  match b with
  | Basic b => BasicBlock.downsample_sn b
  | Bottle b => Bottleneck.downsample_sn b
  end.

(** A block whose projection shortcut, if it has one, comes with the
    node that follows it ([if downsample is not None:
    self.downsample_sn = node()], lines 74-75 and 126-127). *)
Definition block_wired (b : block R Mem) : Prop :=
  is_Some (block_downsample b) -> is_Some (block_downsample_sn b).

Definition module_wired (m : module R Mem) : Prop :=
  match m with
  | MSequential bs => Forall block_wired bs
  | MLayer _ | MNode _ => True
  end.

End Structure.

Definition children (c : NetCls) : list string :=
  match c with
  | SEWResNetCls =>
      ["conv1"; "bn1"; "node1"; "maxpool"; "layer1"; "layer2"; "layer3";
       "layer4"; "avgpool"; "fc"]
  | SEWResNet19Cls =>
      ["conv1"; "bn1"; "node1"; "layer1"; "layer2"; "layer3"; "avgpool";
       "fc1"; "fc2"; "node2"]
  | SEWResNetCifarCls =>
      ["conv1"; "bn1"; "node1"; "maxpool"; "layer1"; "layer2"; "layer3";
       "avgpool"; "fc"]
  end.

(** The attribute that holds the [i]-th layer stack. *)
Definition layer_name (i : nat) : string :=
  match i with
  | 0 => "layer1"
  | 1 => "layer2"
  | 2 => "layer3"
  | _ => "layer4"
  end.


(** ** A concrete instance

    Integer scalars, an integrate-and-fire node and trivial layers, on
    which the definitions above can be run. *)

Module Demo.

Definition Z_scalar : ScalarOps Z :=
  {| radd := Z.add; rmul := Z.mul; rsub := Z.sub; rdiv := Z.div;
     rzero := 0%Z; rone := 1%Z; rofnat := Z.of_nat |}.

(** Integrate and fire with threshold 2: the membrane potential
    accumulates the input; an element at or above the threshold emits 1
    and returns to 0. *)
Definition if_fire (s : option (tensor Z)) (x : tensor Z)
  : tensor Z * option (tensor Z) :=
  let v := match s with
           | None => x
           | Some m =>
               match @tzip Z Z.add m x with
               | Ok v => v
               | Raise _ => x
               end
           end in
  (tmap (fun u => if (2 <=? u)%Z then 1%Z else 0%Z) v,
   Some (tmap (fun u => if (2 <=? u)%Z then 0%Z else u) v)).

Definition if_node : NodeDynamics Z (option (tensor Z)) :=
  {| n_init := None; n_fire := if_fire |}.

(** Layers that act on each sample alone: the convolutions and the
    linear layers scale by a constant weight, the others are the
    identity. *)
Definition torch_per_sample : Torch Z :=
  {| Conv2d := fun _ _ _ _ _ _ _ => tmap (Z.mul 2);
     BatchNorm2d := fun _ x => x;
     MaxPool2d := fun _ _ _ x => x;
     AdaptiveAvgPool2d := fun _ _ x => x;
     Linear := fun _ _ => tmap (Z.mul 3) |}.

(** The direct encoder: the input repeated for every timestep, flattened
    into the batch in layer-by-layer execution. *)
Definition direct_encoder (step : nat) (encode_type : string) (lbl : bool)
  (x : tensor Z) : value Z :=
  if lbl then
    match x with
    | Stack l => VTensor (Stack (concat (replicate step l)))
    | Scalar _ => VTensor x
    end
  else VList (replicate step x).

Definition node0 (lbl : bool) (step : nat) : Node (option (tensor Z)) :=
  {| n_step := step; n_layer_by_layer := lbl; mem := None |}.

Definition basic_block (cnf : option string) : @BasicBlock.t Z (option (tensor Z)) :=
  {| BasicBlock.conv1 := tmap (Z.mul 2); BasicBlock.bn1 := fun x => x;
     BasicBlock.node1 := node0 false 1;
     BasicBlock.conv2 := tmap (Z.mul 2); BasicBlock.bn2 := fun x => x;
     BasicBlock.node2 := node0 false 1;
     BasicBlock.downsample := None; BasicBlock.downsample_sn := None;
     BasicBlock.stride := 1; BasicBlock.cnf := cnf |}.

Definition bottleneck (cnf : option string) : @Bottleneck.t Z (option (tensor Z)) :=
  {| Bottleneck.conv1 := tmap (Z.mul 2); Bottleneck.bn1 := fun x => x;
     Bottleneck.node1 := node0 false 1;
     Bottleneck.conv2 := tmap (Z.mul 2); Bottleneck.bn2 := fun x => x;
     Bottleneck.node2 := node0 false 1;
     Bottleneck.conv3 := tmap (Z.mul 2); Bottleneck.bn3 := fun x => x;
     Bottleneck.node3 := node0 false 1;
     Bottleneck.downsample := None; Bottleneck.downsample_sn := None;
     Bottleneck.stride := 1; Bottleneck.cnf := cnf |}.

Definition framework : Framework Z :=
  {| Encoder := direct_encoder;
     is_dvs_data := fun d => if decide (d = "dvsg") then true else false |}.

Definition checkpoints : Checkpoints Z (option (tensor Z)) :=
  {| load_state_dict_from_url := fun _ _ model => Ok model |}.

Definition kwargs (lbl once sum_output : bool) (step : nat) : Kwargs Z :=
  {| kw_dataset := "cifar10"; kw_once := Some once;
     kw_sum_output := Some sum_output; kw_layer_by_layer := Some lbl;
     kw_num_classes := Some 10; kw_step := Some step;
     kw_encode_type := None; kw_groups := None; kw_width_per_group := None;
     kw_replace_stride_with_dilation := None; kw_norm_layer := None |}.

#[local] Existing Instances Z_scalar if_node torch_per_sample framework checkpoints.

Definition net_of (m : res (Net Z (option (tensor Z)))) : Net Z (option (tensor Z)) :=
  match m with
  | Ok self => self
  | Raise _ => @blank Z (option (tensor Z)) torch_per_sample
  end.

(** [sew_resnet18(cnf='ADD', ...)], [sew_resnet19(...)] and
    [sew_resnet20(...)] on the instance above. *)
Definition resnet18 (lbl once sum_output : bool) (step : nat) :=
  net_of (sew_resnet18 false true (Some "ADD") (kwargs lbl once sum_output step)).

Definition resnet19 (lbl once sum_output : bool) (step : nat) :=
  net_of (sew_resnet19 false true (Some "ADD") (kwargs lbl once sum_output step)).

Definition resnet20 (lbl once sum_output : bool) (step : nat) :=
  net_of (sew_resnet20 false true (Some "ADD") (kwargs lbl once sum_output step)).

(** A batch of two samples with two features each. *)
Definition input : tensor Z :=
  Stack [Stack [Scalar 1%Z; Scalar 0%Z]; Stack [Scalar 0%Z; Scalar 3%Z]].

(** A normalisation layer that uses batch statistics, as
    [nn.BatchNorm2d] does in training mode: every feature is centred by
    its mean over the samples of the batch. *)
Definition batch_center (num_features : nat) (x : tensor Z) : tensor Z :=
  match x with
  | Stack l =>
      match mean0 x with
      | Ok m => Stack (map (fun s => match tzip Z.sub s m with
                                     | Ok d => d
                                     | Raise _ => s
                                     end) l)
      | Raise _ => x
      end
  | Scalar _ => x
  end.

(** [sew_resnet18(cnf='ADD', norm_layer=batch_center, ...)] *)
Definition centred18 (lbl : bool) (step : nat) :=
  net_of (sew_resnet18 false true (Some "ADD")
            {| kw_dataset := "cifar10"; kw_once := Some false;
               kw_sum_output := Some true; kw_layer_by_layer := Some lbl;
               kw_num_classes := Some 10; kw_step := Some step;
               kw_encode_type := None; kw_groups := None;
               kw_width_per_group := None;
               kw_replace_stride_with_dilation := None;
               kw_norm_layer := Some batch_center |}).

End Demo.
Section TensorFacts.
Context {R : Type} `{ScalarOps R}.

Lemma same_shape_Stack (l1 l2 : list (tensor R)) :
  same_shape (Stack l1) (Stack l2) = same_shape_list l1 l2.
Proof.
  simpl. revert l2. induction l1 as [|x l1 IH]; intros [|y l2]; simpl; auto.
Qed.

Lemma tzip_Stack f (l1 l2 : list (tensor R)) :
  tzip f (Stack l1) (Stack l2)
  = res_bind (tzip_list f l1 l2) (fun zs => Ok (Stack zs)).
Proof.
  simpl. f_equal. revert l2.
  induction l1 as [|x l1 IH]; intros [|y l2]; simpl; auto.
  by rewrite IH.
Qed.

Lemma tzip_ok f (a : tensor R) : forall b,
  same_shape a b = true ->
  exists c, tzip f a b = Ok c /\ same_shape a c = true /\
    forall idx x y, tget idx a = Some x -> tget idx b = Some y ->
                    tget idx c = Some (f x y).
Proof.
  induction a as [r|l IH] using tensor_ind'; intros [r'|l'] Hs; try done.
  - exists (Scalar (f r r')). split; [done|]. split; [done|].
    intros [|i idx] x y; simpl; congruence.
  - rewrite same_shape_Stack in Hs.
    assert (exists zs, tzip_list f l l' = Ok zs /\ same_shape_list l zs = true /\
              forall i a b, l !! i = Some a -> l' !! i = Some b ->
                exists c, zs !! i = Some c /\
                  forall idx x y, tget idx a = Some x -> tget idx b = Some y ->
                                  tget idx c = Some (f x y)) as (zs & Hz & Hsh & Hget).
    { revert l' Hs. induction IH as [|a l Ha _ IHl]; intros [|b l'] Hs; try done.
      - exists []. repeat split; try done.
      - simpl in Hs. apply andb_true_iff in Hs as [Hab Hl].
        destruct (Ha b Hab) as (c & Hc & Hcs & Hcg).
        destruct (IHl l' Hl) as (zs & Hz & Hzs & Hzg).
        exists (c :: zs). simpl. rewrite Hc, Hz. simpl. rewrite Hcs, Hzs.
        repeat split; try done.
        intros [|i] a' b' Ha' Hb'; simpl in *.
        + injection Ha' as <-. injection Hb' as <-. eauto.
        + eauto. }
    exists (Stack zs). rewrite tzip_Stack, Hz.
    split; [done|]. split; [by rewrite same_shape_Stack|].
    intros [|i idx] x y; simpl; try done.
    destruct (l !! i) as [a|] eqn:Ea; try done.
    destruct (l' !! i) as [b|] eqn:Eb; try done.
    destruct (Hget i a b Ea Eb) as (c & -> & Hc). apply Hc.
Qed.

Lemma same_shape_tmap_r g (a : tensor R) : forall b,
  same_shape a (tmap g b) = same_shape a b.
Proof.
  induction a as [r|l IH] using tensor_ind'; intros [r'|l']; try done.
  cbn [tmap]. rewrite !same_shape_Stack.
  revert l'. induction IH as [|a l Ha _ IHl]; intros [|b l']; simpl; try done.
  by rewrite Ha, IHl.
Qed.

Lemma tget_tmap g idx : forall (a : tensor R),
  tget idx (tmap g a) = g <$> tget idx a.
Proof.
  induction idx as [|i idx IH]; intros [r|l]; simpl; try done.
  rewrite list_lookup_fmap. destruct (l !! i); simpl; auto.
Qed.

(** The three supported modes, written with the tensor operations. *)
Lemma sew_function_ADD (x y : tensor R) :
  sew_function x y (Some "ADD") = tadd x y.
Proof. done. Qed.

Lemma sew_function_AND (x y : tensor R) :
  sew_function x y (Some "AND") = tmul x y.
Proof. done. Qed.

Lemma sew_function_IAND (x y : tensor R) :
  sew_function x y (Some "IAND") = tmul x (tmap (rsub rone) y).
Proof. done. Qed.

(** C1: on equal-shaped tensors [a] and [b] the three modes return a
    tensor of the same shape whose element at every index is [a + b] for
    ADD, [a * b] for AND and [a * (1 - b)] for IAND. *)
Theorem sew_function_elementwise (a b : tensor R) :
  same_shape a b = true ->
  exists s p q,
    sew_function a b (Some "ADD") = Ok s /\
    sew_function a b (Some "AND") = Ok p /\
    sew_function a b (Some "IAND") = Ok q /\
    same_shape a s = true /\ same_shape a p = true /\ same_shape a q = true /\
    forall idx x y, tget idx a = Some x -> tget idx b = Some y ->
      tget idx s = Some (radd x y) /\
      tget idx p = Some (rmul x y) /\
      tget idx q = Some (rmul x (rsub rone y)).
Proof.
  intros Hs.
  destruct (tzip_ok radd a b Hs) as (s & Es & Hss & Hsg).
  destruct (tzip_ok rmul a b Hs) as (p & Ep & Hps & Hpg).
  assert (same_shape a (tmap (rsub rone) b) = true) as Hs'
    by by rewrite same_shape_tmap_r.
  destruct (tzip_ok rmul a _ Hs') as (q & Eq & Hqs & Hqg).
  exists s, p, q. rewrite sew_function_ADD, sew_function_AND, sew_function_IAND.
  do 6 (split; [done|]).
  intros idx x y Hx Hy. repeat split; eauto.
  apply Hqg; [done|]. rewrite tget_tmap. by rewrite Hy.
Qed.

(** C2 for the function itself: every other tag raises. *)
Lemma sew_function_unsupported (x y : tensor R) (cnf : option string) :
  cnf <> Some "ADD" -> cnf <> Some "AND" -> cnf <> Some "IAND" ->
  sew_function x y cnf = Raise NotImplementedError.
Proof.
  intros H1 H2 H3. unfold sew_function.
  repeat case_decide; done.
Qed.

End TensorFacts.

(** ** The state-threading combinators *)

Section MonadFacts.
Context {St A B : Type}.

Lemma bind_ok (m : M St A) (k : A -> M St B) s a s' :
  m s = (Ok a, s') -> bind m k s = k a s'.
Proof. unfold bind. by intros ->. Qed.

Lemma bind_raise (m : M St A) (k : A -> M St B) s e s' :
  m s = (Raise e, s') -> bind m k s = (Raise e, s').
Proof. unfold bind. by intros ->. Qed.

Lemma bind_inv_ok (m : M St A) (k : A -> M St B) s b s' :
  bind m k s = (Ok b, s') ->
  exists a s1, m s = (Ok a, s1) /\ k a s1 = (Ok b, s').
Proof.
  unfold bind. destruct (m s) as [[a|e] s1]; [eauto | done].
Qed.

End MonadFacts.

(** ** The residual blocks *)

Section Blocks.
Context {R Mem : Type} `{ScalarOps R} `{NodeDynamics R Mem} `{Torch R}.

Lemma BasicBlock_main_path_eq x (b : @BasicBlock.t R Mem) :
  BasicBlock.main_path x b =
  let '(r1, n1) := Node_forward (BasicBlock.bn1 b (BasicBlock.conv1 b x))
                     (BasicBlock.node1 b) in
  match r1 with
  | Raise e => (Raise e, BasicBlock.set_node1 n1 b)
  | Ok o1 =>
      let '(r2, n2) := Node_forward (BasicBlock.bn2 b (BasicBlock.conv2 b o1))
                         (BasicBlock.node2 b) in
      (r2, BasicBlock.set_node2 n2 (BasicBlock.set_node1 n1 b))
  end.
Proof.
  unfold BasicBlock.main_path, bind, get, zoom, ret. cbn -[Node_forward].
  destruct (Node_forward _ _) as [[o1|e] n1]; cbn -[Node_forward]; [|done].
  destruct (Node_forward _ _) as [[o2|e] n2]; cbn -[Node_forward]; done.
Qed.

Lemma BasicBlock_shortcut_eq x i (b : @BasicBlock.t R Mem) :
  BasicBlock.shortcut x i b =
  match BasicBlock.downsample b with
  | Some ds =>
      match BasicBlock.downsample_sn b with
      | Some n =>
          let '(r, n') := Node_forward (ds x) n in
          (r, BasicBlock.set_downsample_sn (Some n') b)
      | None => (Raise (AttributeError "downsample_sn"), b)
      end
  | None => (Ok i, b)
  end.
Proof.
  unfold BasicBlock.shortcut, BasicBlock.call_downsample_sn, bind, get, ret.
  by destruct (BasicBlock.downsample b).
Qed.

Lemma BasicBlock_forward_eq x (b : @BasicBlock.t R Mem) :
  BasicBlock.forward x b =
  match BasicBlock.main_path x b with
  | (Ok out, b1) =>
      match BasicBlock.shortcut x x b1 with
      | (Ok idn, b2) => (sew_function idn out (BasicBlock.cnf b2), b2)
      | (Raise e, b2) => (Raise e, b2)
      end
  | (Raise e, b1) => (Raise e, b1)
  end.
Proof.
  unfold BasicBlock.forward, bind.
  destruct (BasicBlock.main_path x b) as [[out|e] b1]; [|done].
  by destruct (BasicBlock.shortcut x x b1) as [[idn|e] b2].
Qed.

Lemma Bottleneck_main_path_eq x (b : @Bottleneck.t R Mem) :
  Bottleneck.main_path x b =
  let '(r1, n1) := Node_forward (Bottleneck.bn1 b (Bottleneck.conv1 b x))
                     (Bottleneck.node1 b) in
  match r1 with
  | Raise e => (Raise e, Bottleneck.set_node1 n1 b)
  | Ok o1 =>
      let '(r2, n2) := Node_forward (Bottleneck.bn2 b (Bottleneck.conv2 b o1))
                         (Bottleneck.node2 b) in
      match r2 with
      | Raise e => (Raise e, Bottleneck.set_node2 n2 (Bottleneck.set_node1 n1 b))
      | Ok o2 =>
          let '(r3, n3) := Node_forward (Bottleneck.bn3 b (Bottleneck.conv3 b o2))
                             (Bottleneck.node3 b) in
          (r3, Bottleneck.set_node3 n3
                 (Bottleneck.set_node2 n2 (Bottleneck.set_node1 n1 b)))
      end
  end.
Proof.
  unfold Bottleneck.main_path, bind, get, zoom, ret. cbn -[Node_forward].
  destruct (Node_forward _ _) as [[o1|e] n1]; cbn -[Node_forward]; [|done].
  destruct (Node_forward _ _) as [[o2|e] n2]; cbn -[Node_forward]; [|done].
  destruct (Node_forward _ _) as [[o3|e] n3]; cbn -[Node_forward]; done.
Qed.

Lemma Bottleneck_shortcut_eq x i (b : @Bottleneck.t R Mem) :
  Bottleneck.shortcut x i b =
  match Bottleneck.downsample b with
  | Some ds =>
      match Bottleneck.downsample_sn b with
      | Some n =>
          let '(r, n') := Node_forward (ds x) n in
          (r, Bottleneck.set_downsample_sn (Some n') b)
      | None => (Raise (AttributeError "downsample_sn"), b)
      end
  | None => (Ok i, b)
  end.
Proof.
  unfold Bottleneck.shortcut, Bottleneck.call_downsample_sn, bind, get, ret.
  by destruct (Bottleneck.downsample b).
Qed.

Lemma Bottleneck_forward_eq x (b : @Bottleneck.t R Mem) :
  Bottleneck.forward x b =
  match Bottleneck.main_path x b with
  | (Ok out, b1) =>
      match Bottleneck.shortcut x x b1 with
      | (Ok idn, b2) => (sew_function out idn (Bottleneck.cnf b2), b2)
      | (Raise e, b2) => (Raise e, b2)
      end
  | (Raise e, b1) => (Raise e, b1)
  end.
Proof.
  unfold Bottleneck.forward, bind.
  destruct (Bottleneck.main_path x b) as [[out|e] b1]; [|done].
  by destruct (Bottleneck.shortcut x x b1) as [[idn|e] b2].
Qed.

Lemma BasicBlock_main_path_cnf x (b : @BasicBlock.t R Mem) :
  BasicBlock.cnf (BasicBlock.main_path x b).2 = BasicBlock.cnf b.
Proof.
  rewrite BasicBlock_main_path_eq.
  destruct (Node_forward _ _) as [[o1|e] n1]; [|done].
  by destruct (Node_forward _ _) as [r2 n2].
Qed.

Lemma BasicBlock_shortcut_cnf x i (b : @BasicBlock.t R Mem) :
  BasicBlock.cnf (BasicBlock.shortcut x i b).2 = BasicBlock.cnf b.
Proof.
  rewrite BasicBlock_shortcut_eq.
  destruct (BasicBlock.downsample b); [|done].
  destruct (BasicBlock.downsample_sn b); [|done].
  by destruct (Node_forward _ _).
Qed.

Lemma Bottleneck_main_path_cnf x (b : @Bottleneck.t R Mem) :
  Bottleneck.cnf (Bottleneck.main_path x b).2 = Bottleneck.cnf b.
Proof.
  rewrite Bottleneck_main_path_eq.
  destruct (Node_forward _ _) as [[o1|e] n1]; [|done].
  destruct (Node_forward _ _) as [[o2|e] n2]; [|done].
  by destruct (Node_forward _ _) as [r3 n3].
Qed.

Lemma Bottleneck_shortcut_cnf x i (b : @Bottleneck.t R Mem) :
  Bottleneck.cnf (Bottleneck.shortcut x i b).2 = Bottleneck.cnf b.
Proof.
  rewrite Bottleneck_shortcut_eq.
  destruct (Bottleneck.downsample b); [|done].
  destruct (Bottleneck.downsample_sn b); [|done].
  by destruct (Node_forward _ _).
Qed.

(** The merge of a block, as the forward pass reaches it. *)
Lemma BasicBlock_forward_merge x (b b1 b2 : @BasicBlock.t R Mem) out idn :
  BasicBlock.main_path x b = (Ok out, b1) ->
  BasicBlock.shortcut x x b1 = (Ok idn, b2) ->
  BasicBlock.forward x b = (sew_function idn out (BasicBlock.cnf b), b2).
Proof.
  intros E1 E2. unfold BasicBlock.forward.
  rewrite (bind_ok _ _ _ _ _ E1), (bind_ok _ _ _ _ _ E2).
  cbn [bind get lift].
  pose proof (BasicBlock_main_path_cnf x b) as C1.
  pose proof (BasicBlock_shortcut_cnf x x b1) as C2.
  rewrite E1 in C1. rewrite E2 in C2. simpl in *. by rewrite C2, C1.
Qed.

Lemma Bottleneck_forward_merge x (b b1 b2 : @Bottleneck.t R Mem) out idn :
  Bottleneck.main_path x b = (Ok out, b1) ->
  Bottleneck.shortcut x x b1 = (Ok idn, b2) ->
  Bottleneck.forward x b = (sew_function out idn (Bottleneck.cnf b), b2).
Proof.
  intros E1 E2. unfold Bottleneck.forward.
  rewrite (bind_ok _ _ _ _ _ E1), (bind_ok _ _ _ _ _ E2).
  cbn [bind get lift].
  pose proof (Bottleneck_main_path_cnf x b) as C1.
  pose proof (Bottleneck_shortcut_cnf x x b1) as C2.
  rewrite E1 in C1. rewrite E2 in C2. simpl in *. by rewrite C2, C1.
Qed.

(** A block never returns a value under an unsupported mode. *)
Lemma BasicBlock_forward_unsupported x (b : @BasicBlock.t R Mem) :
  BasicBlock.cnf b <> Some "ADD" -> BasicBlock.cnf b <> Some "AND" ->
  BasicBlock.cnf b <> Some "IAND" ->
  is_ok (BasicBlock.forward x b).1 = false.
Proof.
  intros H2 H3 H4. unfold BasicBlock.forward.
  destruct (BasicBlock.main_path x b) as [[out|e] b1] eqn:E1;
    [|by rewrite (bind_raise _ _ _ _ _ E1)].
  rewrite (bind_ok _ _ _ _ _ E1).
  destruct (BasicBlock.shortcut x x b1) as [[idn|e] b2] eqn:E2;
    [|by rewrite (bind_raise _ _ _ _ _ E2)].
  rewrite (bind_ok _ _ _ _ _ E2). cbn [bind get lift fst].
  pose proof (BasicBlock_main_path_cnf x b) as C1.
  pose proof (BasicBlock_shortcut_cnf x x b1) as C2.
  rewrite E1 in C1. rewrite E2 in C2. simpl in *.
  rewrite sew_function_unsupported; [done|congruence..].
Qed.

Lemma Bottleneck_forward_unsupported x (b : @Bottleneck.t R Mem) :
  Bottleneck.cnf b <> Some "ADD" -> Bottleneck.cnf b <> Some "AND" ->
  Bottleneck.cnf b <> Some "IAND" ->
  is_ok (Bottleneck.forward x b).1 = false.
Proof.
  intros H2 H3 H4. unfold Bottleneck.forward.
  destruct (Bottleneck.main_path x b) as [[out|e] b1] eqn:E1;
    [|by rewrite (bind_raise _ _ _ _ _ E1)].
  rewrite (bind_ok _ _ _ _ _ E1).
  destruct (Bottleneck.shortcut x x b1) as [[idn|e] b2] eqn:E2;
    [|by rewrite (bind_raise _ _ _ _ _ E2)].
  rewrite (bind_ok _ _ _ _ _ E2). cbn [bind get lift fst].
  pose proof (Bottleneck_main_path_cnf x b) as C1.
  pose proof (Bottleneck_shortcut_cnf x x b1) as C2.
  rewrite E1 in C1. rewrite E2 in C2. simpl in *.
  rewrite sew_function_unsupported; [done|congruence..].
Qed.


Lemma Sequential_forward_unsupported x (b : block R Mem) bs :
  let cnf := match b with
             | Basic b => BasicBlock.cnf b
             | Bottle b => Bottleneck.cnf b
             end in
  cnf <> Some "ADD" -> cnf <> Some "AND" -> cnf <> Some "IAND" ->
  is_ok (Sequential_forward x (b :: bs)).1 = false.
Proof.
  intros cnf H2 H3 H4. simpl.
  assert (is_ok (block_forward x b).1 = false) as Hb.
  { destruct b as [b|b]; simpl.
    - pose proof (BasicBlock_forward_unsupported x b) as Hu.
      destruct (BasicBlock.forward x b) as [r b']. simpl in *. by apply Hu.
    - pose proof (Bottleneck_forward_unsupported x b) as Hu.
      destruct (Bottleneck.forward x b) as [r b']. simpl in *. by apply Hu. }
  by destruct (block_forward x b) as [[y|e] b'].
Qed.

(** C2: under a mode tag other than ADD, AND and IAND the combination
    function raises NotImplementedError; no caller catches it: a block of
    either kind whose paths reach the merge raises that very exception,
    and neither a block nor a layer stack led by such a block ever returns a
    value. *)
Theorem sew_function_unsupported_propagates (cnf : option string) :
  cnf <> Some "ADD" -> cnf <> Some "AND" -> cnf <> Some "IAND" ->
  (forall x y : tensor R, sew_function x y cnf = Raise NotImplementedError) /\
  (forall (b : @BasicBlock.t R Mem) x, BasicBlock.cnf b = cnf ->
     is_ok (BasicBlock.forward x b).1 = false /\
     is_ok (Sequential_forward x [Basic b]).1 = false /\
     forall out idn b1 b2,
       BasicBlock.main_path x b = (Ok out, b1) ->
       BasicBlock.shortcut x x b1 = (Ok idn, b2) ->
       BasicBlock.forward x b = (Raise NotImplementedError, b2)) /\
  (forall (b : @Bottleneck.t R Mem) x, Bottleneck.cnf b = cnf ->
     is_ok (Bottleneck.forward x b).1 = false /\
     is_ok (Sequential_forward x [Bottle b]).1 = false /\
     forall out idn b1 b2,
       Bottleneck.main_path x b = (Ok out, b1) ->
       Bottleneck.shortcut x x b1 = (Ok idn, b2) ->
       Bottleneck.forward x b = (Raise NotImplementedError, b2)).
Proof.
  intros H2 H3 H4. split; [|split].
  - intros x y. by apply sew_function_unsupported.
  - intros b x <-. split; [|split].
    + by apply BasicBlock_forward_unsupported.
    + by apply Sequential_forward_unsupported.
    + intros out idn b1 b2 E1 E2.
      rewrite (BasicBlock_forward_merge x b b1 b2 out idn E1 E2).
      by rewrite sew_function_unsupported.
  - intros b x <-. split; [|split].
    + by apply Bottleneck_forward_unsupported.
    + by apply Sequential_forward_unsupported.
    + intros out idn b1 b2 E1 E2.
      rewrite (Bottleneck_forward_merge x b b1 b2 out idn E1 E2).
      by rewrite sew_function_unsupported.
Qed.

(** C3: a BasicBlock merges [sew_function(identity, out, cnf)] and a
    Bottleneck merges [sew_function(out, identity, cnf)]; under IAND the
    first is [identity * (1 - out)] and the second [out * (1 - identity)]. *)
Theorem block_merge_argument_order
  (bb bb1 bb2 : @BasicBlock.t R Mem) (bn bn1 bn2 : @Bottleneck.t R Mem)
  (x out idn x' out' idn' : tensor R) :
  BasicBlock.main_path x bb = (Ok out, bb1) ->
  BasicBlock.shortcut x x bb1 = (Ok idn, bb2) ->
  Bottleneck.main_path x' bn = (Ok out', bn1) ->
  Bottleneck.shortcut x' x' bn1 = (Ok idn', bn2) ->
  BasicBlock.forward x bb = (sew_function idn out (BasicBlock.cnf bb), bb2) /\
  Bottleneck.forward x' bn = (sew_function out' idn' (Bottleneck.cnf bn), bn2) /\
  (BasicBlock.cnf bb = Some "IAND" ->
   (BasicBlock.forward x bb).1 = tmul idn (tmap (rsub rone) out)) /\
  (Bottleneck.cnf bn = Some "IAND" ->
   (Bottleneck.forward x' bn).1 = tmul out' (tmap (rsub rone) idn')).
Proof.
  intros E1 E2 E3 E4.
  rewrite (BasicBlock_forward_merge x bb bb1 bb2 out idn E1 E2).
  rewrite (Bottleneck_forward_merge x' bn bn1 bn2 out' idn' E3 E4).
  repeat split; intros ->; done.
Qed.

End Blocks.

Section BlockWitnesses.
#[local] Existing Instances Demo.Z_scalar Demo.if_node Demo.torch_per_sample.
#[local] Open Scope Z_scope.

Lemma sew_function_elementwise_witness :
  exists s p q : tensor Z,
    sew_function (Stack [Scalar 2; Scalar 3]) (Stack [Scalar 5; Scalar 7])
      (Some "ADD") = Ok s /\
    sew_function (Stack [Scalar 2; Scalar 3]) (Stack [Scalar 5; Scalar 7])
      (Some "AND") = Ok p /\
    sew_function (Stack [Scalar 2; Scalar 3]) (Stack [Scalar 5; Scalar 7])
      (Some "IAND") = Ok q /\
    tget [1%nat] s = Some 10 /\ tget [1%nat] p = Some 21 /\ tget [1%nat] q = Some (-18).
Proof.
  destruct (sew_function_elementwise
              (Stack [Scalar 2; Scalar 3]) (Stack [Scalar 5; Scalar 7])
              eq_refl) as (s & p & q & Hs & Hp & Hq & _ & _ & _ & Hget).
  exists s, p, q. do 3 (split; [assumption|]).
  exact (Hget [1%nat] 3 7 eq_refl eq_refl).
Defined.

Lemma sew_function_unsupported_propagates_witness :
  sew_function (Scalar 1) (Scalar 2) (Some "bogus") = Raise NotImplementedError
  /\ is_ok (BasicBlock.forward (Scalar 1) (Demo.basic_block None)).1 = false.
Proof.
  destruct (sew_function_unsupported_propagates (R := Z) (Mem := option (tensor Z))
              (Some "bogus") ltac:(discriminate) ltac:(discriminate)
              ltac:(discriminate)) as (Hf & _ & _).
  destruct (sew_function_unsupported_propagates (R := Z) (Mem := option (tensor Z))
              None ltac:(discriminate) ltac:(discriminate)
              ltac:(discriminate)) as (_ & Hb & _).
  split; [apply Hf | apply (Hb (Demo.basic_block None) (Scalar 1) eq_refl)].
Defined.

Lemma block_merge_argument_order_witness :
  (BasicBlock.forward (Stack [Scalar 3; Scalar 0])
     (Demo.basic_block (Some "IAND"))).1 = Ok (Stack [Scalar 0; Scalar 0]) /\
  (Bottleneck.forward (Stack [Scalar 3; Scalar 0])
     (Demo.bottleneck (Some "IAND"))).1 = Ok (Stack [Scalar (-2); Scalar 0]).
Proof.
  pose (X := Stack [Scalar 3; Scalar 0]).
  pose (BB := Demo.basic_block (Some "IAND")).
  pose (BN := Demo.bottleneck (Some "IAND")).
  assert (BasicBlock.main_path X BB
          = (Ok (Stack [Scalar 1; Scalar 0]), (BasicBlock.main_path X BB).2)) as E1
    by (vm_compute; reflexivity).
  assert (BasicBlock.shortcut X X (BasicBlock.main_path X BB).2
          = (Ok X, (BasicBlock.forward X BB).2)) as E2
    by (vm_compute; reflexivity).
  assert (Bottleneck.main_path X BN
          = (Ok (Stack [Scalar 1; Scalar 0]), (Bottleneck.main_path X BN).2)) as E3
    by (vm_compute; reflexivity).
  assert (Bottleneck.shortcut X X (Bottleneck.main_path X BN).2
          = (Ok X, (Bottleneck.forward X BN).2)) as E4
    by (vm_compute; reflexivity).
  destruct (block_merge_argument_order _ _ _ _ _ _ _ _ _ _ _ _ E1 E2 E3 E4)
    as (_ & _ & Hbb & Hbn).
  split.
  - etransitivity; [exact (Hbb eq_refl)|]. vm_compute; reflexivity.
  - etransitivity; [exact (Hbn eq_refl)|]. vm_compute; reflexivity.
Defined.

End BlockWitnesses.

(** ** Networks: chains, reset and what a forward pass leaves behind *)

Section NetFacts.
Context {R Mem : Type} `{ScalarOps R} `{NodeDynamics R Mem} `{Torch R} `{Framework R}.

Lemma net_body_chain (c : NetCls) (x : tensor R) :
  net_body c x = run_chain (Mem := Mem) (body_stages c) x.
Proof. by destruct c. Qed.

Lemma net_forward_once_chain (c : NetCls) (x : tensor R) :
  net_forward_once c x = run_chain (Mem := Mem) once_stages x.
Proof. by destruct c. Qed.

Lemma net_forward_once_mode (c : NetCls) (x : tensor R) (self : Net R Mem) :
  once self = true ->
  net_forward c x self
  = (let '(r, s) := net_forward_once c x self in
     (res_bind r (fun y => Ok (VTensor y)), s)).
Proof.
  intros Ho.
  destruct c; cbn [net_forward net_forward_once];
    unfold SEWResNet.forward, SEWResNet19.forward, SEWResNetCifar.forward;
    cbn [bind get]; rewrite Ho; unfold bind;
    match goal with |- context [?f x self] =>
      destruct (f x self) as [[y|e] s] end; done.
Qed.

Lemma net_forward_impl_mode (c : NetCls) (x : tensor R) (self : Net R Mem) :
  once self = false ->
  net_forward c x self = forward_impl_with (net_body c) x self.
Proof.
  intros Ho.
  destruct c; cbn [net_forward net_body];
    unfold SEWResNet.forward, SEWResNet19.forward, SEWResNetCifar.forward;
    cbn [bind get]; by rewrite Ho.
Qed.

(** *** A call changes nothing that a reset does not erase *)

Lemma Node_forward_reset x (n : Node Mem) :
  Node_reset (Node_forward x n).2 = Node_reset n.
Proof.
  unfold Node_forward.
  destruct (n_layer_by_layer n).
  - destruct (res_bind _ _) as [xs|e]; [|done].
    by destruct (n_unroll _ _).
  - by destruct (n_fire _ _).
Qed.

Lemma Node_forward_reset' x (n : Node Mem) r n' :
  Node_forward x n = (r, n') -> Node_reset n' = Node_reset n.
Proof. intros E. pose proof (Node_forward_reset x n) as Hn. by rewrite E in Hn. Qed.

Ltac block_fields :=
  cbv [BasicBlock_reset BasicBlock.set_node1 BasicBlock.set_node2
       BasicBlock.set_downsample_sn BasicBlock.conv1 BasicBlock.bn1
       BasicBlock.node1 BasicBlock.conv2 BasicBlock.bn2 BasicBlock.node2
       BasicBlock.downsample BasicBlock.downsample_sn BasicBlock.stride
       BasicBlock.cnf
       Bottleneck_reset Bottleneck.set_node1 Bottleneck.set_node2
       Bottleneck.set_node3 Bottleneck.set_downsample_sn Bottleneck.conv1
       Bottleneck.bn1 Bottleneck.node1 Bottleneck.conv2 Bottleneck.bn2
       Bottleneck.node2 Bottleneck.conv3 Bottleneck.bn3 Bottleneck.node3
       Bottleneck.downsample Bottleneck.downsample_sn Bottleneck.stride
       Bottleneck.cnf fmap option_fmap option_map fst snd].

Ltac block_fields_done := block_fields; congruence.

Lemma BasicBlock_main_path_reset x (b : @BasicBlock.t R Mem) :
  BasicBlock_reset (BasicBlock.main_path x b).2 = BasicBlock_reset b.
Proof.
  destruct b as [c1 b1 n1 c2 b2 n2 ds sn st cnf].
  rewrite BasicBlock_main_path_eq. cbn -[Node_forward].
  destruct (Node_forward _ _) as [[o1|e] n1'] eqn:E1;
    apply Node_forward_reset' in E1; [|block_fields_done].
  destruct (Node_forward _ _) as [r2 n2'] eqn:E2;
    apply Node_forward_reset' in E2. block_fields_done.
Qed.

Lemma BasicBlock_shortcut_reset x i (b : @BasicBlock.t R Mem) :
  BasicBlock_reset (BasicBlock.shortcut x i b).2 = BasicBlock_reset b.
Proof.
  destruct b as [c1 b1 n1 c2 b2 n2 ds sn st cnf].
  rewrite BasicBlock_shortcut_eq. cbn -[Node_forward].
  destruct ds as [ds|]; [|done].
  destruct sn as [sn|]; [|done].
  destruct (Node_forward _ _) as [r n'] eqn:E1;
    apply Node_forward_reset' in E1.
  block_fields_done.
Qed.

Lemma BasicBlock_forward_reset x (b : @BasicBlock.t R Mem) :
  BasicBlock_reset (BasicBlock.forward x b).2 = BasicBlock_reset b.
Proof.
  rewrite BasicBlock_forward_eq.
  pose proof (BasicBlock_main_path_reset x b) as H1'.
  destruct (BasicBlock.main_path x b) as [[out|e] b1]; [|done].
  pose proof (BasicBlock_shortcut_reset x x b1) as H2'.
  destruct (BasicBlock.shortcut x x b1) as [[idn|e] b2]; simpl in *; congruence.
Qed.

Lemma Bottleneck_main_path_reset x (b : @Bottleneck.t R Mem) :
  Bottleneck_reset (Bottleneck.main_path x b).2 = Bottleneck_reset b.
Proof.
  destruct b as [c1 b1 n1 c2 b2 n2 c3 b3 n3 ds sn st cnf].
  rewrite Bottleneck_main_path_eq. cbn -[Node_forward].
  destruct (Node_forward _ _) as [[o1|e] n1'] eqn:E1;
    apply Node_forward_reset' in E1; [|block_fields_done].
  destruct (Node_forward _ _) as [[o2|e] n2'] eqn:E2;
    apply Node_forward_reset' in E2; [|block_fields_done].
  destruct (Node_forward _ _) as [r3 n3'] eqn:E3;
    apply Node_forward_reset' in E3. block_fields_done.
Qed.

Lemma Bottleneck_shortcut_reset x i (b : @Bottleneck.t R Mem) :
  Bottleneck_reset (Bottleneck.shortcut x i b).2 = Bottleneck_reset b.
Proof.
  destruct b as [c1 b1 n1 c2 b2 n2 c3 b3 n3 ds sn st cnf].
  rewrite Bottleneck_shortcut_eq. cbn -[Node_forward].
  destruct ds as [ds|]; [|done].
  destruct sn as [sn|]; [|done].
  destruct (Node_forward _ _) as [r n'] eqn:E1;
    apply Node_forward_reset' in E1.
  block_fields_done.
Qed.

Lemma Bottleneck_forward_reset x (b : @Bottleneck.t R Mem) :
  Bottleneck_reset (Bottleneck.forward x b).2 = Bottleneck_reset b.
Proof.
  rewrite Bottleneck_forward_eq.
  pose proof (Bottleneck_main_path_reset x b) as H1'.
  destruct (Bottleneck.main_path x b) as [[out|e] b1]; [|done].
  pose proof (Bottleneck_shortcut_reset x x b1) as H2'.
  destruct (Bottleneck.shortcut x x b1) as [[idn|e] b2]; simpl in *; congruence.
Qed.

Lemma block_forward_reset x (b : block R Mem) :
  block_reset (block_forward x b).2 = block_reset b.
Proof.
  destruct b as [b|b]; simpl.
  - pose proof (BasicBlock_forward_reset x b) as Hb.
    destruct (BasicBlock.forward x b). simpl in *. by rewrite Hb.
  - pose proof (Bottleneck_forward_reset x b) as Hb.
    destruct (Bottleneck.forward x b). simpl in *. by rewrite Hb.
Qed.

Lemma Sequential_forward_reset (bs : list (block R Mem)) : forall x,
  block_reset <$> (Sequential_forward x bs).2 = block_reset <$> bs.
Proof.
  induction bs as [|b bs IH]; intros x; [done|]. simpl.
  pose proof (block_forward_reset x b) as Hb.
  destruct (block_forward x b) as [[y|e] b']; simpl in *.
  - specialize (IH y). destruct (Sequential_forward y bs) as [r bs'].
    cbn [snd fmap list_fmap] in *. change (list_fmap _ _ block_reset) with (fmap (M := list) block_reset) in *.
    congruence.
  - cbn [snd fmap list_fmap] in *. congruence.
Qed.

Lemma module_forward_reset x (m : module R Mem) :
  module_reset (module_forward x m).2 = module_reset m.
Proof.
  destruct m as [f|n|bs]; simpl; [done|..].
  - pose proof (Node_forward_reset x n) as Hn.
    destruct (Node_forward x n). simpl in *. by rewrite Hn.
  - pose proof (Sequential_forward_reset bs x) as Hb.
    destruct (Sequential_forward x bs). simpl in *. by rewrite Hb.
Qed.

Definition keeps_reset {A} (m : M (Net R Mem) A) : Prop :=
  forall s, reset_net (m s).2 = reset_net s.

Lemma keeps_reset_call name x : keeps_reset (call name x).
Proof.
  intros s. unfold call.
  destruct (_modules s !! name) as [m|] eqn:E; [|done].
  pose proof (module_forward_reset x m) as Hm.
  destruct (module_forward x m) as [r m']. simpl in *.
  unfold reset_net, with_modules. simpl. f_equal.
  rewrite fmap_insert. apply insert_id.
  by rewrite lookup_fmap, E, Hm.
Qed.

Lemma keeps_reset_ret {A} (a : A) : keeps_reset (ret a).
Proof. done. Qed.

Lemma keeps_reset_lift {A} (r : res A) : keeps_reset (lift r).
Proof. done. Qed.

Lemma keeps_reset_get : keeps_reset get.
Proof. done. Qed.

Lemma keeps_reset_bind {A B} (m : M (Net R Mem) A) (k : A -> M (Net R Mem) B) :
  keeps_reset m -> (forall a, keeps_reset (k a)) -> keeps_reset (bind m k).
Proof.
  intros Hm Hk s. unfold bind. specialize (Hm s).
  destruct (m s) as [[a|e] s1]; simpl in *; [|done].
  by rewrite Hk.
Qed.

Lemma keeps_reset_if {A} (b : bool) (m1 m2 : M (Net R Mem) A) :
  keeps_reset m1 -> keeps_reset m2 -> keeps_reset (if b then m1 else m2).
Proof. by destruct b. Qed.

Lemma keeps_reset_for_range {A} ts (body : nat -> A -> M (Net R Mem) A) :
  (forall t a, keeps_reset (body t a)) ->
  forall acc, keeps_reset (for_range ts body acc).
Proof.
  intros Hb. induction ts as [|t ts IH]; intros acc; simpl.
  - apply keeps_reset_ret.
  - apply keeps_reset_bind; auto.
Qed.

Lemma keeps_reset_run_chain sts : forall x, keeps_reset (run_chain sts x).
Proof.
  induction sts as [|st sts IH]; intros x; simpl.
  - apply keeps_reset_ret.
  - apply keeps_reset_bind; [|done].
    destruct st; [apply keeps_reset_call | apply keeps_reset_lift].
Qed.

Lemma module_reset_idemp (m : module R Mem) :
  module_reset (module_reset m) = module_reset m.
Proof.
  destruct m as [f|n|bs]; simpl; try done. f_equal.
  rewrite <- list_fmap_compose. apply list_fmap_ext. intros _ b _.
  destruct b as [b|b]; simpl; f_equal.
  - destruct b as [c1 b1 n1 c2 b2 n2 ds sn st cnf]. unfold BasicBlock_reset.
    cbn. by destruct sn.
  - destruct b as [c1 b1 n1 c2 b2 n2 c3 b3 n3 ds sn st cnf].
    unfold Bottleneck_reset. cbn. by destruct sn.
Qed.

Lemma reset_net_idemp (s : Net R Mem) : reset_net (reset_net s) = reset_net s.
Proof.
  unfold reset_net, with_modules. simpl. f_equal.
  rewrite <- map_fmap_compose. apply map_fmap_ext. intros k m _.
  apply module_reset_idemp.
Qed.

Lemma keeps_reset_reset : keeps_reset reset.
Proof. intros s. apply reset_net_idemp. Qed.

Lemma keeps_reset_forward_impl body x :
  (forall y, keeps_reset (body y)) -> keeps_reset (forward_impl_with body x).
Proof.
  intros Hb. unfold forward_impl_with.
  apply keeps_reset_bind; [apply keeps_reset_get|]. intros s0.
  apply keeps_reset_bind; [apply keeps_reset_reset|]. intros _.
  apply keeps_reset_bind; [apply keeps_reset_get|]. intros s1.
  apply keeps_reset_if.
  - repeat (first [ apply keeps_reset_bind; [|intros ?]
                  | apply keeps_reset_lift | apply keeps_reset_get
                  | apply keeps_reset_ret | apply Hb
                  | apply keeps_reset_if ]).
  - apply keeps_reset_bind.
    + apply keeps_reset_for_range. intros t a.
      repeat (first [ apply keeps_reset_bind; [|intros ?]
                    | apply keeps_reset_lift | apply keeps_reset_ret
                    | apply Hb ]).
    + intros outs.
      repeat (first [ apply keeps_reset_bind; [|intros ?]
                    | apply keeps_reset_lift | apply keeps_reset_get
                    | apply keeps_reset_ret | apply keeps_reset_if ]).
Qed.

(** A multi-step pass reads [self] only through what a reset leaves. *)
Lemma forward_impl_reset_eq body x (s s' : Net R Mem) :
  reset_net s = reset_net s' ->
  (forward_impl_with body x s).1 = (forward_impl_with body x s').1 /\
  reset_net (forward_impl_with body x s).2
  = reset_net (forward_impl_with body x s').2.
Proof.
  intros E.
  assert (encoder s = encoder s') as Ee by apply (f_equal encoder E).
  assert (forward_impl_with body x s = forward_impl_with body x s') as ->; [|done].
  unfold forward_impl_with. cbn [bind get reset modify].
  fold (reset_net s). fold (reset_net s'). by rewrite Ee, E.
Qed.

(** C6: in looped and in flattened execution, two consecutive forward
    calls on the same input return the same result, whatever state the
    first call found: every call resets the nodes before the body runs. *)
Theorem forward_twice_same_output (c : NetCls) (self : Net R Mem) (x : tensor R) :
  once self = false ->
  (net_forward c x (net_forward c x self).2).1 = (net_forward c x self).1 /\
  (forall self' : Net R Mem, reset_net self' = reset_net self ->
     (net_forward c x self').1 = (net_forward c x self).1).
Proof.
  intros Ho.
  assert (forall s s' : Net R Mem, once s = false -> reset_net s' = reset_net s ->
            (net_forward c x s').1 = (net_forward c x s).1) as Hgen.
  { intros s s' Hos E.
    assert (once s' = false) as Hos'
      by (rewrite <- Hos; apply (f_equal once E)).
    rewrite !net_forward_impl_mode by done.
    by apply forward_impl_reset_eq. }
  split; [|intros s' E; by apply Hgen].
  apply Hgen; [done|].
  rewrite net_forward_impl_mode by done.
  apply keeps_reset_forward_impl. intros y.
  rewrite net_body_chain. apply keeps_reset_run_chain.
Qed.

End NetFacts.

(** ** Aggregation over the timesteps *)

Section Aggregation.
Context {R : Type} `{ScalarOps R}.

Lemma same_shape_skel (a : tensor R) : forall b,
  same_shape a b = true <-> skel a = skel b.
Proof.
  induction a as [r|l IH] using tensor_ind'; intros [r'|l']; try done.
  rewrite same_shape_Stack. cbn [skel].
  revert l'. induction IH as [|a l Ha _ IHl]; intros [|b l']; simpl; try done.
  rewrite andb_true_iff, Ha, IHl. split.
  - intros [-> E]. by injection E as ->.
  - intros E. injection E as -> ->. done.
Qed.

Lemma skel_tmap g (a : tensor R) : skel (tmap g a) = skel a.
Proof.
  induction a as [r|l IH] using tensor_ind'; [done|]. cbn [tmap skel]. f_equal.
  rewrite map_map. induction IH as [|a l Ha _ IHl]; simpl; [done|].
  by rewrite Ha, IHl.
Qed.

Lemma tadd_all_spec (os : list (tensor R)) : forall acc,
  Forall (fun t => same_shape acc t = true) os ->
  exists s, tadd_all acc os = Ok s /\ same_shape acc s = true /\
    forall idx a vs, tget idx acc = Some a ->
      Forall2 (fun t v => tget idx t = Some v) os vs ->
      tget idx s = Some (fold_left radd vs a).
Proof.
  induction os as [|t os IH]; intros acc Hall.
  - exists acc. split; [done|]. split; [by apply same_shape_skel|].
    intros idx a vs Ha Hvs. by inversion Hvs.
  - inversion Hall as [|? ? Ht Hos]; subst.
    destruct (tzip_ok radd acc t Ht) as (acc' & E & Hs & Hg).
    destruct (IH acc') as (s & Es & Hss & Hgs).
    { eapply Forall_impl; [exact Hos|]. intros t' Ht'. simpl in Ht'.
      apply same_shape_skel. apply same_shape_skel in Ht', Hs. congruence. }
    exists s. simpl. unfold tadd. rewrite E. simpl. split; [done|].
    split.
    { apply same_shape_skel. apply same_shape_skel in Hs, Hss. congruence. }
    intros idx a vs Ha Hvs. inversion Hvs as [|? v ? vs' Hv Hvs']; subst.
    simpl. eapply Hgs; [|done]. by apply Hg.
Qed.

Lemma py_mean_spec (outs : list (tensor R)) :
  outs <> [] -> pairwise_same_shape outs ->
  exists m, py_mean outs = Ok m /\ is_mean_of outs m.
Proof.
  destruct outs as [|o os]; [done|]. intros _ Hp.
  destruct (tadd_all_spec os (tmap (radd rzero) o)) as (s & Es & Hs & Hg).
  { apply Forall_forall. intros t Ht. apply same_shape_skel.
    rewrite skel_tmap. apply same_shape_skel.
    apply Hp; [apply list_elem_of_here | by apply list_elem_of_further]. }
  exists (tmap (fun v => rdiv v (rofnat (length (o :: os)))) s).
  unfold py_mean. rewrite Es. split; [done|]. split.
  - intros t Ht. apply same_shape_skel. rewrite skel_tmap.
    apply same_shape_skel in Hs. rewrite skel_tmap in Hs. rewrite <- Hs.
    apply same_shape_skel. apply Hp; first [done | apply list_elem_of_here].
  - intros idx vs Hvs. inversion Hvs as [|? v ? vs' Hv Hvs']; subst.
    rewrite tget_tmap.
    rewrite (Hg idx (radd rzero v) vs'); [|by rewrite tget_tmap, Hv|done].
    unfold scalar_mean. simpl.
    by rewrite (Forall2_length _ _ _ Hvs').
Qed.

Lemma pairwise_same_shape_check (outs : list (tensor R)) :
  forallb (fun a => forallb (same_shape a) outs) outs = true ->
  pairwise_same_shape outs.
Proof.
  intros Hc o1 o2 H1 H2.
  rewrite forallb_forall in Hc. apply list_elem_of_In in H1, H2.
  specialize (Hc o1 H1). rewrite forallb_forall in Hc. by apply Hc.
Qed.

Lemma mean0_py_mean (outs : list (tensor R)) :
  outs <> [] -> mean0 (Stack outs) = py_mean outs.
Proof. by destruct outs. Qed.

Lemma length_chunks {A} T b (l : list A) : length (chunks T b l) = T.
Proof. revert l. induction T as [|T IH]; intros l; simpl; auto. Qed.

Lemma time_slices_length T (l : list (tensor R)) xs :
  time_slices T l = Ok xs -> length xs = T /\ 0 < T.
Proof.
  unfold time_slices. destruct (Nat.eqb_spec T 0) as [->|HT]; [done|].
  destruct (negb _); [done|]. cbn [orb]. intros [= <-].
  split; [|lia]. etransitivity; [apply length_fmap|apply length_chunks].
Qed.

End Aggregation.

Section ForwardImpl.
Context {R Mem : Type} `{ScalarOps R} `{NodeDynamics R Mem} `{Torch R} `{Framework R}.

(** The two multi-step passes, spelled out on the state a reset leaves. *)
Lemma forward_impl_with_eq body (x : tensor R) (self : Net R Mem) :
  forward_impl_with body x self =
  let s0 := reset_net self in
  let inputs := encoder self x in
  if layer_by_layer self then
    match as_tensor inputs with
    | Raise e => (Raise e, s0)
    | Ok x0 =>
        match body x0 s0 with
        | (Raise e, s1) => (Raise e, s1)
        | (Ok y, s1) =>
            match rearrange_tbc (step s1) y with
            | Raise e => (Raise e, s1)
            | Ok z =>
                if sum_output s1
                then (res_bind (mean0 z) (fun m => Ok (VTensor m)), s1)
                else (Ok (VTensor z), s1)
            end
        end
    end
  else
    match looped_outputs body inputs (seq 0 (step self)) s0 with
    | (Raise e, s1) => (Raise e, s1)
    | (Ok outputs, s1) =>
        if negb (sum_output s1) then (Ok (VList outputs), s1)
        else (res_bind (py_mean outputs) (fun m => Ok (VTensor m)), s1)
    end.
Proof.
  unfold forward_impl_with. cbn [bind get reset modify].
  fold (reset_net self).
  change (layer_by_layer (reset_net self)) with (layer_by_layer self).
  change (step (reset_net self)) with (step self).
  destruct (layer_by_layer self).
  - unfold bind at 1, lift at 1. destruct (as_tensor _) as [x0|e]; [|done].
    unfold bind at 1. destruct (body x0 _) as [[y|e] s1]; [|done].
    cbn [bind get lift]. destruct (rearrange_tbc _ _) as [z|e]; [|done].
    cbn [bind get lift]. destruct (sum_output s1); cbn [bind ret lift]; [|done].
    by destruct (mean0 z).
  - unfold looped_outputs. unfold bind at 1.
    destruct (for_range _ _ _ _) as [[outs|e] s1]; [|done].
    cbn [bind get]. destruct (sum_output s1); cbn [negb bind ret lift]; [|done].
    by destruct (py_mean outs).
Qed.

Lemma keeps_reset_fields {A} (m : M (Net R Mem) A) s :
  keeps_reset m ->
  step (m s).2 = step s /\ sum_output (m s).2 = sum_output s.
Proof.
  intros Hk. specialize (Hk s).
  split; [apply (f_equal step Hk) | apply (f_equal sum_output Hk)].
Qed.

Lemma for_range_length ts (body : nat -> list (tensor R) ->
                                  M (Net R Mem) (list (tensor R))) :
  (forall t acc s r s', body t acc s = (Ok r, s') -> length r = Datatypes.S (length acc)) ->
  forall acc s outs s',
    for_range ts body acc s = (Ok outs, s') ->
    length outs = length ts + length acc.
Proof.
  intros Hb. induction ts as [|t ts IH]; intros acc s outs s' E; simpl in *.
  - by injection E as <- <-.
  - apply bind_inv_ok in E as (r & s1 & E1 & E2).
    apply Hb in E1. apply IH in E2. lia.
Qed.

Lemma looped_outputs_length body inputs ts (s s' : Net R Mem) outs :
  looped_outputs body inputs ts s = (Ok outs, s') -> length outs = length ts.
Proof.
  intros E. apply for_range_length in E; [simpl in E; lia|].
  intros t acc s0 r s1 E1.
  apply bind_inv_ok in E1 as (x0 & s2 & _ & E1).
  apply bind_inv_ok in E1 as (y & s3 & _ & E1).
  injection E1 as <- <-. rewrite length_app. simpl. lia.
Qed.

Lemma keeps_reset_looped_outputs body inputs ts :
  (forall y, keeps_reset (body y)) ->
  keeps_reset (Mem := Mem) (looped_outputs body inputs ts).
Proof.
  intros Hb. apply keeps_reset_for_range. intros t a.
  repeat (first [ apply keeps_reset_bind; [|intros ?]
                | apply keeps_reset_lift | apply keeps_reset_ret | apply Hb ]).
Qed.

Lemma keeps_reset_net_body (c : NetCls) y : keeps_reset (Mem := Mem) (net_body c y).
Proof. rewrite net_body_chain. apply keeps_reset_run_chain. Qed.

(** C5: with [sum_output] set (and [once] unset) the result of a forward
    pass is the elementwise arithmetic mean of the per-timestep classifier
    outputs, in looped execution (the outputs collected by the loop) and
    in flattened execution (the [step] time slices of the classifier
    output). *)
Theorem sum_output_is_mean (c : NetCls) (self : Net R Mem) (x : tensor R)
  (outs : list (tensor R)) (s' : Net R Mem) :
  once self = false -> sum_output self = true -> 0 < step self ->
  pairwise_same_shape outs ->
  (layer_by_layer self = false ->
   looped_outputs (net_body c) (encoder self x) (seq 0 (step self))
     (reset_net self) = (Ok outs, s') ->
   exists m, net_forward c x self = (Ok (VTensor m), s') /\
             length outs = step self /\ is_mean_of outs m) /\
  (layer_by_layer self = true ->
   forall x0 y l,
     as_tensor (encoder self x) = Ok x0 ->
     net_body c x0 (reset_net self) = (Ok y, s') ->
     length (shape y) = 2 -> unstack y = Ok l ->
     time_slices (step self) l = Ok outs ->
     exists m, net_forward c x self = (Ok (VTensor m), s') /\
               length outs = step self /\ is_mean_of outs m).
Proof.
  intros Ho Hsum Hstep Hp. split.
  - intros Hl E.
    pose proof (looped_outputs_length _ _ _ _ _ _ E) as Hlen.
    rewrite length_seq in Hlen.
    destruct (py_mean_spec outs) as (m & Em & Hm); [|done|].
    { intros ->. simpl in Hlen. lia. }
    exists m. split; [|done].
    rewrite net_forward_impl_mode, forward_impl_with_eq by done.
    cbn zeta. rewrite Hl, E.
    pose proof (keeps_reset_fields
                  (looped_outputs (net_body c) (encoder self x)
                     (seq 0 (step self))) (reset_net self)
                  (keeps_reset_looped_outputs _ _ _ (keeps_reset_net_body c)))
      as [_ Hso].
    rewrite E in Hso. simpl in Hso. rewrite Hso, Hsum, Em. done.
  - intros Hl x0 y l Ex0 Ey Hrank El Esl.
    destruct (time_slices_length _ _ _ Esl) as [Hlen _].
    destruct (py_mean_spec outs) as (m & Em & Hm); [|done|].
    { intros ->. simpl in Hlen. lia. }
    exists m. split; [|done].
    rewrite net_forward_impl_mode, forward_impl_with_eq by done.
    cbn zeta. rewrite Hl, Ex0, Ey.
    pose proof (keeps_reset_fields (net_body c x0) (reset_net self)
                  (keeps_reset_net_body c x0)) as [Hst Hso].
    rewrite Ey in Hst, Hso. simpl in Hst, Hso. rewrite Hst, Hso, Hsum.
    unfold rearrange_tbc. rewrite decide_True by done.
    rewrite El. cbn [res_bind]. rewrite Esl. cbn [res_bind].
    rewrite mean0_py_mean, Em; [done|].
    intros ->. simpl in Hlen. lia.
Qed.


Lemma for_range_appends ts (P : nat -> tensor R -> Prop)
  (body : nat -> list (tensor R) -> M (Net R Mem) (list (tensor R))) :
  (forall t acc s r s', body t acc s = (Ok r, s') ->
     exists o, r = acc ++ [o] /\ P t o) ->
  forall acc s outs s',
    for_range ts body acc s = (Ok outs, s') ->
    exists news, outs = acc ++ news /\ Forall2 P ts news.
Proof.
  intros Hb. induction ts as [|t ts IH]; intros acc s outs s' E; simpl in *.
  - injection E as <- <-. exists []. by rewrite app_nil_r.
  - apply bind_inv_ok in E as (r & s1 & E1 & E2).
    apply Hb in E1 as (o & -> & Ho).
    apply IH in E2 as (news & -> & Hn).
    exists (o :: news). rewrite <- app_assoc. split; [done|]. by constructor.
Qed.

Lemma looped_outputs_per_step body inputs ts (s s' : Net R Mem) outs :
  looped_outputs body inputs ts s = (Ok outs, s') ->
  Forall2 (fun t o => exists xt s1 s2,
             getitem inputs t = Ok xt /\ body xt s1 = (Ok o, s2)) ts outs.
Proof.
  intros E.
  apply (for_range_appends ts
           (fun t o => exists xt s1 s2,
              getitem inputs t = Ok xt /\ body xt s1 = (Ok o, s2))) in E.
  - by destruct E as (news & -> & Hn).
  - intros t acc s0 r s1 E1.
    apply bind_inv_ok in E1 as (x0 & s2 & Ex & E1).
    apply bind_inv_ok in E1 as (y & s3 & Ey & E1).
    injection E1 as <- <-. exists y. split; [done|].
    exists x0, s2, s3. split; [|done].
    unfold lift in Ex. by injection Ex as -> ->.
Qed.

Lemma shape_time_slices T b cl (l : list (tensor R)) xs :
  0 < T -> 0 < b ->
  shape (Stack l) = [T * b; cl] ->
  time_slices T l = Ok xs ->
  shape (Stack xs) = [T; b; cl].
Proof.
  intros HT Hb Hs E. cbn [shape] in Hs.
  injection Hs as Hlen Hhd.
  unfold time_slices in E. rewrite Hlen in E.
  destruct (Nat.eqb_spec T 0) as [->|_]; [lia|].
  replace (T * b) with (b * T) in E by lia.
  rewrite Nat.Div0.mod_mul, Nat.div_mul in E by lia.
  cbn in E. injection E as <-.
  destruct T as [|T]; [lia|]. destruct b as [|b]; [lia|].
  destruct l as [|x l]; [simpl in Hlen; lia|].
  cbn. rewrite Hhd. do 2 f_equal; [|f_equal].
  - rewrite length_fmap, length_chunks. done.
  - rewrite length_take. simpl in Hlen. lia.
Qed.

(** C10: without [sum_output] (and without [once]) the flattened pass
    returns one tensor of shape (step, batch, classes), and the looped
    pass returns a Python list of [step] tensors, the classifier output
    of each timestep. *)
Theorem no_sum_output_result (c : NetCls) (self : Net R Mem) (x : tensor R) :
  once self = false -> sum_output self = false ->
  (layer_by_layer self = true ->
   forall x0 y s' b cl,
     as_tensor (encoder self x) = Ok x0 ->
     net_body c x0 (reset_net self) = (Ok y, s') ->
     shape y = [step self * b; cl] -> 0 < step self -> 0 < b ->
     exists z, net_forward c x self = (Ok (VTensor z), s') /\
               shape z = [step self; b; cl]) /\
  (layer_by_layer self = false ->
   forall outs s',
     looped_outputs (net_body c) (encoder self x) (seq 0 (step self))
       (reset_net self) = (Ok outs, s') ->
     net_forward c x self = (Ok (VList outs), s') /\
     length outs = step self /\
     Forall2 (fun t o => exists xt s1 s2,
                getitem (encoder self x) t = Ok xt /\
                net_body c xt s1 = (Ok o, s2))
       (seq 0 (step self)) outs).
Proof.
  intros Ho Hsum. split.
  - intros Hl x0 y s' b cl Ex0 Ey Hshape HT Hb.
    rewrite net_forward_impl_mode, forward_impl_with_eq by done.
    cbn zeta. rewrite Hl, Ex0, Ey.
    pose proof (keeps_reset_fields (net_body c x0) (reset_net self)
                  (keeps_reset_net_body c x0)) as [Hst Hso].
    rewrite Ey in Hst, Hso. simpl in Hst, Hso. rewrite Hst, Hso, Hsum.
    unfold rearrange_tbc. rewrite decide_True by by rewrite Hshape.
    destruct y as [r|l]; [done|]. cbn [unstack res_bind].
    destruct (time_slices (step self) l) as [xs|e] eqn:Esl.
    + cbn [res_bind]. exists (Stack xs). split; [done|].
      by eapply shape_time_slices.
    + exfalso. unfold time_slices in Esl. cbn [shape] in Hshape.
      injection Hshape as Hlen _. rewrite Hlen in Esl.
      destruct (Nat.eqb_spec (step self) 0) as [E0|_]; [lia|].
      replace (step self * b) with (b * step self) in Esl by lia.
      by rewrite Nat.Div0.mod_mul in Esl.
  - intros Hl outs s' E.
    pose proof (looped_outputs_length _ _ _ _ _ _ E) as Hlen.
    rewrite length_seq in Hlen.
    split; [|split; [done|by eapply looped_outputs_per_step]].
    rewrite net_forward_impl_mode, forward_impl_with_eq by done.
    cbn zeta. rewrite Hl, E.
    pose proof (keeps_reset_fields
                  (looped_outputs (net_body c) (encoder self x)
                     (seq 0 (step self))) (reset_net self)
                  (keeps_reset_looped_outputs _ _ _ (keeps_reset_net_body c)))
      as [_ Hso].
    rewrite E in Hso. simpl in Hso. by rewrite Hso, Hsum.
Qed.

End ForwardImpl.

(** ** Construction *)

Section Construction.
Context {R Mem : Type} `{NodeDynamics R Mem} `{Torch R} `{Framework R}.

(** *** Attributes that are never set *)

Definition absent (k : string) (s : Net R Mem) : Prop := _modules s !! k = None.

Definition keeps_absent (k : string) {A} (m : M (Net R Mem) A) : Prop :=
  forall s, absent k s -> absent k (m s).2.

Lemma keeps_absent_ret k {A} (a : A) : keeps_absent k (ret a).
Proof. by intros s Hs. Qed.

Lemma keeps_absent_raise k {A} e : keeps_absent k (raise (A := A) e).
Proof. by intros s Hs. Qed.

Lemma keeps_absent_lift k {A} (r : res A) : keeps_absent k (lift r).
Proof. by intros s Hs. Qed.

Lemma keeps_absent_get k : keeps_absent k get.
Proof. by intros s Hs. Qed.

Lemma keeps_absent_bind k {A B} (m : M (Net R Mem) A) (f : A -> M (Net R Mem) B) :
  keeps_absent k m -> (forall a, keeps_absent k (f a)) -> keeps_absent k (bind m f).
Proof.
  intros Hm Hf s Hs. unfold bind. specialize (Hm s Hs).
  destruct (m s) as [[a|e] s1]; simpl in *; [|done]. by apply Hf.
Qed.

Lemma keeps_absent_if k {A} (b : bool) (m1 m2 : M (Net R Mem) A) :
  keeps_absent k m1 -> keeps_absent k m2 -> keeps_absent k (if b then m1 else m2).
Proof. by destruct b. Qed.

Lemma keeps_absent_modify k (f : Net R Mem -> Net R Mem) :
  (forall s, _modules (f s) = _modules s) -> keeps_absent k (modify f).
Proof. intros Hf s Hs. unfold absent, modify. simpl. by rewrite Hf. Qed.

Lemma keeps_absent_setattr k name (m : module R Mem) :
  name <> k -> keeps_absent k (setattr name m).
Proof.
  intros Hne s Hs. unfold absent, setattr, modify, with_modules. simpl.
  by rewrite lookup_insert_ne.
Qed.

Lemma keeps_absent_new_node k : keeps_absent k (new_node (Mem := Mem)).
Proof.
  unfold new_node. apply keeps_absent_bind; [apply keeps_absent_get|].
  intros s. destruct (node s); [apply keeps_absent_ret|apply keeps_absent_raise].
Qed.

Lemma keeps_absent_make_layer k cls planes blocks stride dilate cnf nd :
  keeps_absent k (_make_layer (R := R) (Mem := Mem) cls planes blocks stride
                    dilate cnf nd).
Proof.
  unfold _make_layer.
  repeat (first [ apply keeps_absent_bind; [|intros ?]
                | apply keeps_absent_get | apply keeps_absent_lift
                | apply keeps_absent_ret | apply keeps_absent_if
                | by apply keeps_absent_modify ]).
Qed.

Lemma keeps_absent_call k name (x : tensor R) `{ScalarOps R} :
  keeps_absent k (call (Mem := Mem) name x).
Proof.
  intros s Hs. unfold call.
  destruct (_modules s !! name) as [m|] eqn:E; [|done].
  destruct (module_forward x m) as [r m']. unfold absent, with_modules. simpl.
  rewrite lookup_insert_ne; [done|]. intros ->. unfold absent in Hs. congruence.
Qed.

Ltac absent_steps :=
  repeat (first [ apply keeps_absent_new_node
                | apply keeps_absent_make_layer
                | by apply keeps_absent_setattr
                | by apply keeps_absent_modify
                | apply keeps_absent_get | apply keeps_absent_lift
                | apply keeps_absent_ret | apply keeps_absent_raise
                | apply keeps_absent_if
                | apply keeps_absent_bind; [|intros ?] ]).

Lemma SEWResNet19_init_absent k block layers cnf kw :
  k = "maxpool" \/ k = "layer4" \/ k = "fc" ->
  keeps_absent k (SEWResNet19.__init__ (R := R) (Mem := Mem) block layers cnf kw).
Proof.
  intros Hk. unfold SEWResNet19.__init__, BaseModule__init__, init_attributes,
    init_groups.
  cbv zeta. destruct Hk as [->|[->| ->]]; absent_steps.
Qed.

Lemma SEWResNetCifar_init_absent block layers cnf kw :
  keeps_absent "layer4"
    (SEWResNetCifar.__init__ (R := R) (Mem := Mem) block layers cnf kw).
Proof.
  unfold SEWResNetCifar.__init__, BaseModule__init__, init_attributes,
    init_groups.
  cbv zeta. absent_steps.
Qed.

Lemma construct_absent k (init : M (Net R Mem) unit) self :
  keeps_absent k init -> construct init = Ok self -> absent k self.
Proof.
  intros Hk. unfold construct. specialize (Hk blank).
  destruct (init blank) as [[u|e] s]; [|done]. intros [= <-]. by apply Hk.
Qed.


(** *** Steps that succeed *)

Definition succeeds {A} (P : Net R Mem -> Prop) (m : M (Net R Mem) A)
  (Q : Net R Mem -> Prop) : Prop :=
  forall s, P s -> exists a s', m s = (Ok a, s') /\ Q s'.

Lemma succeeds_bind {A B} P Q Q' (m : M (Net R Mem) A) (k : A -> M (Net R Mem) B) :
  succeeds P m Q -> (forall a, succeeds Q (k a) Q') -> succeeds P (bind m k) Q'.
Proof.
  intros Hm Hk s Hs. destruct (Hm s Hs) as (a & s1 & E & Hq).
  unfold bind. rewrite E. by apply Hk.
Qed.

Lemma succeeds_bind_get {B} P Q (k : Net R Mem -> M (Net R Mem) B) :
  (forall s0, P s0 -> succeeds P (k s0) Q) -> succeeds P (bind get k) Q.
Proof. intros Hk s Hs. unfold bind, get. by apply Hk. Qed.

Lemma succeeds_bind_lift {A B} P Q (r : res A) v (k : A -> M (Net R Mem) B) :
  r = Ok v -> succeeds P (k v) Q -> succeeds P (bind (lift r) k) Q.
Proof. intros -> Hk s Hs. unfold bind, lift. by apply Hk. Qed.

Lemma succeeds_modify P Q (f : Net R Mem -> Net R Mem) :
  (forall s, P s -> Q (f s)) -> succeeds P (modify f) Q.
Proof. intros Hf s Hs. exists tt, (f s). split; [done|]. by apply Hf. Qed.

(** What the layers of a class [cls] need from [self] to be built. *)
Definition buildable (cls : BlockCls) (s : Net R Mem) : Prop :=
  is_Some (node s) /\ dilation s <= 1 /\
  (cls = BottleneckCls \/ (groups s = 1 /\ base_width s = 64)).

Lemma succeeds_setattr cls name (m : module R Mem) :
  succeeds (buildable cls) (setattr name m) (buildable cls).
Proof. apply succeeds_modify. by intros s Hs. Qed.

Lemma succeeds_new_node cls :
  succeeds (buildable cls) new_node (buildable cls).
Proof.
  intros s Hs. unfold new_node, bind, get.
  destruct Hs as ([n Hn] & Hs). rewrite Hn. exists n, s. split; [done|].
  split; [by exists n|done].
Qed.

Lemma append_blocks_ok n (b : block R Mem) : forall l,
  exists l', append_blocks n (Ok b) l = Ok l'.
Proof. induction n as [|n IH]; intros l; simpl; eauto. Qed.

Lemma block_new_ok cls inplanes planes stride ds groups base_width dilation nl
  cnf (n : Node Mem) :
  dilation <= 1 -> (cls = BottleneckCls \/ (groups = 1 /\ base_width = 64)) ->
  exists b, block_new cls inplanes planes stride ds groups base_width dilation
              nl cnf (Some n) = Ok b.
Proof.
  intros Hd Hc. destruct cls; simpl.
  - destruct Hc as [|[-> ->]]; [done|].
    unfold BasicBlock.__init__. simpl.
    destruct (Nat.ltb_spec 1 dilation); [lia|]. eauto.
  - unfold Bottleneck.__init__. simpl. eauto.
Qed.

Lemma succeeds_make_layer cls planes blocks stride cnf nd :
  is_Some nd ->
  succeeds (buildable cls) (_make_layer cls planes blocks stride false cnf nd)
    (buildable cls).
Proof.
  intros [n ->] s (Hn & Hd & Hc). unfold _make_layer.
  cbn [bind get ret lift modify].
  match goal with |- context [block_new ?c ?i ?p ?st ?ds ?g ?w ?d ?nl ?cn (Some n)] =>
    destruct (block_new_ok c i p st ds g w d nl cn n Hd Hc) as (b & ->) end.
  cbn [bind get ret lift modify set_inplanes inplanes groups base_width dilation].
  match goal with |- context [append_blocks ?k (block_new ?c ?i ?p ?st ?ds ?g ?w ?d ?nl ?cn (Some n)) ?l] =>
    destruct (block_new_ok c i p st ds g w d nl cn n Hd Hc) as (b' & ->);
    destruct (append_blocks_ok k b' l) as (l' & ->) end.
  eexists _, _. split; [done|]. done.
Qed.

Ltac build_steps cls :=
  repeat (first
    [ apply succeeds_bind_get; intros ? ?
    | eapply succeeds_bind_lift; [reflexivity|]
    | apply (succeeds_bind (buildable cls) (buildable cls));
        [ first [ apply succeeds_setattr | apply succeeds_new_node
                | apply succeeds_make_layer;
                    match goal with Hb : buildable _ _ |- _ => apply Hb end ]
        | intros ? ]
    | apply succeeds_setattr ]).

Lemma net_init_succeeds (c : NetCls) cls layers cnf (kw : Kwargs R) :
  kw_replace_stride_with_dilation kw = None ->
  stacks c <= length layers ->
  (cls = BottleneckCls \/
   (default 1 (kw_groups kw) = 1 /\ default 64 (kw_width_per_group kw) = 64)) ->
  exists self : Net R Mem, construct (net_init c cls layers cnf kw) = Ok self.
Proof.
  intros Hr Hlen Hc.
  assert (succeeds (fun _ => True) (net_init c cls layers cnf kw) (buildable cls))
    as Hs.
  { destruct c; cbn [net_init stacks] in *;
      unfold SEWResNet.__init__, SEWResNet19.__init__, SEWResNetCifar.__init__;
      cbv zeta; rewrite Hr; cbn [length Nat.eqb negb];
      (apply (succeeds_bind _ (fun _ => True));
         [by apply succeeds_modify|intros _]);
      (apply (succeeds_bind _ (fun s => is_Some (node s) /\ dilation s <= 1));
         [apply succeeds_modify; intros s _; split; [by eexists|simpl; lia]
         |intros _]);
      (apply (succeeds_bind _ (buildable cls));
         [apply succeeds_modify; intros s [Hn Hd]; by split|intros _]);
      destruct layers as [|n0 [|n1 [|n2 layers]]]; try (simpl in Hlen; lia);
      try (destruct layers as [|n3 layers]; [simpl in Hlen; lia|]);
      build_steps cls. }
  destruct (Hs blank I) as (u & self & E & _).
  exists self. unfold construct. by rewrite E.
Qed.


Lemma net_init_bad_dilation_list (c : NetCls) cls layers cnf (kw : Kwargs R) l :
  kw_replace_stride_with_dilation kw = Some l -> length l <> 3 ->
  (net_init c cls layers cnf kw blank).1 = Raise ValueError /\
  _modules (net_init (Mem := Mem) c cls layers cnf kw blank).2 = ∅.
Proof.
  intros Hr Hl.
  destruct c; cbn [net_init];
    unfold SEWResNet.__init__, SEWResNet19.__init__, SEWResNetCifar.__init__;
    cbv zeta; rewrite Hr;
    destruct (Nat.eqb_spec (length l) 3) as [|_]; try done;
    cbn [negb]; unfold BaseModule__init__, init_attributes;
    cbn [bind modify raise fst snd _modules blank]; done.
Qed.

Lemma net_init_default_dilation_list (c : NetCls) cls layers cnf (kw : Kwargs R) :
  kw_replace_stride_with_dilation kw = None ->
  net_init (Mem := Mem) c cls layers cnf kw
  = net_init c cls layers cnf
      (set_replace_stride_with_dilation (Some [false; false; false]) kw).
Proof.
  intros Hr. destruct kw. cbn in Hr. subst.
  destruct c; reflexivity.
Qed.

(** C8: a [replace_stride_with_dilation] that does not have exactly
    three entries makes every constructor raise ValueError while the
    table of child modules is still empty; [None] stands for
    [[False, False, False]], and with it a well-formed configuration is
    built to the end. *)
Theorem replace_stride_with_dilation_checked (c : NetCls) (cls : BlockCls)
  (layers : list nat) (cnf : option string) (kw : Kwargs R) :
  (forall l, kw_replace_stride_with_dilation kw = Some l -> length l <> 3 ->
     construct (Mem := Mem) (net_init c cls layers cnf kw) = Raise ValueError /\
     (net_init (Mem := Mem) c cls layers cnf kw blank).1 = Raise ValueError /\
     _modules (net_init (Mem := Mem) c cls layers cnf kw blank).2 = ∅) /\
  (kw_replace_stride_with_dilation kw = None ->
     net_init (Mem := Mem) c cls layers cnf kw
     = net_init c cls layers cnf
         (set_replace_stride_with_dilation (Some [false; false; false]) kw) /\
     (stacks c <= length layers ->
      (cls = BottleneckCls \/
       (default 1 (kw_groups kw) = 1 /\
        default 64 (kw_width_per_group kw) = 64)) ->
      exists self : Net R Mem, construct (net_init c cls layers cnf kw) = Ok self)).
Proof.
  split.
  - intros l Hr Hl.
    destruct (net_init_bad_dilation_list c cls layers cnf kw l Hr Hl) as [E1 E2].
    split; [|done]. unfold construct.
    destruct (net_init c cls layers cnf kw blank) as [r s]. simpl in E1.
    by rewrite E1.
  - intros Hr. split; [by apply net_init_default_dilation_list|].
    intros Hlen Hc. by apply net_init_succeeds.
Qed.

End Construction.

Section FactoryFacts.
Context {R Mem : Type} `{ScalarOps R} `{NodeDynamics R Mem} `{Torch R}
  `{Framework R} `{Checkpoints R Mem}.

Lemma sew_resnext34_32x4d_raises pretrained progress cnf (kw : Kwargs R) :
  sew_resnext34_32x4d (Mem := Mem) pretrained progress cnf kw = Raise ValueError.
Proof.
  unfold sew_resnext34_32x4d, _sew_resnet. cbv zeta.
  assert (construct (Mem := Mem)
            (SEWResNet.__init__ BasicBlockCls [3; 4; 6; 3] cnf
               (set_groups_width (Some 32) (Some 4) kw)) = Raise ValueError) as ->;
    [|done].
  destruct kw as [ds on so lbl nc st et g w [l|] nl]; cbn [set_groups_width];
    [destruct l as [|b0 [|b1 [|b2 [|b3 l]]]]|]; reflexivity.
Qed.

Lemma sew_resnext101_32x8d_raises pretrained progress cnf node (kw : Kwargs R) :
  sew_resnext101_32x8d (Mem := Mem) pretrained progress cnf node kw
  = Raise TypeError.
Proof. reflexivity. Qed.

(** C9, as the code behaves: two of the published factories never return
    a model.  [sew_resnext34_32x4d] asks for grouped basic blocks, which
    [BasicBlock.__init__] refuses with ValueError; [sew_resnext101_32x8d]
    passes a seventh positional argument to [_sew_resnet], a TypeError. *)
Theorem factories_that_never_construct (pretrained progress : bool)
  (cnf : option string) (node : PyObject) (kw : Kwargs R) :
  sew_resnext34_32x4d (Mem := Mem) pretrained progress cnf kw = Raise ValueError /\
  sew_resnext101_32x8d (Mem := Mem) pretrained progress cnf node kw
  = Raise TypeError.
Proof.
  split; [apply sew_resnext34_32x4d_raises | apply sew_resnext101_32x8d_raises].
Qed.

End FactoryFacts.

(** ** Single-pass mode *)

Section Once.
Context {R Mem : Type} `{ScalarOps R} `{NodeDynamics R Mem} `{Torch R}
  `{Framework R} `{Checkpoints R Mem}.

(** The factories other than the two of [factories_that_never_construct]
    build their model from keyword arguments that leave the structural
    options alone. *)
Lemma other_factories_construct (cnf : option string) (kw : Kwargs R) :
  kw_replace_stride_with_dilation kw = None ->
  kw_groups kw = None -> kw_width_per_group kw = None ->
  Forall (fun f : bool -> bool -> option string -> Kwargs R -> res (Net R Mem) =>
            is_ok (f false true cnf kw) = true)
    [sew_resnet18; sew_resnet19; sew_resnet20; sew_resnet32; sew_resnet34;
     sew_resnet44; sew_resnet50; sew_resnet56; sew_resnet101; sew_resnet152;
     sew_resnext50_32x4d; sew_wide_resnet50_2; sew_wide_resnet101_2].
Proof.
  intros Hr Hg Hw.
  assert (forall c cls layers kw',
            kw_replace_stride_with_dilation kw' = None ->
            stacks c <= length layers ->
            (cls = BottleneckCls \/
             (default 1 (kw_groups kw') = 1 /\
              default 64 (kw_width_per_group kw') = 64)) ->
            is_ok (construct (Mem := Mem) (net_init c cls layers cnf kw')) = true)
    as Hok.
  { intros c cls layers kw' Hr' Hlen Hc.
    by destruct (net_init_succeeds c cls layers cnf kw' Hr' Hlen Hc) as (s & ->). }
  assert (forall arch cls layers kw',
            kw_replace_stride_with_dilation kw' = None ->
            4 <= length layers ->
            (cls = BottleneckCls \/
             (default 1 (kw_groups kw') = 1 /\
              default 64 (kw_width_per_group kw') = 64)) ->
            is_ok (_sew_resnet (Mem := Mem) arch cls layers false true cnf [] kw')
            = true) as Hsew.
  { intros arch cls layers kw' Hr' Hlen Hc. unfold _sew_resnet.
    destruct (net_init_succeeds SEWResNetCls cls layers cnf kw' Hr' Hlen Hc)
      as (s & E).
    cbn [net_init] in E. by rewrite E. }
  assert (forall layers,
            3 <= length layers ->
            is_ok (construct (Mem := Mem)
                     (SEWResNetCifar.__init__ BasicBlockCls layers cnf kw)) = true)
    as Hcifar.
  { intros layers Hlen.
    apply (Hok SEWResNetCifarCls BasicBlockCls layers kw Hr Hlen).
    right. by rewrite Hg, Hw. }
  assert (forall g w, kw_replace_stride_with_dilation (set_groups_width g w kw) = None)
    as Hr' by (intros g w; exact Hr).
  apply Forall_cons_2.
  { unfold sew_resnet18. apply Hsew; [done|simpl; lia|]. right. by rewrite Hg, Hw. }
  apply Forall_cons_2.
  { unfold sew_resnet19.
    apply (Hok SEWResNet19Cls BasicBlockCls [3; 3; 2] kw Hr); [simpl; lia|].
    right. by rewrite Hg, Hw. }
  apply Forall_cons_2; [unfold sew_resnet20; apply Hcifar; simpl; lia|].
  apply Forall_cons_2; [unfold sew_resnet32; apply Hcifar; simpl; lia|].
  apply Forall_cons_2.
  { unfold sew_resnet34. apply Hsew; [done|simpl; lia|]. right. by rewrite Hg, Hw. }
  apply Forall_cons_2; [unfold sew_resnet44; apply Hcifar; simpl; lia|].
  apply Forall_cons_2.
  { unfold sew_resnet50. apply Hsew; [done|simpl; lia|by left]. }
  apply Forall_cons_2; [unfold sew_resnet56; apply Hcifar; simpl; lia|].
  apply Forall_cons_2.
  { unfold sew_resnet101. apply Hsew; [done|simpl; lia|by left]. }
  apply Forall_cons_2.
  { unfold sew_resnet152. apply Hsew; [done|simpl; lia|by left]. }
  apply Forall_cons_2.
  { unfold sew_resnext50_32x4d. cbv zeta. apply Hsew; [apply Hr'|simpl; lia|by left]. }
  apply Forall_cons_2.
  { unfold sew_wide_resnet50_2. cbv zeta. apply Hsew; [apply Hr'|simpl; lia|by left]. }
  apply Forall_cons_2.
  { unfold sew_wide_resnet101_2. cbv zeta. apply Hsew; [apply Hr'|simpl; lia|by left]. }
  apply Forall_nil_2.
Qed.

Lemma run_chain_absent (sts : list stage) : forall (x : tensor R) (s : Net R Mem) k,
  k ∈ stage_names sts -> absent k s -> is_ok (run_chain sts x s).1 = false.
Proof.
  induction sts as [|st sts IH]; intros x s k Hk Hs.
  - by apply elem_of_nil in Hk.
  - cbn [run_chain]. unfold bind.
    destruct st as [name|].
    + cbn [run_stage].
      pose proof (keeps_absent_call k name x s Hs) as Hs'.
      destruct (decide (name = k)) as [->|Hne].
      * unfold call. unfold absent in Hs. by rewrite Hs.
      * destruct (call name x s) as [[y|e] s1]; [|done].
        apply (IH y s1 k); [|done].
        cbn [stage_names omap] in Hk. apply elem_of_cons in Hk as [->|Hk]; done.
    + cbn [run_stage lift]. destruct (flatten1 x) as [y|e]; [|done].
      by apply (IH y s k).
Qed.

Lemma is_ok_res_bind {A B} (r : res A) (k : A -> res B) :
  is_ok r = false -> is_ok (res_bind r k) = false.
Proof. by destruct r. Qed.

(** C4, as the code behaves: [SEWResNet19] and [SEWResNetCifar] copy the
    single-pass chain of [SEWResNet], which calls layers their
    constructors never create ([maxpool], [layer4], [fc]); with [once] set
    a forward call on a constructed network of either class raises and
    returns nothing. *)
Theorem forward_once_missing_layers (cls : BlockCls) (layers : list nat)
  (cnf : option string) (kw : Kwargs R) (self : Net R Mem) (x : tensor R) :
  once self = true ->
  (construct (SEWResNet19.__init__ cls layers cnf kw) = Ok self ->
   absent "maxpool" self /\
   is_ok (net_forward SEWResNet19Cls x self).1 = false) /\
  (construct (SEWResNetCifar.__init__ cls layers cnf kw) = Ok self ->
   absent "layer4" self /\
   is_ok (net_forward SEWResNetCifarCls x self).1 = false).
Proof.
  intros Ho. split; intros Hc.
  - assert (absent "maxpool" self) as Ha.
    { eapply construct_absent; [|exact Hc].
      apply SEWResNet19_init_absent. by left. }
    split; [done|].
    rewrite net_forward_once_mode, net_forward_once_chain by done.
    pose proof (run_chain_absent once_stages x self "maxpool") as Hr.
    destruct (run_chain once_stages x self) as [r s]. simpl in *.
    apply is_ok_res_bind, Hr; [|done]. cbn. set_solver.
  - assert (absent "layer4" self) as Ha.
    { eapply construct_absent; [|exact Hc]. apply SEWResNetCifar_init_absent. }
    split; [done|].
    rewrite net_forward_once_mode, net_forward_once_chain by done.
    pose proof (run_chain_absent once_stages x self "layer4") as Hr.
    destruct (run_chain once_stages x self) as [r s]. simpl in *.
    apply is_ok_res_bind, Hr; [|done]. cbn. set_solver.
Qed.

(** For [SEWResNet] itself the single pass runs the chain once on the raw
    input and reads nothing of [self] but the child modules. *)
Lemma run_chain_reads_modules (sts : list stage) : forall (x : tensor R)
  (s s' : Net R Mem),
  _modules s = _modules s' ->
  (run_chain sts x s).1 = (run_chain sts x s').1 /\
  _modules (run_chain sts x s).2 = _modules (run_chain sts x s').2.
Proof.
  induction sts as [|st sts IH]; intros x s s' E; [done|].
  cbn [run_chain]. unfold bind. destruct st as [name|]; cbn [run_stage].
  - unfold call. rewrite <- E.
    destruct (_modules s !! name) as [m|]; [|done].
    destruct (module_forward x m) as [[y|e] m'].
    + apply IH. unfold with_modules. simpl. by rewrite E.
    + unfold with_modules. simpl. by rewrite E.
  - unfold lift. destruct (flatten1 x) as [y|e]; [|done]. by apply IH.
Qed.

Lemma SEWResNet_forward_once (self self' : Net R Mem) (x : tensor R) :
  once self = true -> once self' = true -> _modules self = _modules self' ->
  (SEWResNet.forward x self).1 = (SEWResNet.forward x self').1 /\
  (SEWResNet.forward x self).1
  = res_bind (run_chain once_stages x self).1 (fun y => Ok (VTensor y)).
Proof.
  intros Ho Ho' E.
  pose proof (net_forward_once_mode SEWResNetCls x self Ho) as E1.
  pose proof (net_forward_once_mode SEWResNetCls x self' Ho') as E2.
  cbn [net_forward] in E1, E2. rewrite E1, E2.
  rewrite !net_forward_once_chain.
  destruct (run_chain_reads_modules once_stages x self self' E) as [Hr _].
  destruct (run_chain once_stages x self) as [r s].
  destruct (run_chain once_stages x self') as [r' s0]. simpl in *. by subst.
Qed.

End Once.

(** ** The theorems on the concrete instance *)

Section NetWitnesses.
#[local] Existing Instances Demo.Z_scalar Demo.if_node Demo.torch_per_sample
  Demo.framework Demo.checkpoints.
#[local] Open Scope Z_scope.

Lemma forward_twice_same_output_witness :
  (net_forward SEWResNetCls Demo.input
     (net_forward SEWResNetCls Demo.input (Demo.resnet18 false false true 2)).2).1
  = (net_forward SEWResNetCls Demo.input (Demo.resnet18 false false true 2)).1.
Proof.
  apply (proj1 (forward_twice_same_output SEWResNetCls
                  (Demo.resnet18 false false true 2) Demo.input eq_refl)).
Defined.

Lemma sum_output_is_mean_witness :
  exists m,
    (net_forward SEWResNetCls Demo.input (Demo.resnet18 false false true 2)).1
    = Ok (VTensor m) /\
    is_mean_of
      [Stack [Stack [Scalar 9; Scalar 0]; Stack [Scalar 0; Scalar 9]];
       Stack [Stack [Scalar 9; Scalar 0]; Stack [Scalar 0; Scalar 9]]] m /\
    tget [0; 0]%nat m = Some 9.
Proof.
  pose (self := Demo.resnet18 false false true 2).
  pose (outs := [Stack [Stack [Scalar 9; Scalar 0]; Stack [Scalar 0; Scalar 9]];
                 Stack [Stack [Scalar 9; Scalar 0]; Stack [Scalar 0; Scalar 9]]]).
  pose (s' := (looped_outputs (net_body SEWResNetCls) (encoder self Demo.input)
                 (seq 0 (step self)) (reset_net self)).2).
  assert (0 < step self)%nat as Hstep by (vm_compute; lia).
  assert (pairwise_same_shape outs) as Hp
    by (apply pairwise_same_shape_check; vm_compute; reflexivity).
  assert (looped_outputs (net_body SEWResNetCls) (encoder self Demo.input)
            (seq 0 (step self)) (reset_net self) = (Ok outs, s')) as E
    by (vm_compute; reflexivity).
  destruct (sum_output_is_mean SEWResNetCls self Demo.input outs s'
              eq_refl eq_refl Hstep Hp) as [Hloop _].
  destruct (Hloop eq_refl E) as (m & Em & _ & Hm).
  exists m. split; [exact (f_equal fst Em)|]. split; [exact Hm|].
  destruct Hm as [_ Hm].
  apply (Hm [0; 0]%nat [9; 9]). repeat constructor.
Defined.

Lemma no_sum_output_result_witness :
  (exists z,
     (net_forward SEWResNetCls Demo.input (Demo.resnet18 true false false 2)).1
     = Ok (VTensor z) /\ shape z = [2; 2; 2]%nat) /\
  (exists outs,
     (net_forward SEWResNetCls Demo.input (Demo.resnet18 false false false 2)).1
     = Ok (VList outs) /\ length outs = 2%nat).
Proof.
  split.
  - pose (self := Demo.resnet18 true false false 2).
    destruct (no_sum_output_result SEWResNetCls self Demo.input eq_refl eq_refl)
      as [Hflat _].
    pose (x0 := Stack [Stack [Scalar 1; Scalar 0]; Stack [Scalar 0; Scalar 3];
                       Stack [Scalar 1; Scalar 0]; Stack [Scalar 0; Scalar 3]]).
    pose (y := (net_body SEWResNetCls x0 (reset_net self)).1).
    pose (s' := (net_body SEWResNetCls x0 (reset_net self)).2).
    assert (net_body SEWResNetCls x0 (reset_net self)
            = (Ok (Stack [Stack [Scalar 9; Scalar 0]; Stack [Scalar 0; Scalar 9];
                          Stack [Scalar 9; Scalar 0]; Stack [Scalar 0; Scalar 9]]),
               s')) as Ey by (vm_compute; reflexivity).
    destruct (Hflat eq_refl x0 _ s' 2%nat 2%nat eq_refl Ey eq_refl
                ltac:(vm_compute; lia) ltac:(lia)) as (z & Ez & Hz).
    exists z. split; [exact (f_equal fst Ez)|exact Hz].
  - pose (self := Demo.resnet18 false false false 2).
    destruct (no_sum_output_result SEWResNetCls self Demo.input eq_refl eq_refl)
      as [_ Hloop].
    pose (r := looped_outputs (net_body SEWResNetCls) (encoder self Demo.input)
                 (seq 0 (step self)) (reset_net self)).
    assert (r = (Ok [Stack [Stack [Scalar 9; Scalar 0]; Stack [Scalar 0; Scalar 9]];
                     Stack [Stack [Scalar 9; Scalar 0]; Stack [Scalar 0; Scalar 9]]],
                 r.2)) as E by (vm_compute; reflexivity).
    destruct (Hloop eq_refl _ _ E) as (Ef & Hlen & _).
    eexists. split; [exact (f_equal fst Ef)|]. vm_compute. reflexivity.
Defined.

Lemma replace_stride_with_dilation_checked_witness :
  construct (Mem := option (tensor Z))
    (net_init SEWResNetCls BasicBlockCls [2; 2; 2; 2]%nat (Some "ADD")
       (set_replace_stride_with_dilation (Some [true; false])
          (Demo.kwargs false false true 2))) = Raise ValueError /\
  exists self : Net Z (option (tensor Z)),
    construct (net_init SEWResNetCls BasicBlockCls [2; 2; 2; 2]%nat (Some "ADD")
                 (Demo.kwargs false false true 2)) = Ok self.
Proof.
  split.
  - destruct (replace_stride_with_dilation_checked (Mem := option (tensor Z))
                SEWResNetCls BasicBlockCls [2; 2; 2; 2]%nat (Some "ADD")
                (set_replace_stride_with_dilation (Some [true; false])
                   (Demo.kwargs false false true 2))) as [Hbad _].
    apply (Hbad [true; false] eq_refl). simpl. lia.
  - destruct (replace_stride_with_dilation_checked (Mem := option (tensor Z))
                SEWResNetCls BasicBlockCls [2; 2; 2; 2]%nat (Some "ADD")
                (Demo.kwargs false false true 2)) as [_ Hnone].
    destruct (Hnone eq_refl) as [_ Hok].
    apply Hok; [simpl; lia|]. right. by split.
Defined.

Lemma forward_once_missing_layers_witness :
  is_ok (net_forward SEWResNet19Cls Demo.input (Demo.resnet19 false true true 2)).1
  = false /\
  is_ok (net_forward SEWResNetCifarCls Demo.input
           (Demo.resnet20 false true true 2)).1 = false.
Proof.
  split.
  - destruct (forward_once_missing_layers BasicBlockCls [3; 3; 2]%nat (Some "ADD")
                (Demo.kwargs false true true 2)
                (Demo.resnet19 false true true 2) Demo.input eq_refl) as [H19 _].
    apply H19. vm_compute. reflexivity.
  - destruct (forward_once_missing_layers BasicBlockCls [3; 3; 3]%nat (Some "ADD")
                (Demo.kwargs false true true 2)
                (Demo.resnet20 false true true 2) Demo.input eq_refl) as [_ H20].
    apply H20. vm_compute. reflexivity.
Defined.

(** The exceptions a single pass ends in on the two classes. *)
Example SEWResNet19_once_raises :
  (net_forward SEWResNet19Cls Demo.input (Demo.resnet19 false true true 2)).1
  = Raise (AttributeError "maxpool").
Proof. vm_compute. reflexivity. Qed.

Example SEWResNetCifar_once_raises :
  (net_forward SEWResNetCifarCls Demo.input (Demo.resnet20 false true true 2)).1
  = Raise (AttributeError "layer4").
Proof. vm_compute. reflexivity. Qed.

End NetWitnesses.

(** ** Looped against flattened execution *)

Section Slices.
Context {R : Type} `{ScalarOps R}.

Lemma chunks_concat {A} (b : nat) (ls : list (list A)) :
  Forall (fun l => length l = b) ls ->
  chunks (length ls) b (concat ls) = ls.
Proof.
  induction 1 as [|l ls Hl _ IH]; [done|]. simpl. subst b.
  rewrite take_app_length, drop_app_length. by rewrite IH.
Qed.

Lemma length_concat_uniform {A} (b : nat) (ls : list (list A)) :
  Forall (fun l => length l = b) ls -> length (concat ls) = length ls * b.
Proof.
  induction 1 as [|l ls Hl _ IH]; [done|]. simpl.
  rewrite length_app. lia.
Qed.

Lemma time_slices_concat (b : nat) (ls : list (list (tensor R))) :
  0 < length ls -> Forall (fun l => length l = b) ls ->
  time_slices (length ls) (concat ls) = Ok (Stack <$> ls).
Proof.
  intros HT Hall. unfold time_slices.
  rewrite (length_concat_uniform b) by done.
  destruct (Nat.eqb_spec (length ls) 0) as [|_]; [lia|].
  replace (length ls * b) with (b * length ls) by lia.
  rewrite Nat.Div0.mod_mul, Nat.div_mul by lia. cbn.
  by rewrite chunks_concat.
Qed.

Lemma res_mapM_unstack (ls : list (list (tensor R))) :
  res_mapM unstack (Stack <$> ls) = Ok ls.
Proof.
  induction ls as [|l ls IH]; [done|]. rewrite fmap_cons.
  cbn [res_mapM unstack res_bind]. by rewrite IH.
Qed.

Lemma cat0_stacks (ls : list (list (tensor R))) :
  cat0 (Stack <$> ls) = Ok (Stack (concat ls)).
Proof. unfold cat0. by rewrite res_mapM_unstack. Qed.

Lemma per_sample_concat (f h : tensor R -> tensor R)
  (ls : list (list (tensor R))) :
  (forall l, f (Stack l) = Stack (h <$> l)) ->
  f (Stack (concat ls)) = Stack (concat (fmap (M := list) h <$> ls)) /\
  f <$> (Stack <$> ls) = Stack <$> (fmap (M := list) h <$> ls).
Proof.
  intros Hf. split.
  - rewrite Hf. f_equal. induction ls as [|l ls IH]; [done|].
    rewrite fmap_cons. cbn [concat]. rewrite <- IH. apply fmap_app.
  - induction ls as [|l ls IH]; [done|]. rewrite !fmap_cons.
    by rewrite Hf, IH.
Qed.

Lemma Forall_length_fmap {A B} (h : A -> B) b (ls : list (list A)) :
  Forall (fun l => length l = b) ls ->
  Forall (fun l => length l = b) (fmap (M := list) h <$> ls).
Proof.
  intros Hall. apply Forall_fmap. eapply Forall_impl; [exact Hall|].
  intros l Hl. simpl. by rewrite length_fmap.
Qed.

End Slices.

Section NodeTimewise.
Context {R Mem : Type} `{ScalarOps R} `{NodeDynamics R Mem}.

Lemma Node_forward_looped (x : tensor R) (n : Node Mem) :
  n_layer_by_layer n = false ->
  Node_forward x n = (Ok (n_fire (mem n) x).1, set_mem (n_fire (mem n) x).2 n).
Proof.
  intros Hn. unfold Node_forward. rewrite Hn. by destruct (n_fire _ _).
Qed.

Lemma unroll_Node_looped (xs : list (tensor R)) : forall n : Node Mem,
  n_layer_by_layer n = false ->
  unroll Node_forward xs n
  = (Ok (n_unroll (mem n) xs).1, set_mem (n_unroll (mem n) xs).2 n).
Proof.
  induction xs as [|x xs IH]; intros n Hn.
  - by destruct n.
  - cbn [unroll n_unroll]. unfold bind. rewrite Node_forward_looped by done.
    rewrite IH by done. cbn [mem set_mem].
    destruct (n_fire (mem n) x) as [y s1]. cbn [fst snd].
    by destruct (n_unroll s1 xs) as [ys s2].
Qed.

Lemma n_unroll_batches (Hk : node_keeps_batch) b (ls : list (list (tensor R))) :
  forall s : Mem,
  Forall (fun l => length l = b) ls ->
  exists os, (n_unroll s (Stack <$> ls)).1 = Stack <$> os /\
             length os = length ls /\
             Forall (fun l => length l = b) os.
Proof.
  induction ls as [|l ls IH]; intros s Hall.
  - by exists [].
  - inversion Hall as [|? ? Hl Hls]; subst. rewrite fmap_cons. cbn [n_unroll].
    destruct (Hk s l) as (l' & El & Hl').
    destruct (n_fire s (Stack l)) as [y s1]. cbn [fst] in El. subst y.
    destruct (IH s1 Hls) as (os & Eos & Hlen & Hos).
    destruct (n_unroll s1 (Stack <$> ls)) as [ys s2]. cbn [fst] in *. subst ys.
    exists (l' :: os). split; [by rewrite fmap_cons|].
    split; [simpl; lia|]. by constructor.
Qed.

(** The node in layer-by-layer mode on the flattened tensor. *)
Lemma Node_forward_flat (Hk : node_keeps_batch) T b (ls : list (list (tensor R)))
  (n : Node Mem) :
  length ls = T -> 0 < T -> Forall (fun l => length l = b) ls ->
  exists os,
    (n_unroll (mem n) (Stack <$> ls)).1 = Stack <$> os /\
    length os = T /\
    Forall (fun l => length l = b) os /\
    Node_forward (Stack (concat ls)) (node_mode true T n)
    = (Ok (Stack (concat os)),
       node_mode true T (set_mem (n_unroll (mem n) (Stack <$> ls)).2 n)).
Proof.
  intros HT Hpos Hall.
  destruct (n_unroll_batches Hk b ls (mem n) Hall) as (os & Eos & Hlen & Hos).
  exists os. split; [done|]. split; [lia|]. split; [done|].
  unfold Node_forward. cbn [node_mode n_layer_by_layer n_step mem unstack res_bind].
  rewrite <- HT at 1. rewrite (time_slices_concat b) by (done || lia).
  destruct (n_unroll (mem n) (Stack <$> ls)) as [ys s2]. cbn [fst snd] in *.
  subst ys. by rewrite cat0_stacks.
Qed.

End NodeTimewise.

(** *** Merging two paths slice by slice and at once *)

Section Merge.
Context {R : Type} `{ScalarOps R}.

(** The merges of a looped pass: one per time slice. *)
Fixpoint zipM (f : tensor R -> tensor R -> res (tensor R))
  (xs ys : list (tensor R)) : res (list (tensor R)) :=
  match xs, ys with
  | [], [] => Ok []
  | x :: xs', y :: ys' =>
      res_bind (f x y) (fun z =>
      res_bind (zipM f xs' ys') (fun zs => Ok (z :: zs)))
  | _, _ => Raise RuntimeError
  end.

Lemma tzip_list_length f (l1 : list (tensor R)) : forall l2 l,
  tzip_list f l1 l2 = Ok l -> length l = length l1.
Proof.
  induction l1 as [|x l1 IH]; intros [|y l2] l E; simpl in E; try done.
  - by injection E as <-.
  - destruct (tzip f x y) as [z|e]; [|done]. simpl in E.
    destruct (tzip_list f l1 l2) as [zs|e] eqn:Ez; [|done]. simpl in E.
    injection E as <-. simpl. f_equal. by eapply IH.
Qed.

Lemma tzip_list_app f (l1 l1' : list (tensor R)) : forall l2 l2' l l',
  tzip_list f l1 l2 = Ok l -> tzip_list f l1' l2' = Ok l' ->
  tzip_list f (l1 ++ l1') (l2 ++ l2') = Ok (l ++ l').
Proof.
  induction l1 as [|x l1 IH]; intros [|y l2] l2' l l' E E'; simpl in E; try done.
  - by injection E as <-.
  - destruct (tzip f x y) as [z|e] eqn:Ez; [|done]. simpl in E.
    destruct (tzip_list f l1 l2) as [zs|e] eqn:Ezs; [|done]. simpl in E.
    injection E as <-. simpl. rewrite Ez. simpl.
    by rewrite (IH l2 l2' zs l' Ezs E').
Qed.

Lemma tzip_concat f b (la : list (list (tensor R))) : forall lb outs,
  Forall (fun l => length l = b) la ->
  zipM (tzip f) (Stack <$> la) (Stack <$> lb) = Ok outs ->
  exists os, outs = Stack <$> os /\ Forall (fun l => length l = b) os /\
             tzip f (Stack (concat la)) (Stack (concat lb)) = Ok (Stack (concat os)).
Proof.
  induction la as [|a la IH]; intros [|c lb] outs Hall E;
    rewrite ?fmap_cons in E; cbn [zipM fmap list_fmap] in E; try done.
  - injection E as <-. by exists [].
  - inversion Hall as [|? ? Ha Hla]; subst.
    rewrite tzip_Stack in E.
    destruct (tzip_list f a c) as [z|e] eqn:Ez; [|done]. cbn [res_bind] in E.
    destruct (zipM (tzip f) (Stack <$> la) (Stack <$> lb)) as [zs|e] eqn:Ezs;
      [|done].
    cbn [res_bind] in E. injection E as <-.
    destruct (IH lb zs Hla Ezs) as (os & -> & Hos & Eos).
    exists (z :: os). split; [by rewrite fmap_cons|]. split.
    + constructor; [|done]. by eapply tzip_list_length.
    + rewrite tzip_Stack in Eos |- *. cbn [concat].
      destruct (tzip_list f (concat la) (concat lb)) as [zz|e] eqn:Ezz; [|done].
      cbn [res_bind] in Eos. injection Eos as ->.
      by rewrite (tzip_list_app f a (concat la) c (concat lb) z _ Ez Ezz).
Qed.

Lemma tmap_concat g (ls : list (list (tensor R))) :
  tmap g (Stack (concat ls)) = Stack (concat (fmap (M := list) (tmap g) <$> ls)) /\
  tmap g <$> (Stack <$> ls) = Stack <$> (fmap (M := list) (tmap g) <$> ls).
Proof. by apply per_sample_concat. Qed.

Lemma zipM_ext (f g : tensor R -> tensor R -> res (tensor R)) xs : forall ys,
  (forall x y, f x y = g x y) -> zipM f xs ys = zipM g xs ys.
Proof.
  intros ys Hfg. revert ys. induction xs as [|x xs IH]; intros [|y ys]; simpl;
    try done. by rewrite Hfg, IH.
Qed.

Lemma zipM_fmap_r (f : tensor R -> tensor R -> res (tensor R)) g xs : forall ys,
  zipM (fun x y => f x (g y)) xs ys = zipM f xs (g <$> ys).
Proof.
  induction xs as [|x xs IH]; intros [|y ys]; try done.
  rewrite fmap_cons. cbn [zipM]. by rewrite IH.
Qed.

(** The combination function on the flattened operands is the
    combination of the slices, concatenated. *)
Lemma sew_function_concat cnf b (la lb : list (list (tensor R))) outs :
  la <> [] -> Forall (fun l => length l = b) la ->
  zipM (fun x y => sew_function x y cnf) (Stack <$> la) (Stack <$> lb) = Ok outs ->
  exists os, outs = Stack <$> os /\ Forall (fun l => length l = b) os /\
             sew_function (Stack (concat la)) (Stack (concat lb)) cnf
             = Ok (Stack (concat os)).
Proof.
  intros Hne Hall E. unfold sew_function in *.
  destruct (decide (cnf = Some "ADD")); [by eapply tzip_concat|].
  destruct (decide (cnf = Some "AND")); [by eapply tzip_concat|].
  destruct (decide (cnf = Some "IAND")).
  - unfold tmul in *. rewrite (zipM_fmap_r (tzip rmul) (tmap (rsub rone))) in E.
    destruct (tmap_concat (rsub rone) lb) as [E1 E2]. rewrite E1. rewrite E2 in E.
    by eapply tzip_concat.
  - destruct la as [|a la]; [done|]. by destruct lb.
Qed.

Lemma zipM_flip (f : tensor R -> tensor R -> res (tensor R)) xs : forall ys,
  zipM (fun x y => f y x) xs ys = zipM f ys xs.
Proof.
  induction xs as [|x xs IH]; intros [|y ys]; try done.
  cbn [zipM]. by rewrite IH.
Qed.

Lemma zipM_length (f : tensor R -> tensor R -> res (tensor R)) xs : forall ys outs,
  zipM f xs ys = Ok outs -> length xs = length ys.
Proof.
  induction xs as [|x xs IH]; intros [|y ys] outs E; simpl in E; try done.
  destruct (f x y); [|done]. simpl in E.
  destruct (zipM f xs ys) eqn:Ez; [|done]. simpl. f_equal. by eapply IH.
Qed.

End Merge.

(** *** A residual block over the time slices *)

Section BlockTimewise.
Context {R Mem : Type} `{ScalarOps R} `{NodeDynamics R Mem} `{Torch R}.

Lemma n_unroll_cons (s : Mem) (x : tensor R) xs :
  n_unroll s (x :: xs)
  = ((n_fire s x).1 :: (n_unroll (n_fire s x).2 xs).1,
     (n_unroll (n_fire s x).2 xs).2).
Proof.
  cbn [n_unroll]. destruct (n_fire s x) as [y s1]. cbn [fst snd].
  by destruct (n_unroll s1 xs).
Qed.

Lemma set_mem_mem (n : Node Mem) : set_mem (mem n) n = n.
Proof. by destruct n. Qed.

(** The block with the membrane states of its nodes replaced. *)
Definition BasicBlock_put (m1 m2 m3 : Mem) (b : @BasicBlock.t R Mem)
  : @BasicBlock.t R Mem :=
  {| BasicBlock.conv1 := BasicBlock.conv1 b; BasicBlock.bn1 := BasicBlock.bn1 b;
     BasicBlock.node1 := set_mem m1 (BasicBlock.node1 b);
     BasicBlock.conv2 := BasicBlock.conv2 b; BasicBlock.bn2 := BasicBlock.bn2 b;
     BasicBlock.node2 := set_mem m2 (BasicBlock.node2 b);
     BasicBlock.downsample := BasicBlock.downsample b;
     BasicBlock.downsample_sn := set_mem m3 <$> BasicBlock.downsample_sn b;
     BasicBlock.stride := BasicBlock.stride b; BasicBlock.cnf := BasicBlock.cnf b |}.

Definition BasicBlock_mem_sn (b : @BasicBlock.t R Mem) : Mem :=
  match BasicBlock.downsample_sn b with
  | Some n => mem n
  | None => n_init
  end.

Definition BasicBlock_looped (b : @BasicBlock.t R Mem) : Prop :=
  n_layer_by_layer (BasicBlock.node1 b) = false /\
  n_layer_by_layer (BasicBlock.node2 b) = false /\
  forall sn, BasicBlock.downsample_sn b = Some sn -> n_layer_by_layer sn = false.

(** The inputs and the outputs of the identity path over the slices. *)
Definition shortcut_inputs (ds : option (tensor R -> tensor R))
  (xs : list (tensor R)) : list (tensor R) :=
  match ds with
  | Some ds => ds <$> xs
  | None => []
  end.

Definition shortcut_outputs (ds : option (tensor R -> tensor R))
  (xs ys : list (tensor R)) : list (tensor R) :=
  match ds with
  | Some _ => ys
  | None => xs
  end.

Lemma BasicBlock_forward_looped x (b : @BasicBlock.t R Mem) :
  BasicBlock_looped b ->
  BasicBlock.forward x b =
  let r1 := n_fire (mem (BasicBlock.node1 b))
              (BasicBlock.bn1 b (BasicBlock.conv1 b x)) in
  let r2 := n_fire (mem (BasicBlock.node2 b))
              (BasicBlock.bn2 b (BasicBlock.conv2 b r1.1)) in
  match BasicBlock.downsample b with
  | None =>
      (sew_function x r2.1 (BasicBlock.cnf b),
       BasicBlock_put r1.2 r2.2 (BasicBlock_mem_sn b) b)
  | Some ds =>
      match BasicBlock.downsample_sn b with
      | Some sn =>
          let r3 := n_fire (mem sn) (ds x) in
          (sew_function r3.1 r2.1 (BasicBlock.cnf b),
           BasicBlock_put r1.2 r2.2 r3.2 b)
      | None =>
          (Raise (AttributeError "downsample_sn"),
           BasicBlock_put r1.2 r2.2 (BasicBlock_mem_sn b) b)
      end
  end.
Proof.
  intros (L1 & L2 & L3).
  destruct b as [c1 b1 n1 c2 b2 n2 ds sn st cnf]. cbn in L1, L2, L3.
  rewrite BasicBlock_forward_eq, BasicBlock_main_path_eq.
  cbn -[Node_forward n_fire BasicBlock.shortcut].
  rewrite !Node_forward_looped by done.
  cbn -[Node_forward n_fire BasicBlock.shortcut].
  rewrite BasicBlock_shortcut_eq. cbn -[Node_forward n_fire].
  unfold BasicBlock_put, BasicBlock_mem_sn, BasicBlock.set_node1,
    BasicBlock.set_node2, BasicBlock.set_downsample_sn.
  cbn -[Node_forward n_fire].
  destruct ds as [ds|]; [destruct sn as [sn|]|]; cbn -[Node_forward n_fire].
  - by rewrite Node_forward_looped by by apply L3.
  - done.
  - destruct sn as [sn|]; cbn; [by rewrite set_mem_mem|done].
Qed.

Lemma BasicBlock_unroll (xs : list (tensor R)) : forall (b b' : @BasicBlock.t R Mem) outs,
  BasicBlock_looped b ->
  unroll BasicBlock.forward xs b = (Ok outs, b') ->
  let r1 := n_unroll (mem (BasicBlock.node1 b))
              ((fun x => BasicBlock.bn1 b (BasicBlock.conv1 b x)) <$> xs) in
  let r2 := n_unroll (mem (BasicBlock.node2 b))
              ((fun x => BasicBlock.bn2 b (BasicBlock.conv2 b x)) <$> r1.1) in
  let r3 := n_unroll (BasicBlock_mem_sn b)
              (shortcut_inputs (BasicBlock.downsample b) xs) in
  b' = BasicBlock_put r1.2 r2.2 r3.2 b /\
  zipM (fun i o => sew_function i o (BasicBlock.cnf b))
    (shortcut_outputs (BasicBlock.downsample b) xs r3.1) r2.1 = Ok outs /\
  (BasicBlock.downsample b <> None -> BasicBlock.downsample_sn b = None ->
   xs = []).
Proof.
  induction xs as [|x xs IH]; intros b b' outs Hl E.
  - cbn in E. injection E as <- <-.
    destruct b as [c1 b1 n1 c2 b2 n2 ds sn st cnf].
    unfold BasicBlock_put, BasicBlock_mem_sn. cbn.
    rewrite !set_mem_mem.
    destruct ds, sn; cbn; rewrite ?set_mem_mem; repeat split; reflexivity.
  - cbn [unroll] in E. apply bind_inv_ok in E as (o & b1 & E1 & E).
    apply bind_inv_ok in E as (os & b2 & E2 & E).
    injection E as <- <-.
    rewrite BasicBlock_forward_looped in E1 by done.
    assert (BasicBlock_looped b1) as Hl1.
    { destruct Hl as (L1 & L2 & L3).
      destruct b as [c1 bb1 n1 c2 bb2 n2 ds sn st cnf]. cbn in *.
      destruct ds as [ds|]; [destruct sn as [sn|]|]; injection E1 as _ <-;
        (split; [done|split; [done|]]); cbn; intros sn' Hsn.
      - injection Hsn as <-. exact (L3 sn eq_refl).
      - done.
      - destruct sn as [sn|]; [|done]. injection Hsn as <-. exact (L3 sn eq_refl). }
    destruct (IH b1 b2 os Hl1 E2) as (Eb & Ez & _). clear IH E2 Hl1 Hl.
    destruct b as [c1 bb1 n1 c2 bb2 n2 ds sn st cnf].
    unfold BasicBlock_put, BasicBlock_mem_sn, shortcut_inputs, shortcut_outputs
      in *.
    destruct ds as [ds|]; [destruct sn as [sn|]; [|by cbn in E1]|];
      cbn -[n_unroll n_fire fmap zipM] in E1; injection E1 as E1 <-;
      cbn -[n_unroll n_fire fmap zipM] in Eb, Ez |- *;
      rewrite ?fmap_cons, ?n_unroll_cons; cbn [fst snd];
      rewrite ?fmap_cons, ?n_unroll_cons; cbn [fst snd zipM];
      rewrite E1; cbn [res_bind]; rewrite Ez; cbn [res_bind];
      (split; [|split; [done|by intros]]); rewrite Eb; try reflexivity.
    all: destruct sn; reflexivity.
Qed.


Lemma per_sample_compose (f g : tensor R -> tensor R) :
  per_sample f -> per_sample g -> per_sample (fun x => g (f x)).
Proof.
  intros [hf Hf] [hg Hg]. exists (fun x => hg (hf x)). intros l.
  rewrite Hf, Hg. f_equal. by rewrite <- list_fmap_compose.
Qed.

(** One stage of a main path (convolution, normalisation, node) on the
    flattened tensor. *)
Lemma stage_flat (Hk : node_keeps_batch) T b (g : tensor R -> tensor R)
  (ls : list (list (tensor R))) (n : Node Mem) :
  per_sample g -> length ls = T -> 0 < T -> Forall (fun l => length l = b) ls ->
  exists os,
    (n_unroll (mem n) (g <$> (Stack <$> ls))).1 = Stack <$> os /\
    length os = T /\
    Forall (fun l => length l = b) os /\
    Node_forward (g (Stack (concat ls))) (node_mode true T n)
    = (Ok (Stack (concat os)),
       node_mode true T (set_mem (n_unroll (mem n) (g <$> (Stack <$> ls))).2 n)).
Proof.
  intros [h Hg] HT Hpos Hall.
  destruct (per_sample_concat g h ls Hg) as [E1 E2]. rewrite E1, E2.
  apply (Node_forward_flat Hk T b); [by rewrite length_fmap|done|].
  by apply Forall_length_fmap.
Qed.

Lemma BasicBlock_put_mode lbl T m1 m2 m3 (b : @BasicBlock.t R Mem) :
  BasicBlock_put m1 m2 m3 (BasicBlock_mode lbl T b)
  = BasicBlock_mode lbl T (BasicBlock_put m1 m2 m3 b).
Proof. destruct b as [? ? ? ? ? ? ? [?|] ? ?]; reflexivity. Qed.

Lemma BasicBlock_timewise (Hk : node_keeps_batch) T :
  0 < T ->
  timewise T BasicBlock_per_sample (fun lbl => BasicBlock_mode lbl T)
    BasicBlock.forward.
Proof.
  intros Hpos b ls s outs s' HT Hall (P1 & P2 & P3 & P4 & P5) Hun.
  apply BasicBlock_unroll in Hun;
    [|by repeat split; try by destruct s as [? ? ? ? ? ? ? [?|] ? ?]; cbn;
         intros ? [= <-]].
  destruct Hun as (Es & Hz & Hsn). rewrite BasicBlock_put_mode in Es.
  assert (ls <> []) as Hne by (intros ->; simpl in HT; lia).
  destruct s as [c1 b1 n1 c2 b2 n2 ds sn st cnf].
  unfold BasicBlock_mem_sn, shortcut_inputs, shortcut_outputs in Hz.
  cbn -[n_unroll fmap zipM] in Hz, Hsn, P1, P2, P3, P4, P5.
  destruct (stage_flat Hk T b (fun x => b1 (c1 x)) ls n1)
    as (os1 & E1 & HT1 & B1 & F1); [by apply per_sample_compose|done..|].
  destruct (stage_flat Hk T b (fun x => b2 (c2 x)) os1 n2)
    as (os2 & E2 & HT2 & B2 & F2); [by apply per_sample_compose|done..|].
  rewrite E1 in Hz. rewrite E2 in Hz.
  rewrite BasicBlock_forward_eq, BasicBlock_main_path_eq.
  cbn -[Node_forward n_unroll fmap BasicBlock.shortcut].
  rewrite F1, F2. rewrite BasicBlock_shortcut_eq.
  cbn -[Node_forward n_unroll fmap].
  destruct ds as [ds|].
  - destruct sn as [sn|].
    + destruct (stage_flat Hk T b ds ls sn) as (os3 & E3 & HT3 & B3 & F3);
        [by apply P5|done..|].
      change (node_mode false T <$> Some sn) with (Some (node_mode false T sn))
        in Hz.
      cbn [mem node_mode] in Hz. rewrite E3 in Hz.
      destruct (sew_function_concat cnf b os3 os2 outs) as (os & -> & Bo & Eo);
        [by intros ->; simpl in HT3; lia|done..|].
      change (node_mode true T <$> Some sn) with (Some (node_mode true T sn)).
      cbn -[Node_forward n_unroll fmap]. rewrite F3.
      match goal with |- context [BasicBlock_mode true T ?r] =>
        exists os, (BasicBlock_put
                      (n_unroll (mem n1)
                         ((fun x => b1 (c1 x)) <$> (Stack <$> ls))).2
                      (n_unroll (mem n2)
                         ((fun x => b2 (c2 x)) <$> (Stack <$> os1))).2
                      (n_unroll (mem sn) (ds <$> (Stack <$> ls))).2 r) end.
      split; [done|]. split; [done|]. split.
      { rewrite Es. unfold BasicBlock_mem_sn, shortcut_inputs.
        cbn -[n_unroll fmap BasicBlock_put].
        rewrite E1. reflexivity. }
      split; [by repeat split|].
      cbn -[n_unroll fmap]. rewrite Eo. reflexivity.
    + specialize (Hsn ltac:(done) eq_refl). apply fmap_nil_inv in Hsn. done.
  - destruct (sew_function_concat cnf b ls os2 outs) as (os & -> & Bo & Eo);
      [done..|].
    match goal with |- context [BasicBlock_mode true T ?r] =>
      exists os, (BasicBlock_put
                    (n_unroll (mem n1)
                       ((fun x => b1 (c1 x)) <$> (Stack <$> ls))).2
                    (n_unroll (mem n2)
                       ((fun x => b2 (c2 x)) <$> (Stack <$> os1))).2
                    (BasicBlock_mem_sn r) r) end.
    split; [done|]. split; [done|]. split.
    { rewrite Es. unfold BasicBlock_mem_sn, shortcut_inputs.
      cbn -[n_unroll fmap BasicBlock_put].
      rewrite E1. destruct sn; reflexivity. }
    split; [by repeat split|].
    cbn -[n_unroll fmap]. rewrite Eo. destruct sn; cbn; rewrite ?set_mem_mem;
      reflexivity.
Qed.


Definition Bottleneck_put (m1 m2 m3 m4 : Mem) (b : @Bottleneck.t R Mem)
  : @Bottleneck.t R Mem :=
  {| Bottleneck.conv1 := Bottleneck.conv1 b; Bottleneck.bn1 := Bottleneck.bn1 b;
     Bottleneck.node1 := set_mem m1 (Bottleneck.node1 b);
     Bottleneck.conv2 := Bottleneck.conv2 b; Bottleneck.bn2 := Bottleneck.bn2 b;
     Bottleneck.node2 := set_mem m2 (Bottleneck.node2 b);
     Bottleneck.conv3 := Bottleneck.conv3 b; Bottleneck.bn3 := Bottleneck.bn3 b;
     Bottleneck.node3 := set_mem m3 (Bottleneck.node3 b);
     Bottleneck.downsample := Bottleneck.downsample b;
     Bottleneck.downsample_sn := set_mem m4 <$> Bottleneck.downsample_sn b;
     Bottleneck.stride := Bottleneck.stride b; Bottleneck.cnf := Bottleneck.cnf b |}.

Definition Bottleneck_mem_sn (b : @Bottleneck.t R Mem) : Mem :=
  match Bottleneck.downsample_sn b with
  | Some n => mem n
  | None => n_init
  end.

Definition Bottleneck_looped (b : @Bottleneck.t R Mem) : Prop :=
  n_layer_by_layer (Bottleneck.node1 b) = false /\
  n_layer_by_layer (Bottleneck.node2 b) = false /\
  n_layer_by_layer (Bottleneck.node3 b) = false /\
  forall sn, Bottleneck.downsample_sn b = Some sn -> n_layer_by_layer sn = false.

Lemma Bottleneck_forward_looped x (b : @Bottleneck.t R Mem) :
  Bottleneck_looped b ->
  Bottleneck.forward x b =
  let r1 := n_fire (mem (Bottleneck.node1 b))
              (Bottleneck.bn1 b (Bottleneck.conv1 b x)) in
  let r2 := n_fire (mem (Bottleneck.node2 b))
              (Bottleneck.bn2 b (Bottleneck.conv2 b r1.1)) in
  let r3 := n_fire (mem (Bottleneck.node3 b))
              (Bottleneck.bn3 b (Bottleneck.conv3 b r2.1)) in
  match Bottleneck.downsample b with
  | None =>
      (sew_function r3.1 x (Bottleneck.cnf b),
       Bottleneck_put r1.2 r2.2 r3.2 (Bottleneck_mem_sn b) b)
  | Some ds =>
      match Bottleneck.downsample_sn b with
      | Some sn =>
          let r4 := n_fire (mem sn) (ds x) in
          (sew_function r3.1 r4.1 (Bottleneck.cnf b),
           Bottleneck_put r1.2 r2.2 r3.2 r4.2 b)
      | None =>
          (Raise (AttributeError "downsample_sn"),
           Bottleneck_put r1.2 r2.2 r3.2 (Bottleneck_mem_sn b) b)
      end
  end.
Proof.
  intros (L1 & L2 & L3 & L4).
  destruct b as [c1 b1 n1 c2 b2 n2 c3 b3 n3 ds sn st cnf]. cbn in L1, L2, L3, L4.
  rewrite Bottleneck_forward_eq, Bottleneck_main_path_eq.
  cbn -[Node_forward n_fire Bottleneck.shortcut].
  rewrite !Node_forward_looped by done.
  cbn -[Node_forward n_fire Bottleneck.shortcut].
  rewrite Bottleneck_shortcut_eq. cbn -[Node_forward n_fire].
  unfold Bottleneck_put, Bottleneck_mem_sn, Bottleneck.set_node1,
    Bottleneck.set_node2, Bottleneck.set_node3, Bottleneck.set_downsample_sn.
  cbn -[Node_forward n_fire].
  destruct ds as [ds|]; [destruct sn as [sn|]|]; cbn -[Node_forward n_fire].
  - by rewrite Node_forward_looped by by apply L4.
  - done.
  - destruct sn as [sn|]; cbn; [by rewrite set_mem_mem|done].
Qed.

Lemma Bottleneck_unroll (xs : list (tensor R)) :
  forall (b b' : @Bottleneck.t R Mem) outs,
  Bottleneck_looped b ->
  unroll Bottleneck.forward xs b = (Ok outs, b') ->
  let r1 := n_unroll (mem (Bottleneck.node1 b))
              ((fun x => Bottleneck.bn1 b (Bottleneck.conv1 b x)) <$> xs) in
  let r2 := n_unroll (mem (Bottleneck.node2 b))
              ((fun x => Bottleneck.bn2 b (Bottleneck.conv2 b x)) <$> r1.1) in
  let r3 := n_unroll (mem (Bottleneck.node3 b))
              ((fun x => Bottleneck.bn3 b (Bottleneck.conv3 b x)) <$> r2.1) in
  let r4 := n_unroll (Bottleneck_mem_sn b)
              (shortcut_inputs (Bottleneck.downsample b) xs) in
  b' = Bottleneck_put r1.2 r2.2 r3.2 r4.2 b /\
  zipM (fun i o => sew_function o i (Bottleneck.cnf b))
    (shortcut_outputs (Bottleneck.downsample b) xs r4.1) r3.1 = Ok outs /\
  (Bottleneck.downsample b <> None -> Bottleneck.downsample_sn b = None ->
   xs = []).
Proof.
  induction xs as [|x xs IH]; intros b b' outs Hl E.
  - cbn in E. injection E as <- <-.
    destruct b as [c1 b1 n1 c2 b2 n2 c3 b3 n3 ds sn st cnf].
    unfold Bottleneck_put, Bottleneck_mem_sn. cbn.
    rewrite !set_mem_mem.
    destruct ds, sn; cbn; rewrite ?set_mem_mem; repeat split; reflexivity.
  - cbn [unroll] in E. apply bind_inv_ok in E as (o & b1 & E1 & E).
    apply bind_inv_ok in E as (os & b2 & E2 & E).
    injection E as <- <-.
    rewrite Bottleneck_forward_looped in E1 by done.
    assert (Bottleneck_looped b1) as Hl1.
    { destruct Hl as (L1 & L2 & L3 & L4).
      destruct b as [c1 bb1 n1 c2 bb2 n2 c3 bb3 n3 ds sn st cnf]. cbn in *.
      destruct ds as [ds|]; [destruct sn as [sn|]|]; injection E1 as _ <-;
        (split; [done|split; [done|split; [done|]]]); cbn; intros sn' Hsn.
      - injection Hsn as <-. exact (L4 sn eq_refl).
      - done.
      - destruct sn as [sn|]; [|done]. injection Hsn as <-.
        exact (L4 sn eq_refl). }
    destruct (IH b1 b2 os Hl1 E2) as (Eb & Ez & _). clear IH E2 Hl1 Hl.
    destruct b as [c1 bb1 n1 c2 bb2 n2 c3 bb3 n3 ds sn st cnf].
    unfold Bottleneck_put, Bottleneck_mem_sn, shortcut_inputs, shortcut_outputs
      in *.
    destruct ds as [ds|]; [destruct sn as [sn|]; [|by cbn in E1]|];
      cbn -[n_unroll n_fire fmap zipM] in E1; injection E1 as E1 <-;
      cbn -[n_unroll n_fire fmap zipM] in Eb, Ez |- *;
      rewrite ?fmap_cons, ?n_unroll_cons; cbn [fst snd];
      rewrite ?fmap_cons, ?n_unroll_cons; cbn [fst snd];
      rewrite ?fmap_cons, ?n_unroll_cons; cbn [fst snd zipM];
      rewrite E1; cbn [res_bind]; rewrite Ez; cbn [res_bind];
      (split; [|split; [done|by intros]]); rewrite Eb; try reflexivity.
    all: destruct sn; reflexivity.
Qed.

Lemma Bottleneck_put_mode lbl T m1 m2 m3 m4 (b : @Bottleneck.t R Mem) :
  Bottleneck_put m1 m2 m3 m4 (Bottleneck_mode lbl T b)
  = Bottleneck_mode lbl T (Bottleneck_put m1 m2 m3 m4 b).
Proof. destruct b as [? ? ? ? ? ? ? ? ? ? [?|] ? ?]; reflexivity. Qed.

Lemma Bottleneck_timewise (Hk : node_keeps_batch) T :
  0 < T ->
  timewise T Bottleneck_per_sample (fun lbl => Bottleneck_mode lbl T)
    Bottleneck.forward.
Proof.
  intros Hpos b ls s outs s' HT Hall (P1 & P2 & P3 & P4 & P5 & P6 & P7) Hun.
  apply Bottleneck_unroll in Hun;
    [|by repeat split; try by destruct s as [? ? ? ? ? ? ? ? ? ? [?|] ? ?]; cbn;
         intros ? [= <-]].
  destruct Hun as (Es & Hz & Hsn). rewrite Bottleneck_put_mode in Es.
  assert (ls <> []) as Hne by (intros ->; simpl in HT; lia).
  destruct s as [c1 b1 n1 c2 b2 n2 c3 b3 n3 ds sn st cnf].
  unfold Bottleneck_mem_sn, shortcut_inputs, shortcut_outputs in Hz.
  cbn -[n_unroll fmap zipM] in Hz, Hsn, P1, P2, P3, P4, P5, P6, P7.
  destruct (stage_flat Hk T b (fun x => b1 (c1 x)) ls n1)
    as (os1 & E1 & HT1 & B1 & F1); [by apply per_sample_compose|done..|].
  destruct (stage_flat Hk T b (fun x => b2 (c2 x)) os1 n2)
    as (os2 & E2 & HT2 & B2 & F2); [by apply per_sample_compose|done..|].
  destruct (stage_flat Hk T b (fun x => b3 (c3 x)) os2 n3)
    as (os3 & E3 & HT3 & B3 & F3); [by apply per_sample_compose|done..|].
  rewrite E1 in Hz. rewrite E2 in Hz. rewrite E3 in Hz.
  rewrite zipM_flip in Hz.
  rewrite Bottleneck_forward_eq, Bottleneck_main_path_eq.
  cbn -[Node_forward n_unroll fmap Bottleneck.shortcut].
  rewrite F1, F2, F3. rewrite Bottleneck_shortcut_eq.
  cbn -[Node_forward n_unroll fmap].
  destruct ds as [ds|].
  - destruct sn as [sn|].
    + destruct (stage_flat Hk T b ds ls sn) as (os4 & E4 & HT4 & B4 & F4);
        [by apply P7|done..|].
      change (node_mode false T <$> Some sn) with (Some (node_mode false T sn))
        in Hz.
      cbn [mem node_mode] in Hz. rewrite E4 in Hz.
      destruct (sew_function_concat cnf b os3 os4 outs) as (os & -> & Bo & Eo);
        [by intros ->; simpl in HT3; lia|done..|].
      change (node_mode true T <$> Some sn) with (Some (node_mode true T sn)).
      cbn -[Node_forward n_unroll fmap]. rewrite F4.
      match goal with |- context [Bottleneck_mode true T ?r] =>
        exists os, (Bottleneck_put
                      (n_unroll (mem n1)
                         ((fun x => b1 (c1 x)) <$> (Stack <$> ls))).2
                      (n_unroll (mem n2)
                         ((fun x => b2 (c2 x)) <$> (Stack <$> os1))).2
                      (n_unroll (mem n3)
                         ((fun x => b3 (c3 x)) <$> (Stack <$> os2))).2
                      (n_unroll (mem sn) (ds <$> (Stack <$> ls))).2 r) end.
      split; [done|]. split; [done|]. split.
      { rewrite Es. unfold Bottleneck_mem_sn, shortcut_inputs.
        cbn -[n_unroll fmap Bottleneck_put].
        rewrite E1, E2. reflexivity. }
      split; [by repeat split|].
      cbn -[n_unroll fmap]. rewrite Eo. reflexivity.
    + specialize (Hsn ltac:(done) eq_refl). apply fmap_nil_inv in Hsn. done.
  - destruct (sew_function_concat cnf b os3 ls outs) as (os & -> & Bo & Eo);
      [by intros ->; simpl in HT3; lia|done..|].
    match goal with |- context [Bottleneck_mode true T ?r] =>
      exists os, (Bottleneck_put
                    (n_unroll (mem n1)
                       ((fun x => b1 (c1 x)) <$> (Stack <$> ls))).2
                    (n_unroll (mem n2)
                       ((fun x => b2 (c2 x)) <$> (Stack <$> os1))).2
                    (n_unroll (mem n3)
                       ((fun x => b3 (c3 x)) <$> (Stack <$> os2))).2
                    (Bottleneck_mem_sn r) r) end.
    split; [done|]. split; [done|]. split.
    { rewrite Es. unfold Bottleneck_mem_sn, shortcut_inputs.
      cbn -[n_unroll fmap Bottleneck_put].
      rewrite E1, E2. destruct sn; reflexivity. }
    split; [by repeat split|].
    cbn -[n_unroll fmap]. rewrite Eo. destruct sn; cbn; rewrite ?set_mem_mem;
      reflexivity.
Qed.

End BlockTimewise.

(** *** Layer stacks and child modules over the time slices *)

Section ModuleTimewise.
Context {R Mem : Type} `{ScalarOps R} `{NodeDynamics R Mem} `{Torch R}.

Lemma unroll_length {X} (f : tensor R -> M X (tensor R)) xs : forall s outs s',
  unroll f xs s = (Ok outs, s') -> length outs = length xs.
Proof.
  induction xs as [|x xs IH]; intros s outs s' E; cbn [unroll] in E.
  - by injection E as <- <-.
  - apply bind_inv_ok in E as (y & s1 & _ & E).
    apply bind_inv_ok in E as (ys & s2 & E2 & E). injection E as <- <-.
    simpl. f_equal. by eapply IH.
Qed.

(** A method reached through a constructor of the enclosing type. *)
Lemma unroll_wrap {X Y} (wrap : X -> Y) (f : tensor R -> M X (tensor R))
  (g : tensor R -> M Y (tensor R)) :
  (forall x s, g x (wrap s) = let '(r, s') := f x s in (r, wrap s')) ->
  forall xs s, unroll g xs (wrap s) = let '(r, s') := unroll f xs s in (r, wrap s').
Proof.
  intros Hg. induction xs as [|x xs IH]; intros s; [done|].
  cbn [unroll]. unfold bind. rewrite Hg.
  destruct (f x s) as [[y|e] s1]; [|done]. rewrite IH.
  by destruct (unroll f xs s1) as [[ys|e] s2].
Qed.

Lemma block_timewise (Hk : node_keeps_batch) T :
  0 < T ->
  timewise T block_per_sample (fun lbl => block_mode lbl T) block_forward.
Proof.
  intros Hpos b ls [s|s] outs s' HT Hall Hgood Hun; cbn [block_mode] in Hun.
  - rewrite (unroll_wrap Basic BasicBlock.forward block_forward) in Hun by done.
    destruct (unroll BasicBlock.forward (Stack <$> ls) (BasicBlock_mode false T s))
      as [[outs0|e] s0] eqn:E; [|done]. injection Hun as -> <-.
    destruct (BasicBlock_timewise Hk T Hpos b ls s outs s0 HT Hall Hgood E)
      as (os & s'' & -> & Bo & -> & Hg & F).
    exists os, (Basic s''). split; [done|]. split; [done|]. split; [done|]. split; [done|].
    cbn [block_mode block_forward]. by rewrite F.
  - rewrite (unroll_wrap Bottle Bottleneck.forward block_forward) in Hun by done.
    destruct (unroll Bottleneck.forward (Stack <$> ls) (Bottleneck_mode false T s))
      as [[outs0|e] s0] eqn:E; [|done]. injection Hun as -> <-.
    destruct (Bottleneck_timewise Hk T Hpos b ls s outs s0 HT Hall Hgood E)
      as (os & s'' & -> & Bo & -> & Hg & F).
    exists os, (Bottle s''). split; [done|]. split; [done|]. split; [done|]. split; [done|].
    cbn [block_mode block_forward]. by rewrite F.
Qed.

Lemma unroll_Sequential_nil (xs : list (tensor R)) :
  unroll Sequential_forward xs ([] : list (block R Mem)) = (Ok xs, []).
Proof.
  induction xs as [|x xs IH]; [done|]. cbn [unroll]. unfold bind.
  cbn [Sequential_forward]. by rewrite IH.
Qed.

Lemma unroll_Sequential_cons (xs : list (tensor R)) :
  forall (b : block R Mem) bs outs l',
  unroll Sequential_forward xs (b :: bs) = (Ok outs, l') ->
  exists ys b' bs',
    unroll block_forward xs b = (Ok ys, b') /\
    unroll Sequential_forward ys bs = (Ok outs, bs') /\ l' = b' :: bs'.
Proof.
  induction xs as [|x xs IH]; intros b bs outs l' E; cbn [unroll] in E.
  - injection E as <- <-. by exists [], b, bs.
  - apply bind_inv_ok in E as (o & l1 & E1 & E).
    apply bind_inv_ok in E as (os & l2 & E2 & E). injection E as <- <-.
    cbn [Sequential_forward] in E1.
    destruct (block_forward x b) as [[y|e] b1] eqn:Eb; [|done].
    destruct (Sequential_forward y bs) as [r bs1] eqn:Es.
    injection E1 as -> <-.
    destruct (IH b1 bs1 os l2 E2) as (ys & b' & bs' & Eu1 & Eu2 & ->).
    exists (y :: ys), b', bs'. cbn [unroll]. unfold bind.
    rewrite Eb, Eu1, Es, Eu2. done.
Qed.

Lemma Sequential_timewise (Hk : node_keeps_batch) T :
  0 < T ->
  timewise T (Forall block_per_sample) (fun lbl => fmap (block_mode lbl T))
    Sequential_forward.
Proof.
  intros Hpos b ls s. revert ls.
  induction s as [|blk bs IH]; intros ls outs s' HT Hall Hgood Hun.
  - rewrite fmap_nil, unroll_Sequential_nil in Hun. injection Hun as <- <-.
    by exists ls, [].
  - rewrite fmap_cons in Hun.
    apply unroll_Sequential_cons in Hun as (ys & b' & bs' & E1 & E2 & ->).
    apply Forall_cons in Hgood as [Gb Gbs].
    destruct (block_timewise Hk T Hpos b ls blk ys b' HT Hall Gb E1)
      as (os1 & blk'' & -> & B1 & -> & Gb' & F1).
    assert (length os1 = T) as HT1.
    { apply unroll_length in E1. rewrite !length_fmap in E1. lia. }
    destruct (IH os1 outs bs' HT1 B1 Gbs E2) as (os & bs'' & -> & Bo & -> & Gbs' & F2).
    exists os, (blk'' :: bs''). split; [done|]. split; [done|].
    split; [by rewrite fmap_cons|]. split; [by constructor|].
    rewrite fmap_cons. cbn [Sequential_forward]. by rewrite F1, F2.
Qed.

Lemma unroll_MLayer (f : tensor R -> tensor R) xs :
  unroll module_forward xs (MLayer f : module R Mem) = (Ok (f <$> xs), MLayer f).
Proof.
  induction xs as [|x xs IH]; [done|]. cbn [unroll]. unfold bind.
  cbn [module_forward]. by rewrite IH.
Qed.

Lemma module_timewise (Hk : node_keeps_batch) T :
  0 < T ->
  timewise T module_per_sample (fun lbl => module_mode lbl T) module_forward.
Proof.
  intros Hpos b ls [f|n|bs] outs s' HT Hall Hgood Hun; cbn [module_mode] in Hun.
  - rewrite unroll_MLayer in Hun. injection Hun as <- <-.
    destruct Hgood as [h Hf].
    destruct (per_sample_concat f h ls Hf) as [E1 E2].
    exists (fmap (M := list) h <$> ls), (MLayer f).
    split; [done|]. split; [by apply Forall_length_fmap|].
    split; [done|]. split; [by exists h|].
    cbn [module_mode module_forward]. by rewrite E1.
  - rewrite (unroll_wrap MNode Node_forward module_forward) in Hun by done.
    rewrite unroll_Node_looped in Hun by done. injection Hun as <- <-.
    destruct (Node_forward_flat Hk T b ls n HT Hpos Hall) as (os & E & _ & Bo & F).
    cbn [node_mode mem]. rewrite E.
    exists os, (MNode (set_mem (n_unroll (mem n) (Stack <$> ls)).2 n)).
    split; [done|]. split; [done|]. split; [done|]. split; [done|].
    cbn [module_mode module_forward]. by rewrite F.
  - rewrite (unroll_wrap MSequential Sequential_forward module_forward) in Hun
      by done.
    destruct (unroll Sequential_forward (Stack <$> ls) (block_mode false T <$> bs))
      as [[outs0|e] s0] eqn:E; [|done]. injection Hun as -> <-.
    destruct (Sequential_timewise Hk T Hpos b ls bs outs s0 HT Hall Hgood E)
      as (os & s'' & -> & Bo & -> & Hg & F).
    exists os, (MSequential s''). split; [done|]. split; [done|]. split; [done|]. split; [done|].
    cbn [module_mode module_forward]. by rewrite F.
Qed.

End ModuleTimewise.

(** *** The chain of layers of a network over the time slices *)

Section NetTimewise.
Context {R Mem : Type} `{ScalarOps R} `{NodeDynamics R Mem} `{Torch R} `{Framework R}.

Lemma with_modules_insert_id (n : string) (m : module R Mem) (s : Net R Mem) :
  _modules s !! n = Some m -> with_modules (insert n m) s = s.
Proof.
  intros E. destruct s. unfold with_modules. cbn in *. f_equal.
  by apply insert_id.
Qed.

Lemma with_modules_insert_twice (n : string) (m0 m1 : module R Mem) (s : Net R Mem) :
  with_modules (insert n m1) (with_modules (insert n m0) s)
  = with_modules (insert n m1) s.
Proof. unfold with_modules. cbn. f_equal. apply insert_insert_eq. Qed.

Lemma with_modules_insert_comm (n n' : string) (m m' : module R Mem) (s : Net R Mem) :
  n <> n' ->
  with_modules (insert n m) (with_modules (insert n' m') s)
  = with_modules (insert n' m') (with_modules (insert n m) s).
Proof. intros Hn. unfold with_modules. cbn. f_equal. by apply insert_insert_ne. Qed.

Lemma unroll_call (n : string) xs : forall (s : Net R Mem) m0,
  _modules s !! n = Some m0 ->
  unroll (call n) xs s
  = let '(r, m1) := unroll module_forward xs m0 in
    (r, with_modules (insert n m1) s).
Proof.
  induction xs as [|x xs IH]; intros s m0 E.
  - cbn. by rewrite with_modules_insert_id.
  - cbn [unroll]. unfold bind.
    replace (call n x s) with
      (let '(r, m') := module_forward x m0 in (r, with_modules (insert n m') s))
      by (unfold call; by rewrite E).
    destruct (module_forward x m0) as [[y|e] m'] eqn:Em; [|done].
    rewrite (IH _ m') by (cbn; apply lookup_insert_eq).
    destruct (unroll module_forward xs m') as [[ys|e] m1];
      cbn; by rewrite with_modules_insert_twice.
Qed.

Lemma call_frame (n n' : string) (m : module R Mem) x (s : Net R Mem) :
  n <> n' ->
  call n' x (with_modules (insert n m) s)
  = let '(r, s') := call n' x s in (r, with_modules (insert n m) s').
Proof.
  intros Hn. unfold call. cbn [_modules with_modules].
  rewrite lookup_insert_ne by done.
  destruct (_modules s !! n') as [m'|]; [|done].
  destruct (module_forward x m') as [r m'']. f_equal.
  by apply with_modules_insert_comm.
Qed.

Lemma run_chain_frame (n : string) (m : module R Mem) sts : forall x (s : Net R Mem),
  n ∉ stage_names sts ->
  run_chain sts x (with_modules (insert n m) s)
  = let '(r, s') := run_chain sts x s in (r, with_modules (insert n m) s').
Proof.
  induction sts as [|[n'|] sts IH]; intros x s Hn; [done| |].
  - cbn [run_chain run_stage]. unfold bind.
    assert (n <> n' /\ n ∉ stage_names sts) as [Hne Hn'].
    { cbn in Hn. apply not_elem_of_cons in Hn. done. }
    rewrite call_frame by done.
    destruct (call n' x s) as [[y|e] s1]; [|done]. by apply IH.
  - cbn [run_chain run_stage]. unfold bind, lift.
    destruct (flatten1 x) as [y|e]; [|done]. by apply IH.
Qed.

(** The layers after a call see, slice after slice, what the call
    returned: the calls of one child can be grouped. *)
Lemma unroll_call_chain (n : string) sts xs : forall (s : Net R Mem) outs s',
  n ∉ stage_names sts ->
  unroll (run_chain (SCall n :: sts)) xs s = (Ok outs, s') ->
  exists ys s1,
    unroll (call n) xs s = (Ok ys, s1) /\
    unroll (run_chain sts) ys s1 = (Ok outs, s').
Proof.
  intros s outs s' Hn. destruct (_modules s !! n) as [m0|] eqn:E0; cycle 1.
  { destruct xs as [|x xs]; intros E.
    - injection E as <- <-. by exists [], s.
    - cbn [unroll run_chain run_stage] in E. unfold bind, call in E.
      by rewrite E0 in E. }
  revert s outs s' m0 E0.
  induction xs as [|x xs IH]; intros s outs s' m0 E0 E.
  - injection E as <- <-. by exists [], s.
  - cbn [unroll] in E.
    apply bind_inv_ok in E as (o & sb & E1 & E).
    apply bind_inv_ok in E as (os & s2 & E2 & E). injection E as <- <-.
    cbn [run_chain run_stage] in E1.
    apply bind_inv_ok in E1 as (y & sa & Ec & Er).
    unfold call in Ec. rewrite E0 in Ec.
    destruct (module_forward x m0) as [r m'] eqn:Em. injection Ec as -> <-.
    rewrite run_chain_frame in Er by done.
    destruct (run_chain sts y s) as [r sc] eqn:Esc. injection Er as -> <-.
    assert (_modules (with_modules (insert n m') sc) !! n = Some m') as Em'
      by (cbn; apply lookup_insert_eq).
    destruct (IH _ os s2 m' Em' E2) as (ys & s1 & Eu1 & Eu2).
    rewrite (unroll_call n xs _ m' Em') in Eu1.
    destruct (unroll module_forward xs m') as [r m1] eqn:Eum.
    injection Eu1 as -> <-. rewrite with_modules_insert_twice in Eu2.
    exists (y :: ys), (with_modules (insert n m1) s). split.
    + rewrite (unroll_call n (x :: xs) s m0 E0). cbn [unroll]. unfold bind.
      by rewrite Em, Eum.
    + cbn [unroll]. unfold bind. rewrite run_chain_frame by done.
      by rewrite Esc, Eu2.
Qed.

Lemma unroll_flatten_chain sts xs : forall (s : Net R Mem) outs s',
  unroll (run_chain (SFlatten :: sts)) xs s = (Ok outs, s') ->
  exists ys,
    res_mapM flatten1 xs = Ok ys /\
    unroll (run_chain sts) ys s = (Ok outs, s').
Proof.
  induction xs as [|x xs IH]; intros s outs s' E.
  - injection E as <- <-. by exists [].
  - cbn [unroll] in E.
    apply bind_inv_ok in E as (o & sb & E1 & E).
    apply bind_inv_ok in E as (os & s2 & E2 & E). injection E as <- <-.
    cbn [run_chain run_stage] in E1. unfold bind, lift in E1.
    destruct (flatten1 x) as [y|e] eqn:Ef; [|done].
    destruct (IH _ _ _ E2) as (ys & Em & Eu).
    exists (y :: ys). cbn [res_mapM]. rewrite Ef. cbn. rewrite Em. cbn.
    split; [done|]. unfold bind. by rewrite E1, Eu.
Qed.

Lemma net_mode_insert lbl enc (n : string) (m : module R Mem) (s : Net R Mem) :
  net_mode lbl enc (with_modules (insert n m) s)
  = with_modules (insert n (module_mode lbl (step s) m)) (net_mode lbl enc s).
Proof. unfold net_mode, with_modules. cbn. f_equal. apply fmap_insert. Qed.

Lemma layers_per_sample_insert (n : string) (m : module R Mem) (s : Net R Mem) :
  layers_per_sample s -> module_per_sample m ->
  layers_per_sample (with_modules (insert n m) s).
Proof.
  intros Hs Hm n' m' E. cbn in E.
  destruct (decide (n = n')) as [->|Hne].
  - rewrite lookup_insert_eq in E. by injection E as <-.
  - rewrite lookup_insert_ne in E by done. by eapply Hs.
Qed.

Definition ready (T : nat) (s : Net R Mem) : Prop :=
  layers_per_sample s /\ step s = T.

Lemma call_timewise (Hk : node_keeps_batch) (enc : bool -> tensor R -> value R)
  T (n : string) :
  0 < T ->
  timewise T (ready T) (fun lbl => net_mode lbl (enc lbl)) (call n).
Proof.
  intros Hpos b ls s outs s' HT Hall [Hgood Hstep] Hun.
  destruct (_modules s !! n) as [m0|] eqn:E0; cycle 1.
  { destruct ls as [|l ls]; [simpl in HT; lia|].
    rewrite fmap_cons in Hun. cbn [unroll] in Hun. unfold bind, call in Hun.
    cbn [_modules net_mode] in Hun. rewrite lookup_fmap, E0 in Hun. done. }
  assert (forall lbl, _modules (net_mode lbl (enc lbl) s) !! n
                      = Some (module_mode lbl T m0)) as Em.
  { intros lbl. cbn [_modules net_mode]. by rewrite lookup_fmap, E0, Hstep. }
  rewrite (unroll_call n _ _ _ (Em false)) in Hun.
  destruct (unroll module_forward (Stack <$> ls) (module_mode false T m0))
    as [r m1] eqn:Eu. injection Hun as -> <-.
  destruct (module_timewise Hk T Hpos b ls m0 outs m1 HT Hall (Hgood _ _ E0) Eu)
    as (os & m'' & -> & Bo & -> & Hg & F).
  exists os, (with_modules (insert n m'') s).
  split; [done|]. split; [done|].
  split; [by rewrite net_mode_insert, Hstep|].
  split; [split; [by apply layers_per_sample_insert|done]|].
  unfold call. rewrite (Em true), F. by rewrite net_mode_insert, Hstep.
Qed.

Lemma flatten1_slices (ls : list (list (tensor R))) :
  let h := fun s : tensor R => Stack (Scalar <$> leaves s) in
  res_mapM flatten1 (Stack <$> ls) = Ok (Stack <$> (fmap (M := list) h <$> ls)) /\
  flatten1 (Stack (concat ls)) = Ok (Stack (concat (fmap (M := list) h <$> ls))).
Proof.
  intros h. split.
  - induction ls as [|l ls IH]; [done|]. rewrite !fmap_cons.
    cbn [res_mapM]. rewrite IH. done.
  - cbn [flatten1]. do 2 f_equal.
    induction ls as [|l ls IH]; [done|].
    rewrite fmap_cons. cbn [concat]. rewrite <- IH. apply fmap_app.
Qed.

Lemma unroll_chain_nil xs (s : Net R Mem) :
  unroll (run_chain []) xs s = (Ok xs, s).
Proof.
  induction xs as [|x xs IH]; [done|]. cbn [unroll]. unfold bind.
  change (run_chain [] x s) with (Ok x, s). cbv beta iota. by rewrite IH.
Qed.

Lemma chain_timewise (Hk : node_keeps_batch) (enc : bool -> tensor R -> value R)
  T sts :
  0 < T -> NoDup (stage_names sts) ->
  timewise T (ready T) (fun lbl => net_mode lbl (enc lbl)) (run_chain sts).
Proof.
  intros Hpos. induction sts as [|[n|] sts IH]; intros Hnd b ls s outs s' HT Hall Hgood Hun.
  - rewrite unroll_chain_nil in Hun. injection Hun as <- <-.
    by exists ls, s.
  - cbn in Hnd. apply NoDup_cons in Hnd as [Hn Hnd].
    apply unroll_call_chain in Hun as (ys & s1 & E1 & E2); [|done].
    destruct (call_timewise Hk enc T n Hpos b ls s ys s1 HT Hall Hgood E1)
      as (os1 & s1'' & -> & B1 & -> & G1 & F1).
    assert (length os1 = T) as HT1.
    { apply unroll_length in E1. rewrite !length_fmap in E1. lia. }
    destruct (IH Hnd b os1 s1'' outs s' HT1 B1 G1 E2)
      as (os & s'' & -> & Bo & -> & G & F2).
    exists os, s''. split; [done|]. split; [done|]. split; [done|].
    split; [done|]. cbn [run_chain run_stage]. unfold bind. by rewrite F1, F2.
  - cbn in Hnd.
    apply unroll_flatten_chain in Hun as (ys & Em & E2).
    destruct (flatten1_slices ls) as [Es Ef]. rewrite Es in Em.
    injection Em as <-.
    assert (length (fmap (M := list) (fun s : tensor R => Stack (Scalar <$> leaves s)) <$> ls) = T)
      as HT1 by (by rewrite length_fmap).
    destruct (IH Hnd b _ s outs s' HT1 (Forall_length_fmap _ _ _ Hall) Hgood E2)
      as (os & s'' & -> & Bo & -> & G & F2).
    exists os, s''. split; [done|]. split; [done|]. split; [done|].
    split; [done|]. cbn [run_chain run_stage]. unfold bind, lift.
    by rewrite Ef, F2.
Qed.

End NetTimewise.

(** *** The two passes of [_forward_impl] *)

Section Passes.
Context {R Mem : Type} `{ScalarOps R} `{NodeDynamics R Mem} `{Torch R} `{Framework R}.

Lemma shape_tmap g (a : tensor R) : shape (tmap g a) = shape a.
Proof.
  induction a as [r|l IH] using tensor_ind'; [done|].
  cbn [tmap shape]. rewrite length_map. f_equal.
  destruct IH as [|a l Ha _]; [done|]. exact Ha.
Qed.

Lemma tzip_shape f (a : tensor R) : forall b c,
  tzip f a b = Ok c -> shape c = shape a.
Proof.
  induction a as [r|l IH] using tensor_ind'; intros [r'|l'] c E; try done.
  - cbn in E. by injection E as <-.
  - rewrite tzip_Stack in E.
    destruct (tzip_list f l l') as [zs|e] eqn:Ez; [|done].
    cbn in E. injection E as <-. cbn [shape].
    rewrite (tzip_list_length _ _ _ _ Ez). f_equal.
    destruct IH as [|a l Ha _]; destruct l' as [|b l']; cbn in Ez; try done.
    + by injection Ez as <-.
    + destruct (tzip f a b) as [z|e] eqn:Eab; [|done]. cbn in Ez.
      destruct (tzip_list f l l') as [zs'|e]; [|done]. cbn in Ez.
      injection Ez as <-. by eapply Ha.
Qed.

Lemma tadd_all_shape (os : list (tensor R)) : forall acc s,
  tadd_all acc os = Ok s -> shape s = shape acc.
Proof.
  induction os as [|o os IH]; intros acc s E; cbn in E.
  - by injection E as <-.
  - destruct (tadd acc o) as [a|e] eqn:Ea; [|done]. cbn in E.
    rewrite (IH _ _ E). by eapply tzip_shape.
Qed.

Lemma py_mean_shape (o : tensor R) os m :
  py_mean (o :: os) = Ok m -> shape m = shape o.
Proof.
  unfold py_mean. intros E.
  destruct (tadd_all _ os) as [s|e] eqn:Es; [|done]. cbn in E.
  injection E as <-. rewrite shape_tmap, (tadd_all_shape _ _ _ Es).
  apply shape_tmap.
Qed.

(** The timestep loop reads the slices of a list in order. *)
Lemma for_range_unroll (body : tensor R -> M (Net R Mem) (tensor R)) xs :
  forall pre acc (s : Net R Mem),
  for_range (seq (length pre) (length xs))
    (fun t outputs =>
       x <- lift (getitem (VList (pre ++ xs)) t) ;;
       x <- body x ;;
       ret (outputs ++ [x])) acc s
  = let '(r, s') := unroll body xs s in
    (res_bind r (fun ys => Ok (acc ++ ys)), s').
Proof.
  induction xs as [|x xs IH]; intros pre acc s.
  - cbn. by rewrite app_nil_r.
  - specialize (IH (pre ++ [x])).
    rewrite length_app, Nat.add_1_r, <- app_assoc in IH. cbn [app] in IH.
    cbn [length seq for_range unroll]. unfold bind, lift, ret in IH |- *.
    cbn [getitem]. rewrite lookup_app_r by lia. rewrite Nat.sub_diag.
    cbn [lookup list_lookup].
    destruct (body x s) as [[y|e] s1]; [|done].
    rewrite IH.
    destruct (unroll body xs s1) as [[ys|e] s2]; [|done].
    cbn. by rewrite <- app_assoc.
Qed.

Lemma looped_outputs_unroll (body : tensor R -> M (Net R Mem) (tensor R)) xs
  (s : Net R Mem) :
  looped_outputs body (VList xs) (seq 0 (length xs)) s = unroll body xs s.
Proof.
  unfold looped_outputs. pose proof (for_range_unroll body xs [] [] s) as E.
  cbn [length app] in E. rewrite E.
  by destruct (unroll body xs s) as [[ys|e] s'].
Qed.

Lemma block_reset_mode lbl T (b : block R Mem) :
  block_reset (block_mode lbl T b) = block_mode lbl T (block_reset b).
Proof.
  destruct b as [[c1 b1 n1 c2 b2 n2 ds sn st cnf]
                |[c1 b1 n1 c2 b2 n2 c3 b3 n3 ds sn st cnf]];
    destruct sn as [sn|]; reflexivity.
Qed.

Lemma module_reset_mode lbl T (m : module R Mem) :
  module_reset (module_mode lbl T m) = module_mode lbl T (module_reset m).
Proof.
  destruct m as [f|n|bs]; [done|done|]. cbn [module_mode module_reset]. f_equal.
  rewrite <- !list_fmap_compose. apply list_fmap_ext. intros _ b _.
  apply block_reset_mode.
Qed.

Lemma reset_net_mode lbl enc (self : Net R Mem) :
  reset_net (net_mode lbl enc self) = net_mode lbl enc (reset_net self).
Proof.
  unfold reset_net, with_modules, net_mode. cbn. f_equal.
  rewrite <- !map_fmap_compose. apply map_fmap_ext. intros n m _.
  apply module_reset_mode.
Qed.

Lemma block_per_sample_reset (b : block R Mem) :
  block_per_sample b -> block_per_sample (block_reset b).
Proof.
  by destruct b as [[c1 b1 n1 c2 b2 n2 ds sn st cnf]
                   |[c1 b1 n1 c2 b2 n2 c3 b3 n3 ds sn st cnf]].
Qed.

Lemma layers_per_sample_reset (self : Net R Mem) :
  layers_per_sample self -> layers_per_sample (reset_net self).
Proof.
  intros Hs n m E. cbn in E. rewrite lookup_fmap in E.
  destruct (_modules self !! n) as [m0|] eqn:E0; [|done].
  injection E as <-. specialize (Hs n m0 E0).
  destruct m0 as [f|nd|bs]; [done|done|]. cbn in *.
  apply Forall_fmap. eapply Forall_impl; [exact Hs|].
  intros b Hb. by apply block_per_sample_reset.
Qed.

Lemma NoDup_body_stages (c : NetCls) : NoDup (stage_names (body_stages c)).
Proof. destruct c; apply (bool_decide_unpack _); vm_compute; exact I. Qed.

Lemma net_body_chain_fun (c : NetCls) :
  net_body (Mem := Mem) c = run_chain (body_stages c).
Proof. by destruct c. Qed.

Lemma shape_concat_head (o : list (tensor R)) os (m : tensor R) :
  shape m = shape (Stack o) -> length (shape m) = 2 ->
  length (shape (Stack (concat (o :: os)))) = 2.
Proof.
  intros E Hr. rewrite E in Hr. destruct o as [|t o]; [done|].
  cbn [shape concat app length] in Hr |- *. done.
Qed.

Lemma passes_agree (c : NetCls) (self : Net R Mem)
  (enc_l enc_f : tensor R -> value R) (x : tensor R) (b : nat)
  (ls : list (list (tensor R))) (m : tensor R) (s1 : Net R Mem) :
  node_keeps_batch -> layers_per_sample self ->
  once self = false -> sum_output self = true ->
  length ls = step self -> Forall (fun l => length l = b) ls ->
  enc_l x = VList (Stack <$> ls) ->
  enc_f x = VTensor (Stack (concat ls)) ->
  net_forward c x (net_mode false enc_l self) = (Ok (VTensor m), s1) ->
  length (shape m) = 2 ->
  exists s'',
    s1 = net_mode false enc_l s'' /\
    net_forward c x (net_mode true enc_f self)
    = (Ok (VTensor m), net_mode true enc_f s'').
Proof.
  intros Hk Hps Ho Hsum HT Hall Hel Hef Hl Hrank.
  rewrite net_forward_impl_mode, forward_impl_with_eq in Hl by done.
  cbn zeta in Hl.
  change (layer_by_layer (net_mode false enc_l self)) with false in Hl.
  change (encoder (net_mode false enc_l self)) with enc_l in Hl.
  change (step (net_mode false enc_l self)) with (step self) in Hl.
  cbv iota in Hl.
  pose proof (keeps_reset_fields
                (looped_outputs (net_body c) (enc_l x) (seq 0 (step self)))
                (reset_net (net_mode false enc_l self))
                (keeps_reset_looped_outputs _ _ _ (keeps_reset_net_body c)))
    as [_ Hso].
  destruct (looped_outputs _ _ _ _) as [[outs|e] s1'] eqn:E; [|done].
  cbn [snd] in Hso.
  change (sum_output (reset_net (net_mode false enc_l self)))
    with (sum_output self) in Hso.
  rewrite Hso, Hsum in Hl. cbn [negb] in Hl.
  destruct (py_mean outs) as [m'|e] eqn:Em; [|done]. injection Hl as -> ->.
  rewrite Hel, reset_net_mode in E.
  replace (step self) with (length (Stack <$> ls)) in E
    by (by rewrite length_fmap).
  rewrite looped_outputs_unroll, net_body_chain_fun in E.
  assert (0 < step self) as Hpos.
  { destruct ls as [|l ls]; [|simpl in HT; lia].
    injection E as <- <-. done. }
  destruct (chain_timewise Hk (fun lbl : bool => if lbl then enc_f else enc_l)
              (step self) (body_stages c) Hpos (NoDup_body_stages c)
              b ls (reset_net self) outs s1 HT Hall
              (conj (layers_per_sample_reset self Hps) eq_refl) E)
    as (os & s'' & -> & Bo & -> & [_ Hstep] & F).
  exists s''. split; [done|].
  assert (length os = step self) as HTo.
  { apply unroll_length in E. rewrite !length_fmap in E. lia. }
  rewrite net_forward_impl_mode, forward_impl_with_eq by done.
  cbn zeta.
  change (layer_by_layer (net_mode true enc_f self)) with true.
  change (encoder (net_mode true enc_f self)) with enc_f.
  cbv iota. rewrite Hef. cbn [as_tensor].
  rewrite reset_net_mode, net_body_chain, F.
  change (step (net_mode true enc_f s'')) with (step s'').
  change (sum_output (net_mode true enc_f s'')) with (sum_output s'').
  change (sum_output (net_mode false enc_l s'')) with (sum_output s'') in Hso.
  rewrite Hso, Hsum, Hstep.
  destruct os as [|o os]; [simpl in HTo; lia|].
  rewrite fmap_cons in Em.
  unfold rearrange_tbc.
  rewrite decide_True
    by (eapply shape_concat_head; [by eapply py_mean_shape|done]).
  cbn [unstack res_bind]. rewrite <- HTo.
  rewrite (time_slices_concat b (o :: os)); [|simpl; lia|exact Bo].
  cbn [res_bind].
  rewrite mean0_py_mean by done. rewrite fmap_cons, Em. done.
Qed.

(** X1: a network set up for looped execution and the same network set
    up for flattened (layer-by-layer) execution, from the same node
    states, on an input that the looped encoder turns into [step] time
    slices of [b] samples each and the flattened encoder into their
    concatenation along the batch dimension (in particular the same
    tensor repeated for every timestep).  If every stateless layer acts
    on each sample of the batch on its own, a node step keeps the batch,
    [sum_output] is set and [once] is not, then whenever the looped pass
    returns a mean of rank 2 (batch, classes), the flattened pass returns
    the same tensor, and leaves the nodes in the same states. *)
Theorem flattened_pass_equals_looped_pass (c : NetCls) (self : Net R Mem)
  (enc_l enc_f : tensor R -> value R) (x : tensor R) (b : nat)
  (ls : list (list (tensor R))) (m : tensor R) (s1 : Net R Mem) :
  node_keeps_batch -> layers_per_sample self ->
  once self = false -> sum_output self = true ->
  length ls = step self -> Forall (fun l => length l = b) ls ->
  enc_l x = VList (Stack <$> ls) ->
  enc_f x = VTensor (Stack (concat ls)) ->
  net_forward c x (net_mode false enc_l self) = (Ok (VTensor m), s1) ->
  length (shape m) = 2 ->
  exists s'',
    s1 = net_mode false enc_l s'' /\
    net_forward c x (net_mode true enc_f self)
    = (Ok (VTensor m), net_mode true enc_f s'').
Proof. apply passes_agree. Qed.

End Passes.

(** *** Networks whose stateless layers act per sample

    When every layer the tensor library builds, and the normalisation
    layer passed to the constructor, treat the samples of a batch one
    by one, so does every layer of the network a constructor builds. *)

Section PerSampleConstruction.
Context {R Mem : Type} `{ScalarOps R} `{NodeDynamics R Mem} `{Torch R} `{Framework R}.

Definition torch_per_sample_layers : Prop :=
  (forall a b c d e f g, per_sample (Conv2d a b c d e f g)) /\
  (forall n, per_sample (BatchNorm2d n)) /\
  (forall a b c, per_sample (MaxPool2d a b c)) /\
  (forall a b, per_sample (AdaptiveAvgPool2d a b)) /\
  (forall a b, per_sample (Linear a b)).

Definition sample_inv (s : Net R Mem) : Prop :=
  layers_per_sample s /\ forall n, per_sample (_norm_layer s n).

(** [m] keeps the invariant, and a value it returns satisfies [Q]. *)
Definition holds {A} (m : M (Net R Mem) A) (Q : A -> Prop) : Prop :=
  forall s, sample_inv s ->
    sample_inv (m s).2 /\ forall a, (m s).1 = Ok a -> Q a.

Lemma holds_bind {A B} (m : M (Net R Mem) A) (k : A -> M (Net R Mem) B) Q Q' :
  holds m Q -> (forall a, Q a -> holds (k a) Q') -> holds (bind m k) Q'.
Proof.
  intros Hm Hk s Hs. destruct (Hm s Hs) as [Hi Hq]. unfold bind.
  destruct (m s) as [[a|e] s1]; cbn [fst snd] in *; [|done].
  by apply Hk; [apply Hq|].
Qed.

Lemma holds_bind_get {B} (k : Net R Mem -> M (Net R Mem) B) Q :
  (forall s0, sample_inv s0 -> holds (k s0) Q) -> holds (bind get k) Q.
Proof. intros Hk s Hs. unfold bind, get. by apply Hk. Qed.

Lemma holds_bind_lift {A B} (r : res A) (k : A -> M (Net R Mem) B) Q :
  (forall a, r = Ok a -> holds (k a) Q) -> holds (bind (lift r) k) Q.
Proof.
  intros Hk s Hs. unfold bind, lift. destruct r as [a|e]; [by apply Hk|done].
Qed.

Lemma holds_lift {A} (r : res A) (Q : A -> Prop) :
  (forall a, r = Ok a -> Q a) -> holds (lift r) Q.
Proof. intros Hr s Hs. split; [done|]. intros a E. by apply Hr. Qed.

Lemma holds_ret {A} (a : A) (Q : A -> Prop) : Q a -> holds (ret a) Q.
Proof. intros Ha s Hs. split; [done|]. by intros ? [= <-]. Qed.

Lemma holds_raise {A} e (Q : A -> Prop) : holds (raise e) Q.
Proof. by intros s Hs. Qed.

Lemma holds_if {A} (b : bool) (m1 m2 : M (Net R Mem) A) Q :
  holds m1 Q -> holds m2 Q -> holds (if b then m1 else m2) Q.
Proof. by destruct b. Qed.

Lemma holds_modify (f : Net R Mem -> Net R Mem) :
  (forall s, sample_inv s -> sample_inv (f s)) ->
  holds (modify f) (fun _ => True).
Proof. intros Hf s Hs. split; [by apply Hf|done]. Qed.

Lemma holds_setattr name (m : module R Mem) :
  module_per_sample m -> holds (setattr name m) (fun _ => True).
Proof.
  intros Hm. apply holds_modify. intros s [Hl Hn]. split; [|done].
  by apply layers_per_sample_insert.
Qed.

Lemma holds_new_node : holds (new_node (Mem := Mem)) (fun _ => True).
Proof.
  unfold new_node. apply holds_bind_get. intros s _.
  destruct (node s); [by apply holds_ret|apply holds_raise].
Qed.

Lemma block_new_per_sample cls i p st ds g w d nl cnf nd (b : block R Mem) :
  torch_per_sample_layers ->
  (forall n, per_sample (nl n)) ->
  (forall f, ds = Some f -> per_sample f) ->
  block_new cls i p st ds g w d (Some nl) cnf nd = Ok b ->
  block_per_sample b.
Proof.
  intros (Hc & _) Hn Hd E. destruct cls; cbn [block_new] in E.
  - unfold BasicBlock.__init__ in E. cbv zeta in E.
    destruct (negb (g =? 1)%nat || negb (w =? 64)%nat); [done|].
    destruct (1 <? d)%nat; [done|]. destruct nd as [n|]; [|done].
    cbn in E. injection E as <-.
    unfold block_per_sample, BasicBlock_per_sample, conv3x3. cbn.
    split; [apply Hc|]. split; [apply Hn|]. split; [apply Hc|].
    split; [apply Hn|]. exact Hd.
  - unfold Bottleneck.__init__ in E. cbv zeta in E.
    destruct nd as [n|]; [|done].
    cbn in E. injection E as <-.
    unfold block_per_sample, Bottleneck_per_sample, conv3x3, conv1x1. cbn.
    split; [apply Hc|]. split; [apply Hn|]. split; [apply Hc|].
    split; [apply Hn|]. split; [apply Hc|]. split; [apply Hn|]. exact Hd.
Qed.

Lemma append_blocks_Forall (P : block R Mem -> Prop) n mk : forall l l',
  (forall b, mk = Ok b -> P b) -> Forall P l ->
  append_blocks n mk l = Ok l' -> Forall P l'.
Proof.
  induction n as [|n IH]; intros l l' Hmk Hl E; cbn in E.
  - by injection E as <-.
  - destruct mk as [b|e]; [|done]. cbn in E.
    eapply IH; [done| |exact E].
    apply Forall_app. split; [done|]. constructor; [by apply Hmk|done].
Qed.

Lemma holds_make_layer cls planes blocks stride dilate cnf nd :
  torch_per_sample_layers ->
  holds (_make_layer cls planes blocks stride dilate cnf nd)
    (Forall block_per_sample).
Proof.
  intros Ht. unfold _make_layer. cbv zeta.
  apply holds_bind_get. intros s0 [Hl0 Hn0].
  apply (holds_bind _ _ (fun _ => True)).
  { destruct dilate; [|by apply holds_ret].
    apply (holds_bind _ _ (fun _ => True)); [by apply holds_modify|].
    intros _ _. by apply holds_ret. }
  intros stride' _. apply holds_bind_get. intros s1 _.
  apply (holds_bind _ _ block_per_sample).
  { apply holds_lift. intros b E.
    eapply block_new_per_sample; [exact Ht|exact Hn0| |exact E].
    intros f Ef. destruct (_ || _); [|done]. injection Ef as <-.
    apply (per_sample_compose
             (conv1x1 (inplanes s1) (planes * block_expansion cls) stride')
             (_norm_layer s0 (planes * block_expansion cls))); [|done].
    unfold conv1x1. apply Ht. }
  intros b Hb.
  apply (holds_bind _ _ (fun _ => True)); [by apply holds_modify|].
  intros _ _. apply holds_bind_get. intros s2 _.
  apply holds_lift. intros l E.
  eapply append_blocks_Forall; [|by constructor|exact E].
  intros b' E'.
  refine (block_new_per_sample _ _ _ _ _ _ _ _ _ _ _ _ Ht Hn0 _ E'). done.
Qed.

Lemma net_init_holds (c : NetCls) cls layers cnf (kw : Kwargs R) :
  torch_per_sample_layers ->
  (forall nl, kw_norm_layer kw = Some nl -> forall n, per_sample (nl n)) ->
  holds (net_init c cls layers cnf kw) (fun _ => True).
Proof.
  intros Ht Hkw.
  assert (forall n, per_sample (default BatchNorm2d (kw_norm_layer kw) n)) as Hnl.
  { destruct (kw_norm_layer kw) as [nl|]; [by apply Hkw|apply Ht]. }
  destruct Ht as (Hconv & Hbn & Hmp & Hap & Hlin).
  assert (torch_per_sample_layers) as Ht by done.
  destruct c; cbn [net_init];
    unfold SEWResNet.__init__, SEWResNet19.__init__, SEWResNetCifar.__init__,
      BaseModule__init__, init_attributes, init_groups;
    cbv zeta;
    (apply (holds_bind _ _ (fun _ => True));
       [by apply holds_modify|intros _ _]);
    (apply (holds_bind _ _ (fun _ => True));
       [apply holds_modify; intros s [Hl _]; by split|intros _ _]);
    (apply holds_if; [apply holds_raise|]);
    (apply (holds_bind _ _ (fun _ => True));
       [by apply holds_modify|intros _ _]);
    repeat (first
      [ apply holds_bind_get; intros ? _
      | apply holds_bind_lift; intros ? _
      | apply (holds_bind _ _ (fun _ => True));
          [apply holds_new_node|intros ? _]
      | apply (holds_bind _ _ (Forall block_per_sample));
          [by apply holds_make_layer|intros ? ?]
      | apply (holds_bind _ _ (fun _ => True));
          [apply holds_setattr; cbn [module_per_sample];
             first [exact I | assumption | apply Hconv | apply Hnl | apply Hmp
                   | apply Hap | apply Hlin]
          |intros _ _]
      | apply holds_setattr; cbn [module_per_sample];
          first [exact I | apply Hlin] ]).
Qed.

(** Every network a constructor returns has per-sample layers. *)
Lemma constructed_layers_per_sample (c : NetCls) cls layers cnf (kw : Kwargs R)
  (self : Net R Mem) :
  torch_per_sample_layers ->
  (forall nl, kw_norm_layer kw = Some nl -> forall n, per_sample (nl n)) ->
  construct (net_init c cls layers cnf kw) = Ok self ->
  layers_per_sample self.
Proof.
  intros Ht Hkw E. unfold construct in E.
  destruct (net_init_holds c cls layers cnf kw Ht Hkw blank) as [[Hl _] _].
  { split; [|apply Ht]. intros n m Em. cbn in Em. by rewrite lookup_empty in Em. }
  destruct (net_init c cls layers cnf kw blank) as [[u|e] s]; [|done].
  by injection E as <-.
Qed.

Lemma sew_resnet18_eq `{Checkpoints R Mem} progress cnf (kw : Kwargs R) :
  sew_resnet18 (Mem := Mem) false progress cnf kw
  = construct (net_init SEWResNetCls BasicBlockCls [2; 2; 2; 2] cnf kw).
Proof.
  unfold sew_resnet18, _sew_resnet. cbn [net_init].
  by destruct (construct _).
Qed.

End PerSampleConstruction.

(** *** The two strategies on the concrete instance *)

Section StrategyWitnesses.
#[local] Existing Instances Demo.Z_scalar Demo.if_node Demo.torch_per_sample
  Demo.framework Demo.checkpoints.
#[local] Open Scope Z_scope.

Lemma per_sample_tmap (g : Z -> Z) : per_sample (tmap g).
Proof. exists (tmap g). by intros l. Qed.

Lemma per_sample_id : per_sample (fun x : tensor Z => x).
Proof. exists (fun x => x). intros l. by rewrite list_fmap_id. Qed.

Lemma demo_torch_per_sample : torch_per_sample_layers.
Proof.
  repeat split; intros; first [apply per_sample_tmap | apply per_sample_id].
Qed.

Lemma tzip_list_length_r f (l1 : list (tensor Z)) : forall l2 l,
  tzip_list f l1 l2 = Ok l -> length l = length l2.
Proof.
  induction l1 as [|x l1 IH]; intros [|y l2] l E; simpl in E; try done.
  - by injection E as <-.
  - destruct (tzip f x y) as [z|e]; [|done]. simpl in E.
    destruct (tzip_list f l1 l2) as [zs|e] eqn:Ez; [|done]. simpl in E.
    injection E as <-. simpl. f_equal. by eapply IH.
Qed.

Lemma if_node_keeps_batch : node_keeps_batch.
Proof.
  intros s l. cbn [n_fire Demo.if_node]. unfold Demo.if_fire. cbn [fst].
  assert (exists l', match s with
                     | None => Stack l
                     | Some m => match tzip Z.add m (Stack l) with
                                 | Ok v => v
                                 | Raise _ => Stack l
                                 end
                     end = Stack l' /\ length l' = length l) as (l' & -> & Hl).
  { destruct s as [[r|lm]|]; [by exists l| |by exists l].
    rewrite tzip_Stack.
    destruct (tzip_list Z.add lm l) as [zs|e] eqn:Ez; [|by exists l].
    exists zs. split; [done|]. by eapply tzip_list_length_r. }
  exists (map (tmap (fun u => if (2 <=? u)%Z then 1%Z else 0%Z)) l').
  split; [done|]. by rewrite length_map.
Qed.

Lemma resnet18_layers_per_sample lbl step :
  layers_per_sample (Demo.resnet18 lbl false true step).
Proof.
  destruct (net_init_succeeds (R := Z) SEWResNetCls BasicBlockCls [2; 2; 2; 2]%nat
              (Some "ADD") (Demo.kwargs lbl false true step) eq_refl)
    as [self E]; [simpl; lia|by right|].
  assert (layers_per_sample self) as Hl.
  { eapply constructed_layers_per_sample;
      [apply demo_torch_per_sample| |exact E]. by intros nl. }
  unfold Demo.resnet18. rewrite sew_resnet18_eq, E. exact Hl.
Qed.

(** Looped and flattened execution of [sew_resnet18] on the batch
    [Demo.input] repeated for two timesteps. *)
Lemma flattened_pass_equals_looped_pass_witness :
  exists m,
    (net_forward SEWResNetCls Demo.input
       (net_mode false (Demo.direct_encoder 2 "direct" false)
          (Demo.resnet18 false false true 2))).1 = Ok (VTensor m) /\
    (net_forward SEWResNetCls Demo.input
       (net_mode true (Demo.direct_encoder 2 "direct" true)
          (Demo.resnet18 false false true 2))).1 = Ok (VTensor m) /\
    m = Stack [Stack [Scalar 9; Scalar 0]; Stack [Scalar 0; Scalar 9]].
Proof.
  pose (self := Demo.resnet18 false false true 2).
  pose (m := Stack [Stack [Scalar 9; Scalar 0]; Stack [Scalar 0; Scalar 9]]).
  pose (l0 := [Stack [Scalar 1; Scalar 0]; Stack [Scalar 0; Scalar 3]]).
  pose (s1 := (net_forward SEWResNetCls Demo.input
                 (net_mode false (Demo.direct_encoder 2 "direct" false) self)).2).
  assert (net_forward SEWResNetCls Demo.input
            (net_mode false (Demo.direct_encoder 2 "direct" false) self)
          = (Ok (VTensor m), s1)) as E by (vm_compute; reflexivity).
  assert (Forall (fun l : list (tensor Z) => length l = 2%nat) [l0; l0]) as Hall
    by (repeat constructor).
  assert (once self = false) as Ho by (vm_compute; reflexivity).
  assert (sum_output self = true) as Hsum by (vm_compute; reflexivity).
  assert (length [l0; l0] = step self) as HT by (vm_compute; reflexivity).
  destruct (flattened_pass_equals_looped_pass SEWResNetCls self
              (Demo.direct_encoder 2 "direct" false)
              (Demo.direct_encoder 2 "direct" true)
              Demo.input 2 [l0; l0] m s1
              if_node_keeps_batch (resnet18_layers_per_sample false 2)
              Ho Hsum HT Hall eq_refl eq_refl E eq_refl)
    as (s'' & _ & F).
  exists m. split; [exact (f_equal fst E)|]. split; [exact (f_equal fst F)|done].
Defined.

(** The layer-by-layer flag of the constructor is the flag [net_mode]
    sets. *)
Example resnet18_layer_by_layer :
  net_mode true (Demo.direct_encoder 2 "direct" true)
    (Demo.resnet18 false false true 2)
  = Demo.resnet18 true false true 2.
Proof. vm_compute. reflexivity. Qed.

(** With a normalisation layer that uses batch statistics the two
    strategies disagree: the flattened pass takes the statistics over
    the samples of all timesteps at once, the looped pass over the
    samples of one timestep. *)
Lemma flattened_pass_differs_with_batch_statistics :
  (net_forward SEWResNetCls Demo.input (Demo.centred18 false 2)).1
  = Ok (VTensor (Stack [Stack [Scalar 0; Scalar 0]; Stack [Scalar 0; Scalar 0]])) /\
  (net_forward SEWResNetCls Demo.input (Demo.centred18 true 2)).1
  = Ok (VTensor (Stack [Stack [Scalar 4; Scalar 0]; Stack [Scalar 0; Scalar 4]])) /\
  encoder (Demo.centred18 false 2) Demo.input
  = VList [Demo.input; Demo.input] /\
  encoder (Demo.centred18 true 2) Demo.input
  = VTensor (Stack [Stack [Scalar 1; Scalar 0]; Stack [Scalar 0; Scalar 3];
                    Stack [Scalar 1; Scalar 0]; Stack [Scalar 0; Scalar 3]]) /\
  (net_forward SEWResNetCls Demo.input (Demo.centred18 true 2)).1
  <> (net_forward SEWResNetCls Demo.input (Demo.centred18 false 2)).1.
Proof.
  assert ((net_forward SEWResNetCls Demo.input (Demo.centred18 false 2)).1
          = Ok (VTensor (Stack [Stack [Scalar 0; Scalar 0];
                                Stack [Scalar 0; Scalar 0]]))) as El
    by (vm_compute; reflexivity).
  assert ((net_forward SEWResNetCls Demo.input (Demo.centred18 true 2)).1
          = Ok (VTensor (Stack [Stack [Scalar 4; Scalar 0];
                                Stack [Scalar 0; Scalar 4]]))) as Ef
    by (vm_compute; reflexivity).
  split; [exact El|]. split; [exact Ef|].
  split; [vm_compute; reflexivity|]. split; [vm_compute; reflexivity|].
  rewrite El, Ef. discriminate.
Qed.

End StrategyWitnesses.

(** ** Further properties of the forward pass *)

Section ForwardFacts.
Context {R Mem : Type} `{ScalarOps R} `{NodeDynamics R Mem} `{Torch R} `{Framework R}.


(** X3: a looped network with [step = 0] runs no layer: with
    [sum_output] the mean [sum(outputs) / len(outputs)] of the empty
    list is the division by zero, without it the result is the empty
    list. *)
Theorem looped_pass_without_timesteps (c : NetCls) (x : tensor R)
  (self : Net R Mem) :
  once self = false -> layer_by_layer self = false -> step self = 0 ->
  net_forward c x self
  = (if sum_output self then Raise ZeroDivisionError else Ok (VList []),
     reset_net self).
Proof.
  intros Ho Hl Hs.
  rewrite net_forward_impl_mode, forward_impl_with_eq by done.
  cbv zeta. rewrite Hl, Hs. cbn [seq looped_outputs for_range ret].
  change (sum_output (reset_net self)) with (sum_output self).
  by destruct (sum_output self).
Qed.

Lemma bind_ext {St A B} (m : M St A) (k k' : A -> M St B) s :
  (forall a s1, k a s1 = k' a s1) -> bind m k s = bind m k' s.
Proof. intros Hk. unfold bind. by destruct (m s) as [[a|e] s1]. Qed.

(** The timestep loop run on slices it can read. *)
Lemma for_range_getitem (body : tensor R -> M (Net R Mem) (tensor R))
  (inputs inputs' : value R) ts : forall acc (s : Net R Mem),
  (forall t, t ∈ ts -> getitem inputs t = getitem inputs' t) ->
  for_range ts
    (fun t outputs =>
       x <- lift (getitem inputs t) ;; x <- body x ;; ret (outputs ++ [x]))
    acc s
  = for_range ts
      (fun t outputs =>
         x <- lift (getitem inputs' t) ;; x <- body x ;; ret (outputs ++ [x]))
      acc s.
Proof.
  induction ts as [|t ts IH]; intros acc s Hg; [done|].
  cbn [for_range]. rewrite (Hg t) by apply list_elem_of_here.
  apply bind_ext. intros a s1. apply IH.
  intros t' Ht'. apply Hg. by apply list_elem_of_further.
Qed.

(** X4: the timestep loop reads [inputs[0]], ..., [inputs[step - 1]]
    and nothing else of what the encoder returned: two encoder results
    that agree on these slices give the same outputs and leave the same
    state. *)
Theorem looped_outputs_reads_step_slices
  (body : tensor R -> M (Net R Mem) (tensor R)) (inputs inputs' : value R)
  (T : nat) (s : Net R Mem) :
  (forall t, t < T -> getitem inputs t = getitem inputs' t) ->
  looped_outputs body inputs (seq 0 T) s
  = looped_outputs body inputs' (seq 0 T) s.
Proof.
  intros Hg. unfold looped_outputs. apply for_range_getitem.
  intros t Ht. apply Hg. apply elem_of_seq in Ht. lia.
Qed.

Lemma for_range_short (body : tensor R -> M (Net R Mem) (tensor R)) xs :
  forall pre k acc (s : Net R Mem) ys s1,
  unroll body xs s = (Ok ys, s1) ->
  for_range (seq (length pre) (length xs + S k))
    (fun t outputs =>
       x <- lift (getitem (VList (pre ++ xs)) t) ;;
       x <- body x ;;
       ret (outputs ++ [x])) acc s
  = (Raise IndexError, s1).
Proof.
  induction xs as [|x xs IH]; intros pre k acc s ys s1 E.
  - injection E as <- <-. cbn [length Nat.add seq for_range].
    unfold bind, lift. cbn [getitem]. rewrite app_nil_r.
    by rewrite lookup_ge_None_2 by lia.
  - cbn [unroll] in E. apply bind_inv_ok in E as (y & sa & Ey & E).
    apply bind_inv_ok in E as (ys' & sb & Eys & E). injection E as <- <-.
    specialize (IH (pre ++ [x]) k (acc ++ [y]) sa ys' sb Eys).
    rewrite length_app, Nat.add_1_r, <- app_assoc in IH. cbn [app] in IH.
    cbn [length Nat.add seq for_range]. unfold bind, lift, ret in IH |- *.
    cbn [getitem]. rewrite lookup_app_r by lia. rewrite Nat.sub_diag.
    cbn [lookup list_lookup]. rewrite Ey. exact IH.
Qed.

(** X5: when the encoder returns fewer slices than [step], the
    timestep loop runs the layers on every slice there is and then
    raises IndexError at [inputs[t]]: no output is returned, and the
    nodes keep the state of the last slice. *)
Theorem looped_outputs_too_few_slices
  (body : tensor R -> M (Net R Mem) (tensor R)) (xs ys : list (tensor R))
  (T : nat) (s s1 : Net R Mem) :
  length xs < T ->
  unroll body xs s = (Ok ys, s1) ->
  looped_outputs body (VList xs) (seq 0 T) s = (Raise IndexError, s1).
Proof.
  intros Hlt E. unfold looped_outputs.
  replace T with (length xs + S (T - length xs - 1)) by lia.
  exact (for_range_short body xs [] _ [] s ys s1 E).
Qed.

End ForwardFacts.

(** ** Spike arithmetic of the combination function *)

Section Leaves.
Context {R : Type} `{ScalarOps R}.

Lemma leaves_tmap g (a : tensor R) : leaves (tmap g a) = g <$> leaves a.
Proof.
  induction a as [r|l IH] using tensor_ind'; [done|].
  cbn [tmap leaves]. induction IH as [|a l Ha _ IHl]; [done|].
  cbn [map flat_map]. by rewrite fmap_app, Ha, IHl.
Qed.

Lemma leaves_tzip f (a : tensor R) : forall b c,
  tzip f a b = Ok c ->
  leaves c = zip_with f (leaves a) (leaves b) /\
  length (leaves a) = length (leaves b).
Proof.
  induction a as [r|l IH] using tensor_ind'; intros [r'|l'] c E; try done.
  - cbn in E. by injection E as <-.
  - rewrite tzip_Stack in E.
    destruct (tzip_list f l l') as [zs|e] eqn:Ez; [|done].
    cbn in E. injection E as <-. cbn [leaves].
    revert l' zs Ez.
    induction IH as [|a l Ha _ IHl]; intros [|b l'] zs Ez; cbn in Ez; try done.
    + by injection Ez as <-.
    + destruct (tzip f a b) as [z|e] eqn:Eab; [|done]. cbn in Ez.
      destruct (tzip_list f l l') as [zs'|e] eqn:Ez'; [|done]. cbn in Ez.
      injection Ez as <-. cbn [flat_map].
      destruct (Ha _ _ Eab) as [Hz Hlen].
      destruct (IHl _ _ Ez') as [Hzs Hlens].
      split.
      * rewrite zip_with_app by done. by rewrite Hz, Hzs.
      * rewrite !length_app. lia.
Qed.

End Leaves.

Section SpikeArithmetic.
#[local] Existing Instance Demo.Z_scalar.
#[local] Open Scope Z_scope.

(** A tensor of spikes: every element is 0 or 1. *)
Definition binary (t : tensor Z) : Prop :=
  Forall (fun v => v = 0 \/ v = 1) (leaves t).

Lemma Forall_zip_with_closed (P Q : Z -> Prop) (f : Z -> Z -> Z) la : forall lb,
  (forall x y, P x -> P y -> Q (f x y)) ->
  Forall P la -> Forall P lb -> Forall Q (zip_with f la lb).
Proof.
  induction la as [|x la IH]; intros [|y lb] Hf Ha Hb; cbn; try constructor.
  - apply Forall_cons in Ha as [Hx _]. apply Forall_cons in Hb as [Hy _]. auto.
  - apply Forall_cons in Ha as [_ Ha]. apply Forall_cons in Hb as [_ Hb]. auto.
Qed.

(** X6: on tensors of spikes of equal shape, AND and IAND return a
    tensor of spikes, and ADD a tensor whose elements are 0, 1 or 2:
    the sum of two spikes is the only merge that leaves the binary
    range. *)
Theorem sew_function_on_spikes (a b : tensor Z) :
  same_shape a b = true -> binary a -> binary b ->
  (exists p, sew_function a b (Some "AND") = Ok p /\ binary p) /\
  (exists q, sew_function a b (Some "IAND") = Ok q /\ binary q) /\
  (exists s, sew_function a b (Some "ADD") = Ok s /\
             Forall (fun v => 0 <= v <= 2) (leaves s)).
Proof.
  intros Hs Ha Hb.
  destruct (tzip_ok Z.mul a b Hs) as (p & Ep & _).
  assert (same_shape a (tmap (Z.sub 1) b) = true) as Hs'
    by by rewrite same_shape_tmap_r.
  destruct (tzip_ok Z.mul a _ Hs') as (q & Eq & _).
  destruct (tzip_ok Z.add a b Hs) as (s & Es & _).
  split; [|split].
  - exists p. split; [exact Ep|].
    unfold binary. rewrite (proj1 (leaves_tzip _ _ _ _ Ep)).
    apply (Forall_zip_with_closed (fun v => v = 0 \/ v = 1)); [|done|done].
    intros x y [-> | ->] [-> | ->]; cbn; auto.
  - exists q. split; [exact Eq|].
    unfold binary. rewrite (proj1 (leaves_tzip _ _ _ _ Eq)), leaves_tmap.
    apply (Forall_zip_with_closed (fun v => v = 0 \/ v = 1)); [|done|].
    + intros x y [-> | ->] [-> | ->]; cbn; auto.
    + apply Forall_fmap. eapply Forall_impl; [exact Hb|].
      intros y [-> | ->]; cbn; auto.
  - exists s. split; [exact Es|].
    rewrite (proj1 (leaves_tzip _ _ _ _ Es)).
    apply (Forall_zip_with_closed (fun v => v = 0 \/ v = 1)); [|done|done].
    intros x y [-> | ->] [-> | ->]; cbn; lia.
Qed.

End SpikeArithmetic.

(** ** What the constructors build *)

Section Built.
Context {R Mem : Type} `{ScalarOps R} `{NodeDynamics R Mem} `{Torch R} `{Framework R}.

(** *** Layer stacks *)

Lemma block_new_fields cls i p st ds g w d nl cnf nd (b : block R Mem) :
  block_new cls i p st ds g w d nl cnf nd = Ok b ->
  block_class b = cls /\ block_stride b = st /\ block_downsample b = ds /\
  (is_Some (block_downsample_sn b) <-> is_Some ds).
Proof.
  intros E. destruct cls; cbn [block_new] in E.
  - unfold BasicBlock.__init__ in E. cbv zeta in E.
    destruct (negb (g =? 1) || negb (w =? 64)); [done|].
    destruct (1 <? d); [done|]. destruct nd as [n|]; [|done].
    cbn in E. injection E as <-. cbn.
    do 3 (split; [done|]).
    destruct ds; split; intros [? ?]; first [done | by eexists].
  - unfold Bottleneck.__init__ in E. cbv zeta in E.
    destruct nd as [n|]; [|done].
    cbn in E. injection E as <-. cbn.
    do 3 (split; [done|]).
    destruct ds; split; intros [? ?]; first [done | by eexists].
Qed.

Lemma append_blocks_inv n (mk : res (block R Mem)) : forall l0 l,
  append_blocks n mk l0 = Ok l ->
  (n = 0 /\ l = l0) \/ exists b, mk = Ok b /\ l = l0 ++ replicate n b.
Proof.
  induction n as [|n IH]; intros l0 l E; cbn in E.
  - left. by injection E as <-.
  - right. destruct mk as [b|e]; [|done]. cbn in E.
    exists b. split; [done|].
    destruct (IH _ _ E) as [[-> ->]|(b' & [= <-] & ->)].
    + done.
    + by rewrite <- app_assoc.
Qed.

Lemma make_layer_spec (cls : BlockCls) (planes blocks stride : nat)
  (dilate : bool) (cnf : option string) (nd : option (Node Mem))
  (s s' : Net R Mem) (l : list (block R Mem)) :
  _make_layer cls planes blocks stride dilate cnf nd s = (Ok l, s') ->
  let stride' := if dilate then 1 else stride in
  length l = Nat.max 1 blocks /\
  Forall (fun b => block_class b = cls) l /\
  Forall block_wired l /\
  (exists b0 bs, l = b0 :: bs /\
     block_stride b0 = stride' /\
     (is_Some (block_downsample b0) <->
      stride' <> 1 \/ inplanes s <> planes * block_expansion cls) /\
     Forall (fun b => block_stride b = 1 /\ block_downsample b = None) bs) /\
  inplanes s' = planes * block_expansion cls /\
  dilation s' = (if dilate then dilation s * stride else dilation s) /\
  _modules s' = _modules s.
Proof.
  intros E stride'. unfold _make_layer in E. cbv zeta in E.
  assert (exists s0 : Net R Mem,
            (if dilate
             then (modify (set_dilation (dilation s * stride));;; ret 1)
             else ret stride) s = (Ok stride', s0) /\
            inplanes s0 = inplanes s /\ groups s0 = groups s /\
            base_width s0 = base_width s /\ _norm_layer s0 = _norm_layer s /\
            dilation s0 = (if dilate then dilation s * stride else dilation s) /\
            _modules s0 = _modules s) as (s0 & E0 & Hi & Hg & Hw & Hn & Hd & Hm).
  { subst stride'. destruct dilate; eexists; (split; [reflexivity|done]). }
  cbn [bind get] in E. unfold bind at 1 in E. rewrite E0 in E.
  cbn [bind get lift] in E.
  match type of E with context [block_new ?c ?i ?p ?st ?ds ?g ?w ?d ?nl ?cn ?n] =>
    destruct (block_new c i p st ds g w d nl cn n) as [b0|e] eqn:Eb0; [|done];
    apply block_new_fields in Eb0 as (Hc0 & Hs0 & Hd0 & Hw0)
  end.
  cbn [bind get lift modify] in E.
  match type of E with context [append_blocks ?k ?mk ?l0] =>
    destruct (append_blocks k mk l0) as [l1|e] eqn:Ea; [|done];
    apply append_blocks_inv in Ea
  end.
  injection E as <- <-.
  cbn [inplanes dilation _modules set_inplanes].
  assert (exists bs, l1 = b0 :: bs /\ length bs = blocks - 1 /\
            Forall (fun b => block_class b = cls /\ block_stride b = 1 /\
                             block_downsample b = None /\ block_wired b) bs)
    as (bs & -> & Hlen & Hbs).
  { destruct Ea as [[Hn0 ->]|(b & Eb & ->)].
    - exists []. by rewrite Hn0.
    - exists (replicate (blocks - 1) b). split; [done|].
      split; [by rewrite length_replicate|].
      apply block_new_fields in Eb as (Hc & Hs & Hd' & Hw').
      apply Forall_replicate. do 3 (split; [done|]).
      intros Hsome. rewrite Hd' in Hsome. by destruct Hsome. }
  split; [simpl; lia|].
  split.
  { constructor; [done|]. eapply Forall_impl; [exact Hbs|]. by intros b (? & _). }
  split.
  { constructor; [intros Hsome; apply Hw0; by rewrite <- Hd0|].
    eapply Forall_impl; [exact Hbs|]. by intros b (_ & _ & _ & ?). }
  split.
  { exists b0, bs. split; [done|]. split; [done|]. split.
    - rewrite Hd0, Hi.
      destruct (negb (stride' =? 1) || negb (inplanes s =? planes * block_expansion cls))
        eqn:Ec.
      + split; [|by eexists]. intros _.
        apply orb_true_iff in Ec as [Ec|Ec]; apply negb_true_iff in Ec;
          apply Nat.eqb_neq in Ec; auto.
      + apply orb_false_iff in Ec as [Ec1 Ec2].
        apply negb_false_iff, Nat.eqb_eq in Ec1.
        apply negb_false_iff, Nat.eqb_eq in Ec2.
        split; [by intros [? ?]|]. intros [?|?]; done.
    - eapply Forall_impl; [exact Hbs|]. by intros b (_ & ? & ? & _). }
  done.
Qed.

(** X7: what [_make_layer] returns when it returns: [max(1, blocks)]
    blocks of the class asked for (the first block is built before the
    loop [for _ in range(1, blocks)], so [blocks = 0] gives one block as
    [blocks = 1] does); the first block has the effective stride (1 when
    the stride is replaced by dilation) and a projection shortcut exactly
    when that stride is not 1 or the number of input planes changes;
    every later block has stride 1 and no shortcut; a block with a
    shortcut has the node [downsample_sn] that follows it; the network's
    [inplanes] becomes [planes * expansion], its [dilation] is multiplied
    by the stride when [dilate] is set, and no child is added. *)
Theorem _make_layer_returns (cls : BlockCls) (planes blocks stride : nat)
  (dilate : bool) (cnf : option string) (nd : option (Node Mem))
  (s s' : Net R Mem) (l : list (block R Mem)) :
  _make_layer cls planes blocks stride dilate cnf nd s = (Ok l, s') ->
  let stride' := if dilate then 1 else stride in
  length l = Nat.max 1 blocks /\
  Forall (fun b => block_class b = cls) l /\
  Forall block_wired l /\
  (exists b0 bs, l = b0 :: bs /\
     block_stride b0 = stride' /\
     (is_Some (block_downsample b0) <->
      stride' <> 1 \/ inplanes s <> planes * block_expansion cls) /\
     Forall (fun b => block_stride b = 1 /\ block_downsample b = None) bs) /\
  inplanes s' = planes * block_expansion cls /\
  dilation s' = (if dilate then dilation s * stride else dilation s) /\
  _modules s' = _modules s.
Proof. apply make_layer_spec. Qed.

End Built.

(** *** The children of a constructed network *)

Section Children.
Context {R Mem : Type} `{ScalarOps R} `{NodeDynamics R Mem} `{Torch R} `{Framework R}.

(** [Q] holds of the value and the state whenever [m] returns. *)
Definition wp {A} (m : M (Net R Mem) A) (Q : A -> Net R Mem -> Prop)
  (s : Net R Mem) : Prop :=
  match m s with
  | (Ok a, s') => Q a s'
  | (Raise _, _) => True
  end.

Lemma wp_bind {A B} (m : M (Net R Mem) A) (k : A -> M (Net R Mem) B) Q s :
  wp m (fun a => wp (k a) Q) s -> wp (bind m k) Q s.
Proof. unfold wp, bind. by destruct (m s) as [[a|e] s1]. Qed.

Lemma wp_ret {A} (a : A) (Q : A -> Net R Mem -> Prop) s : Q a s -> wp (ret a) Q s.
Proof. done. Qed.

Lemma wp_raise {A} e (Q : A -> Net R Mem -> Prop) s : wp (raise e) Q s.
Proof. done. Qed.

Lemma wp_lift {A} (r : res A) (Q : A -> Net R Mem -> Prop) s :
  (forall a, r = Ok a -> Q a s) -> wp (lift r) Q s.
Proof. intros Hr. unfold wp, lift. destruct r; [by apply Hr|done]. Qed.

Lemma wp_get (Q : Net R Mem -> Net R Mem -> Prop) s : Q s s -> wp get Q s.
Proof. done. Qed.

Lemma wp_modify f (Q : unit -> Net R Mem -> Prop) s :
  Q tt (f s) -> wp (modify f) Q s.
Proof. done. Qed.

Lemma wp_if {A} (b : bool) (m1 m2 : M (Net R Mem) A) Q s :
  wp m1 Q s -> wp m2 Q s -> wp (if b then m1 else m2) Q s.
Proof. by destruct b. Qed.

Lemma wp_new_node (Q : Node Mem -> Net R Mem -> Prop) s :
  (forall n, node s = Some n -> Q n s) -> wp new_node Q s.
Proof.
  intros Hq. unfold wp, new_node, bind, get.
  destruct (node s) as [n|]; [by apply Hq|done].
Qed.

Lemma wp_make_layer cls planes blocks stride dilate cnf nd
  (Q : list (block R Mem) -> Net R Mem -> Prop) s :
  (forall l s', _modules s' = _modules s ->
     length l = Nat.max 1 blocks ->
     Forall (fun b => block_class b = cls) l ->
     Forall block_wired l -> Q l s') ->
  wp (_make_layer cls planes blocks stride dilate cnf nd) Q s.
Proof.
  intros Hq. unfold wp.
  destruct (_make_layer _ _ _ _ _ _ _ s) as [[l|e] s'] eqn:E; [|done].
  destruct (make_layer_spec _ _ _ _ _ _ _ _ _ _ E)
    as (Hl & Hc & Hw & _ & _ & _ & Hm).
  by apply Hq.
Qed.

Lemma wp_construct (init : M (Net R Mem) unit) (Q : Net R Mem -> Prop) self :
  wp init (fun _ => Q) blank -> construct init = Ok self -> Q self.
Proof.
  unfold wp, construct. destruct (init blank) as [[u|e] s]; [|done].
  by intros Hq [= <-].
Qed.

(** What a finished [__init__] leaves: the children, and in each layer
    attribute a stack of the size [_make_layer] gives. *)
Definition built (c : NetCls) (cls : BlockCls) (layers : list nat)
  (self : Net R Mem) : Prop :=
  dom (_modules self) = list_to_set (children c) /\
  map_Forall (fun _ m => module_wired m) (_modules self) /\
  forall i n, i < stacks c -> layers !! i = Some n ->
    exists l, _modules self !! layer_name i = Some (MSequential l) /\
              length l = Nat.max 1 n /\
              Forall (fun b => block_class b = cls) l.

Ltac init_step :=
  lazymatch goal with
  | |- wp (raise _) _ _ => apply wp_raise
  | |- wp (if _ then raise _ else _) _ _ => apply wp_if; [apply wp_raise|]
  | |- wp (bind get _) _ _ => apply wp_bind, wp_get
  | |- wp (bind (modify _) _) _ _ => apply wp_bind, wp_modify
  | |- wp (bind new_node _) _ _ => apply wp_bind, wp_new_node; intros ? _
  | |- wp (bind (lift _) _) _ _ => apply wp_bind, wp_lift; intros ? ?
  | |- wp (bind (_make_layer _ _ _ _ _ _ _) _) _ _ =>
      apply wp_bind, wp_make_layer; intros ? ? ? ? ? ?
  | |- wp (modify _) _ _ => apply wp_modify
  end;
  cbv beta.

Ltac read_modules :=
  repeat first
    [ progress cbn [_modules with_modules]
    | rewrite lookup_insert_eq
    | rewrite lookup_insert_ne by done
    | rewrite dom_insert_L
    | match goal with
      | Hm : _modules ?s = _ |- context [_modules ?s] => rewrite Hm
      end ].

Lemma index_Some {A} (l : list A) i a : index l i = Ok a -> l !! i = Some a.
Proof. unfold index. by destruct (l !! i) as [x|]; intros [= <-]. Qed.

Lemma net_init_built (c : NetCls) cls layers cnf (kw : Kwargs R) :
  wp (net_init c cls layers cnf kw) (fun _ => built c cls layers) blank.
Proof.
  destruct c; cbn [net_init];
    unfold SEWResNet.__init__, SEWResNet19.__init__, SEWResNetCifar.__init__,
      BaseModule__init__, init_attributes, init_groups, setattr;
    cbv zeta;
    do 4 init_step;
    match goal with |- wp _ _ ?s =>
      assert (_modules s = ∅) as Hm0 by reflexivity;
      generalize dependent s; intros s0 Hm0
    end;
    repeat init_step;
    repeat match goal with E : index _ _ = Ok _ |- _ => apply index_Some in E end;
    (split; [|split];
     [ read_modules; rewrite dom_empty_L; cbn [children list_to_set]; set_solver
     | repeat first
         [ progress cbn [_modules with_modules]
         | apply map_Forall_insert_2; [by cbn [module_wired]|]
         | match goal with
           | Hm : _modules ?s = _ |- context [_modules ?s] => rewrite Hm
           end ];
       apply map_Forall_empty
     | intros i k Hi Hk; cbn [stacks] in Hi;
       destruct i as [|[|[|[|i]]]]; try lia; cbn [layer_name];
       read_modules; eexists; (split; [reflexivity|]);
       (split; [congruence|assumption]) ]).
Qed.

End Children.

Section BuiltNetworks.
Context {R Mem : Type} `{ScalarOps R} `{NodeDynamics R Mem} `{Torch R} `{Framework R}.


(** X9: in a constructed network the [i]-th layer attribute holds a
    [Sequential] of [max(1, layers[i])] blocks of the block class: an
    entry 0 of [layers] gives a stack of one block. *)
Theorem constructed_layer_stacks (c : NetCls) (cls : BlockCls)
  (layers : list nat) (cnf : option string) (kw : Kwargs R) (self : Net R Mem)
  (i n : nat) :
  construct (net_init c cls layers cnf kw) = Ok self ->
  i < stacks c -> layers !! i = Some n ->
  exists l, _modules self !! layer_name i = Some (MSequential l) /\
            length l = Nat.max 1 n /\
            Forall (fun b => block_class b = cls) l.
Proof.
  intros E Hi Hn.
  destruct (wp_construct _ _ _ (net_init_built c cls layers cnf kw) E)
    as (_ & _ & Hl).
  by apply Hl.
Qed.

(** *** No attribute is missed *)

Definition no_attr {A} (r : res A) : Prop :=
  forall n, r <> Raise (AttributeError n).

Lemma no_attr_Ok {A} (a : A) : no_attr (Ok a).
Proof. by intros n. Qed.

Lemma no_attr_bind {A B} (r : res A) (k : A -> res B) :
  no_attr r -> (forall a, no_attr (k a)) -> no_attr (res_bind r k).
Proof.
  intros Hr Hk. destruct r as [a|e]; [apply Hk|].
  intros n E. cbn in E. injection E as ->. by apply (Hr n).
Qed.

Lemma unstack_no_attr (x : tensor R) : no_attr (unstack x).
Proof. by destruct x. Qed.

Lemma time_slices_no_attr T (l : list (tensor R)) : no_attr (time_slices T l).
Proof. unfold time_slices. by destruct (_ || _). Qed.

Lemma res_mapM_no_attr {A B} (f : A -> res B) l :
  (forall a, no_attr (f a)) -> no_attr (res_mapM f l).
Proof.
  intros Hf. induction l as [|a l IH]; [done|]. cbn [res_mapM].
  apply no_attr_bind; [done|]. intros b.
  apply no_attr_bind; [done|]. by intros bs.
Qed.

Lemma cat0_no_attr (ts : list (tensor R)) : no_attr (cat0 ts).
Proof.
  unfold cat0. apply no_attr_bind; [|by intros l].
  apply res_mapM_no_attr, unstack_no_attr.
Qed.

Lemma Node_forward_no_attr x (n : Node Mem) : no_attr (Node_forward x n).1.
Proof.
  unfold Node_forward. destruct (n_layer_by_layer n).
  - destruct (res_bind (unstack x) _) as [xs|e] eqn:E.
    + destruct (n_unroll _ _). apply cat0_no_attr.
    + intros k Ek. cbn in Ek. injection Ek as ->. revert E.
      apply (no_attr_bind (unstack x) (time_slices (n_step n)));
        [apply unstack_no_attr|]. intros l. apply time_slices_no_attr.
  - by destruct (n_fire _ _).
Qed.

Lemma tzip_no_attr f (a : tensor R) : forall b, no_attr (tzip f a b).
Proof.
  induction a as [r|l IH] using tensor_ind'; intros [r'|l']; try done.
  rewrite tzip_Stack. apply no_attr_bind; [|by intros zs].
  revert l'. induction IH as [|a l Ha _ IHl]; intros [|b l']; try done.
  cbn [tzip_list]. apply no_attr_bind; [apply Ha|]. intros z.
  apply no_attr_bind; [apply IHl|]. by intros zs.
Qed.

Lemma sew_function_no_attr (x y : tensor R) cnf : no_attr (sew_function x y cnf).
Proof.
  unfold sew_function, tadd, tmul.
  repeat case_decide; try apply tzip_no_attr. done.
Qed.

Lemma Node_forward_cases x (n : Node Mem) :
  exists r n', Node_forward x n = (r, n') /\ no_attr r.
Proof.
  pose proof (Node_forward_no_attr x n) as Hn.
  destruct (Node_forward x n) as [r n']. by exists r, n'.
Qed.

Ltac node_call r n' E Hr :=
  match goal with |- context [Node_forward ?x ?n] =>
    destruct (Node_forward_cases x n) as (r & n' & E & Hr); rewrite E
  end.

Lemma BasicBlock_main_path_safe x (b : @BasicBlock.t R Mem) :
  no_attr (BasicBlock.main_path x b).1 /\
  BasicBlock.downsample (BasicBlock.main_path x b).2 = BasicBlock.downsample b /\
  BasicBlock.downsample_sn (BasicBlock.main_path x b).2
  = BasicBlock.downsample_sn b.
Proof.
  destruct b as [c1 b1 n1 c2 b2 n2 ds sn st cnf].
  rewrite BasicBlock_main_path_eq. cbn -[Node_forward].
  node_call r1 n1' E1 Hr1. destruct r1 as [o1|e]; [|by split].
  node_call r2 n2' E2 Hr2. by split.
Qed.

Lemma BasicBlock_shortcut_safe x i (b : @BasicBlock.t R Mem) :
  block_wired (Basic b) ->
  no_attr (BasicBlock.shortcut x i b).1 /\
  block_wired (Basic (BasicBlock.shortcut x i b).2).
Proof.
  destruct b as [c1 b1 n1 c2 b2 n2 ds sn st cnf].
  unfold block_wired. cbn [block_downsample block_downsample_sn
    BasicBlock.downsample BasicBlock.downsample_sn]. intros Hw.
  rewrite BasicBlock_shortcut_eq. cbn -[Node_forward].
  destruct ds as [ds|]; [|done].
  destruct sn as [sn|]; [|by destruct Hw].
  node_call r3 n3' E3 Hr3. split; [done|]. by eexists.
Qed.

Lemma BasicBlock_forward_safe x (b : @BasicBlock.t R Mem) :
  block_wired (Basic b) ->
  no_attr (BasicBlock.forward x b).1 /\
  block_wired (Basic (BasicBlock.forward x b).2).
Proof.
  intros Hw. rewrite BasicBlock_forward_eq.
  destruct (BasicBlock_main_path_safe x b) as (Hr1 & Hd1 & Hs1).
  destruct (BasicBlock.main_path x b) as [[out|e] b1]; cbn [fst snd] in *;
    (assert (block_wired (Basic b1)) as Hw1
       by (unfold block_wired in *; cbn [block_downsample block_downsample_sn] in *;
           by rewrite Hd1, Hs1)); [|done].
  destruct (BasicBlock_shortcut_safe x x b1 Hw1) as [Hr2 Hw2].
  destruct (BasicBlock.shortcut x x b1) as [[idn|e] b2]; cbn [fst snd] in *;
    [|done].
  split; [apply sew_function_no_attr|done].
Qed.

Lemma Bottleneck_main_path_safe x (b : @Bottleneck.t R Mem) :
  no_attr (Bottleneck.main_path x b).1 /\
  Bottleneck.downsample (Bottleneck.main_path x b).2 = Bottleneck.downsample b /\
  Bottleneck.downsample_sn (Bottleneck.main_path x b).2
  = Bottleneck.downsample_sn b.
Proof.
  destruct b as [c1 b1 n1 c2 b2 n2 c3 b3 n3 ds sn st cnf].
  rewrite Bottleneck_main_path_eq. cbn -[Node_forward].
  node_call r1 n1' E1 Hr1. destruct r1 as [o1|e]; [|by split].
  node_call r2 n2' E2 Hr2. destruct r2 as [o2|e]; [|by split].
  node_call r3 n3' E3 Hr3. by split.
Qed.

Lemma Bottleneck_shortcut_safe x i (b : @Bottleneck.t R Mem) :
  block_wired (Bottle b) ->
  no_attr (Bottleneck.shortcut x i b).1 /\
  block_wired (Bottle (Bottleneck.shortcut x i b).2).
Proof.
  destruct b as [c1 b1 n1 c2 b2 n2 c3 b3 n3 ds sn st cnf].
  unfold block_wired. cbn [block_downsample block_downsample_sn
    Bottleneck.downsample Bottleneck.downsample_sn]. intros Hw.
  rewrite Bottleneck_shortcut_eq. cbn -[Node_forward].
  destruct ds as [ds|]; [|done].
  destruct sn as [sn|]; [|by destruct Hw].
  node_call r3 n3' E3 Hr3. split; [done|]. by eexists.
Qed.

Lemma Bottleneck_forward_safe x (b : @Bottleneck.t R Mem) :
  block_wired (Bottle b) ->
  no_attr (Bottleneck.forward x b).1 /\
  block_wired (Bottle (Bottleneck.forward x b).2).
Proof.
  intros Hw. rewrite Bottleneck_forward_eq.
  destruct (Bottleneck_main_path_safe x b) as (Hr1 & Hd1 & Hs1).
  destruct (Bottleneck.main_path x b) as [[out|e] b1]; cbn [fst snd] in *;
    (assert (block_wired (Bottle b1)) as Hw1
       by (unfold block_wired in *; cbn [block_downsample block_downsample_sn] in *;
           by rewrite Hd1, Hs1)); [|done].
  destruct (Bottleneck_shortcut_safe x x b1 Hw1) as [Hr2 Hw2].
  destruct (Bottleneck.shortcut x x b1) as [[idn|e] b2]; cbn [fst snd] in *;
    [|done].
  split; [apply sew_function_no_attr|done].
Qed.

Lemma block_forward_safe x (b : block R Mem) :
  block_wired b ->
  no_attr (block_forward x b).1 /\ block_wired (block_forward x b).2.
Proof.
  destruct b as [b|b]; intros Hw; cbn [block_forward].
  - destruct (BasicBlock_forward_safe x b Hw) as [Hr Hw'].
    by destruct (BasicBlock.forward x b).
  - destruct (Bottleneck_forward_safe x b Hw) as [Hr Hw'].
    by destruct (Bottleneck.forward x b).
Qed.

Lemma Sequential_forward_safe (bs : list (block R Mem)) : forall x,
  Forall block_wired bs ->
  no_attr (Sequential_forward x bs).1 /\
  Forall block_wired (Sequential_forward x bs).2.
Proof.
  induction bs as [|b bs IH]; intros x Hw; [done|].
  apply Forall_cons in Hw as [Hb Hbs]. cbn [Sequential_forward].
  destruct (block_forward_safe x b Hb) as [Hr Hb'].
  destruct (block_forward x b) as [[y|e] b']; cbn [fst snd] in *.
  - destruct (IH y Hbs) as [Hr' Hbs'].
    destruct (Sequential_forward y bs) as [r bs']. cbn [fst snd] in *.
    split; [done|by constructor].
  - split; [done|by constructor].
Qed.

Lemma module_forward_safe x (m : module R Mem) :
  module_wired m ->
  no_attr (module_forward x m).1 /\ module_wired (module_forward x m).2.
Proof.
  destruct m as [f|n|bs]; intros Hw; cbn [module_forward].
  - done.
  - pose proof (Node_forward_no_attr x n). by destruct (Node_forward x n).
  - destruct (Sequential_forward_safe bs x Hw) as [Hr Hw'].
    by destruct (Sequential_forward x bs).
Qed.

End BuiltNetworks.

Section NoMissingAttribute.
Context {R Mem : Type} `{ScalarOps R} `{NodeDynamics R Mem} `{Torch R} `{Framework R}.

(** A network that has the children [L], every block with its shortcut
    node. *)
Definition wired_with (L : list string) (s : Net R Mem) : Prop :=
  map_Forall (fun _ m => module_wired m) (_modules s) /\
  Forall (fun n => is_Some (_modules s !! n)) L.

Definition safe (L : list string) {A} (m : M (Net R Mem) A) : Prop :=
  forall s, wired_with L s -> wired_with L (m s).2 /\ no_attr (m s).1.

Lemma safe_bind L {A B} (m : M (Net R Mem) A) (k : A -> M (Net R Mem) B) :
  safe L m -> (forall a, safe L (k a)) -> safe L (bind m k).
Proof.
  intros Hm Hk s Hs. destruct (Hm s Hs) as [Hs1 Hr]. unfold bind.
  destruct (m s) as [[a|e] s1]; cbn [fst snd] in *; [by apply Hk|].
  split; [done|]. intros n E. injection E as ->. by apply (Hr n).
Qed.

Lemma safe_ret L {A} (a : A) : safe L (ret a).
Proof. by intros s Hs. Qed.

Lemma safe_get L : safe L get.
Proof. by intros s Hs. Qed.

Lemma safe_lift L {A} (r : res A) : no_attr r -> safe L (lift r).
Proof. by intros Hr s Hs. Qed.

Lemma safe_if L {A} (b : bool) (m1 m2 : M (Net R Mem) A) :
  safe L m1 -> safe L m2 -> safe L (if b then m1 else m2).
Proof. by destruct b. Qed.

Lemma safe_for_range L {A} ts (body : nat -> A -> M (Net R Mem) A) :
  (forall t a, safe L (body t a)) -> forall acc, safe L (for_range ts body acc).
Proof.
  intros Hb. induction ts as [|t ts IH]; intros acc; cbn [for_range].
  - apply safe_ret.
  - apply safe_bind; auto.
Qed.

Lemma safe_call L name x : name ∈ L -> safe L (call name x).
Proof.
  intros Hin s (Hw & Hp). unfold call.
  assert (is_Some (_modules s !! name)) as [m Em].
  { rewrite Forall_forall in Hp. by apply Hp. }
  rewrite Em.
  destruct (module_forward_safe x m (Hw _ _ Em)) as [Hr Hw'].
  destruct (module_forward x m) as [r m']. cbn [fst snd] in *.
  split; [|done]. unfold wired_with. cbn [_modules with_modules]. split.
  - by apply map_Forall_insert_2.
  - eapply Forall_impl; [exact Hp|]. intros k Hk. cbn beta in *.
    rewrite lookup_insert_is_Some'. by right.
Qed.

Lemma safe_run_chain L sts : stage_names sts ⊆ L ->
  forall x, safe L (run_chain sts x).
Proof.
  induction sts as [|[name|] sts IH]; intros Hsub x; cbn [run_chain run_stage].
  - apply safe_ret.
  - apply safe_bind.
    + apply safe_call. apply Hsub. cbn. apply list_elem_of_here.
    + apply IH. intros k Hk. apply Hsub. cbn. by apply list_elem_of_further.
  - apply safe_bind; [|by apply IH].
    apply safe_lift. by destruct x.
Qed.

Lemma block_wired_reset (b : block R Mem) :
  block_wired b -> block_wired (block_reset b).
Proof.
  destruct b as [[c1 b1 n1 c2 b2 n2 ds sn st cnf]
                |[c1 b1 n1 c2 b2 n2 c3 b3 n3 ds sn st cnf]];
    unfold block_wired; cbn; intros Hw Hd; destruct (Hw Hd) as [n ->];
    by eexists.
Qed.

Lemma safe_reset L : safe L reset.
Proof.
  intros s (Hw & Hp). split; [|done]. unfold wired_with.
  cbn [reset modify snd _modules with_modules]. split.
  - intros k m Em. rewrite lookup_fmap in Em.
    destruct (_modules s !! k) as [m0|] eqn:E0; [|done].
    injection Em as <-. specialize (Hw k m0 E0).
    destruct m0 as [f|n|bs]; [done|done|]. cbn in *.
    apply Forall_fmap. eapply Forall_impl; [exact Hw|].
    intros b. apply block_wired_reset.
  - eapply Forall_impl; [exact Hp|]. intros k Hk. cbn beta in *.
    rewrite lookup_fmap. by apply fmap_is_Some.
Qed.

Lemma tadd_all_no_attr (os : list (tensor R)) : forall acc,
  no_attr (tadd_all acc os).
Proof.
  induction os as [|o os IH]; intros acc; [done|]. cbn [tadd_all].
  apply no_attr_bind; [apply tzip_no_attr|]. intros a. apply IH.
Qed.

Lemma py_mean_no_attr (outs : list (tensor R)) : no_attr (py_mean outs).
Proof.
  destruct outs as [|o os]; [done|]. unfold py_mean.
  apply no_attr_bind; [apply tadd_all_no_attr|]. by intros s.
Qed.

Lemma mean0_no_attr (x : tensor R) : no_attr (mean0 x).
Proof.
  destruct x as [r|[|o os]]; try done. unfold mean0.
  apply no_attr_bind; [apply tadd_all_no_attr|]. by intros s.
Qed.

Lemma rearrange_tbc_no_attr T (x : tensor R) : no_attr (rearrange_tbc T x).
Proof.
  unfold rearrange_tbc. case_decide; [|done].
  apply no_attr_bind; [apply unstack_no_attr|]. intros l.
  apply no_attr_bind; [apply time_slices_no_attr|]. by intros xs.
Qed.

Lemma getitem_no_attr (inputs : value R) t : no_attr (getitem inputs t).
Proof.
  destruct inputs as [[r|l]|l]; cbn [getitem]; try done;
    by destruct (l !! t).
Qed.

Lemma safe_forward_impl L body x :
  (forall y, safe L (body y)) -> safe L (forward_impl_with body x).
Proof.
  intros Hb. unfold forward_impl_with.
  apply safe_bind; [apply safe_get|]. intros s0.
  apply safe_bind; [apply safe_reset|]. intros _.
  apply safe_bind; [apply safe_get|]. intros s1.
  apply safe_if.
  - apply safe_bind; [apply safe_lift; by destruct (encoder s0 x)|]. intros y.
    apply safe_bind; [apply Hb|]. intros z.
    apply safe_bind; [apply safe_get|]. intros s2.
    apply safe_bind; [apply safe_lift, rearrange_tbc_no_attr|]. intros w.
    apply safe_bind; [apply safe_get|]. intros s3.
    apply safe_bind; [|intros v; apply safe_ret].
    apply safe_if; [apply safe_lift, mean0_no_attr|apply safe_ret].
  - apply safe_bind.
    + apply safe_for_range. intros t a.
      apply safe_bind; [apply safe_lift, getitem_no_attr|]. intros y.
      apply safe_bind; [apply Hb|]. intros z. apply safe_ret.
    + intros outs.
      apply safe_bind; [apply safe_get|]. intros s2.
      apply safe_if; [apply safe_ret|].
      apply safe_bind; [apply safe_lift, py_mean_no_attr|].
      intros v. apply safe_ret.
Qed.

Lemma safe_net_forward (c : NetCls) L x (s : Net R Mem) :
  stage_names (if once s then once_stages else body_stages c) ⊆ L ->
  wired_with L s ->
  wired_with L (net_forward c x s).2 /\ no_attr (net_forward c x s).1 /\
  once (net_forward c x s).2 = once s.
Proof.
  intros Hsub Hs. destruct (once s) eqn:Ho.
  - rewrite net_forward_once_mode, net_forward_once_chain by done.
    destruct (safe_run_chain L once_stages Hsub x s Hs) as [Hs' Hr].
    pose proof (keeps_reset_run_chain once_stages x s) as Hk.
    destruct (run_chain once_stages x s) as [r s']. cbn [fst snd] in *.
    split; [done|]. split.
    + destruct r as [y|e]; [done|]. intros n E. cbn in E.
      injection E as ->. by apply (Hr n).
    + rewrite <- Ho. exact (f_equal once Hk).
  - rewrite net_forward_impl_mode by done.
    assert (forall y, safe L (net_body c y)) as Hb.
    { intros y. rewrite net_body_chain. by apply safe_run_chain. }
    destruct (safe_forward_impl L (net_body c) x Hb s Hs) as [Hs' Hr].
    split; [done|]. split; [done|].
    assert (forall y, keeps_reset (net_body (Mem := Mem) c y)) as Hkb.
    { intros y. rewrite net_body_chain. apply keeps_reset_run_chain. }
    pose proof (keeps_reset_forward_impl (net_body c) x Hkb s) as Hk.
    rewrite <- Ho. exact (f_equal once Hk).
Qed.

Lemma body_stages_children (c : NetCls) :
  Forall (fun n => n ∈ children c) (stage_names (body_stages c)).
Proof.
  destruct c; cbn; repeat (apply Forall_cons_2; [set_solver|]); apply Forall_nil_2.
Qed.

(** X10: a network built by a constructor never fails for a missing
    attribute in multi-step mode, nor, for the class SEWResNet, in
    single-pass mode: whatever inputs it was called on before, a
    forward call does not raise AttributeError.  Every layer that the
    chain calls was assigned by [__init__], and every block that has a
    projection shortcut has the node behind it. *)
Theorem forward_never_misses_attribute (c : NetCls) (cls : BlockCls)
  (layers : list nat) (cnf : option string) (kw : Kwargs R) (self : Net R Mem)
  (xs : list (tensor R)) (x : tensor R) (name : string) :
  construct (net_init c cls layers cnf kw) = Ok self ->
  c = SEWResNetCls \/ once self = false ->
  (net_forward c x (foldl (fun s y => (net_forward c y s).2) self xs)).1
  <> Raise (AttributeError name).
Proof.
  intros E Hmode.
  destruct (wp_construct _ _ _ (net_init_built c cls layers cnf kw) E)
    as (Hdom & Hw & _).
  assert (wired_with (stage_names (body_stages c)) self) as Hs.
  { split; [done|].
    eapply Forall_impl; [apply body_stages_children|]. intros k Hk. cbn beta in *.
    apply elem_of_dom. rewrite Hdom. by apply elem_of_list_to_set. }
  assert (forall s : Net R Mem, once s = once self ->
            stage_names (if once s then once_stages else body_stages c)
            ⊆ stage_names (body_stages c)) as Hsub.
  { intros s Hos. destruct Hmode as [->|Ho]; [by destruct (once s)|].
    by rewrite Hos, Ho. }
  clear E Hdom Hw Hmode.
  assert (once self = once self) as Hos by done.
  revert Hos Hs. generalize self at 1 3 4 as s.
  induction xs as [|y ys IH]; intros s Hos Hs; cbn [foldl].
  - by apply (safe_net_forward c _ x s (Hsub s Hos) Hs).
  - destruct (safe_net_forward c _ y s (Hsub s Hos) Hs) as (Hs' & _ & Ho').
    apply IH; [by rewrite Ho'|done].
Qed.

End NoMissingAttribute.

(** ** Replacing strides by dilation *)

Section Dilation.
Context {R Mem : Type} `{ScalarOps R} `{NodeDynamics R Mem} `{Torch R} `{Framework R}.

(** [m] raises [e], or returns and leaves a state in [Q]. *)
Definition ends {A} (P : Net R Mem -> Prop) (m : M (Net R Mem) A) (e : exn)
  (Q : Net R Mem -> Prop) : Prop :=
  forall s, P s ->
    (m s).1 = Raise e \/ exists a s', m s = (Ok a, s') /\ Q s'.

Lemma ends_bind {A B} P Q Q' (m : M (Net R Mem) A) (k : A -> M (Net R Mem) B) e :
  ends P m e Q -> (forall a, ends Q (k a) e Q') -> ends P (bind m k) e Q'.
Proof.
  intros Hm Hk s Hs. unfold bind.
  destruct (Hm s Hs) as [Hr|(a & s1 & E & Hq)].
  - left. destruct (m s) as [[a|e'] s1]; cbn in Hr; [done|].
    by injection Hr as ->.
  - rewrite E. by apply Hk.
Qed.

Lemma ends_bind_get {B} P Q (k : Net R Mem -> M (Net R Mem) B) e :
  (forall s0, P s0 -> ends P (k s0) e Q) -> ends P (bind get k) e Q.
Proof. intros Hk s Hs. unfold bind, get. by apply Hk. Qed.

Lemma ends_bind_lift {A B} P Q (r : res A) v (k : A -> M (Net R Mem) B) e :
  r = Ok v -> ends P (k v) e Q -> ends P (bind (lift r) k) e Q.
Proof. intros -> Hk s Hs. unfold bind, lift. by apply Hk. Qed.

Lemma ends_modify P Q (f : Net R Mem -> Net R Mem) e :
  (forall s, P s -> Q (f s)) -> ends P (modify f) e Q.
Proof. intros Hf s Hs. right. exists tt, (f s). split; [done|]. by apply Hf. Qed.

Lemma ends_fails {A} P Q (m : M (Net R Mem) A) e :
  (forall s, P s -> (m s).1 = Raise e) -> ends P m e Q.
Proof. intros Hm s Hs. left. by apply Hm. Qed.

Lemma ends_construct (init : M (Net R Mem) unit) e :
  ends (fun _ => True) init e (fun _ => False) -> construct init = Raise e.
Proof.
  intros Hi. unfold construct. destruct (Hi blank I) as [Hr|(a & s & _ & [])].
  destruct (init blank) as [[u|e'] s]; cbn in Hr; [done|].
  by injection Hr as ->.
Qed.

(** The attributes [_make_layer] reads, for a class of basic blocks
    that can be built: a node factory, the default [groups] and
    [base_width], and the dilation [d]. *)
Definition basic_at (d : nat) (s : Net R Mem) : Prop :=
  is_Some (node s) /\ dilation s = d /\ groups s = 1 /\ base_width s = 64.

Lemma new_node_basic_at d e :
  ends (basic_at d) (new_node (R := R)) e (basic_at d).
Proof.
  intros s Hs. right. unfold new_node, bind, get.
  destruct Hs as ([n Hn] & Hs). rewrite Hn. exists n, s. split; [done|].
  split; [by exists n|done].
Qed.

Lemma BasicBlock_new i p st ds d nl cnf (n : Node Mem) :
  block_new (R := R) BasicBlockCls i p st ds 1 64 d nl cnf (Some n)
  = if 1 <? d then Raise NotImplementedError
    else Ok (Basic
      {| BasicBlock.conv1 := conv3x3 i p st 1 1;
         BasicBlock.bn1 := default BatchNorm2d nl p;
         BasicBlock.node1 := n;
         BasicBlock.conv2 := conv3x3 p p 1 1 1;
         BasicBlock.bn2 := default BatchNorm2d nl p;
         BasicBlock.node2 := n;
         BasicBlock.downsample := ds;
         BasicBlock.downsample_sn :=
           match ds with Some _ => Some n | None => None end;
         BasicBlock.stride := st; BasicBlock.cnf := cnf |}).
Proof.
  cbn [block_new]. unfold BasicBlock.__init__. cbv zeta. cbn [Nat.eqb negb orb].
  by destruct (1 <? d).
Qed.

(** A stack of basic blocks without dilation is built. *)
Lemma make_layer_basic planes blocks stride cnf nd e :
  is_Some nd ->
  ends (basic_at 1) (_make_layer BasicBlockCls planes blocks stride false cnf nd)
    e (basic_at 1).
Proof.
  intros [n ->] s ([n0 Hn] & Hd & Hg & Hw). right. unfold _make_layer.
  cbn [bind get ret lift modify]. rewrite Hg, Hw, Hd, BasicBlock_new.
  cbn [Nat.ltb Nat.leb].
  cbn [bind get ret lift modify set_inplanes inplanes groups base_width dilation].
  rewrite Hg, Hw, Hd, BasicBlock_new. cbn [Nat.ltb Nat.leb].
  match goal with |- context [append_blocks ?k (Ok ?b) ?l] =>
    destruct (append_blocks_ok k b l) as (l' & ->) end.
  eexists _, _. split; [reflexivity|].
  split; [by exists n0|done].
Qed.

(** With [dilate] set and a stride of 2, the first block is built with
    the dilation there was; every later block receives the doubled
    dilation, which a basic block refuses.  A stack of one block is
    built, and leaves the dilation doubled. *)
Lemma make_layer_basic_dilate planes blocks cnf nd :
  is_Some nd ->
  ends (basic_at 1) (_make_layer BasicBlockCls planes blocks 2 true cnf nd)
    NotImplementedError (basic_at 2).
Proof.
  intros [n ->] s ([n0 Hn] & Hd & Hg & Hw). unfold _make_layer.
  cbn [bind get ret lift modify set_dilation inplanes groups base_width dilation].
  rewrite Hg, Hw, Hd, BasicBlock_new. cbn [Nat.ltb Nat.leb].
  cbn [bind get ret lift modify set_inplanes set_dilation inplanes groups
       base_width dilation Nat.mul Nat.add].
  rewrite Hg, Hw, BasicBlock_new. cbn [Nat.ltb Nat.leb].
  destruct (blocks - 1) as [|k]; cbn [append_blocks res_bind].
  - right. eexists _, _. split; [reflexivity|]. split; [by exists n0|done].
  - by left.
Qed.

(** Once the dilation exceeds 1 no stack of basic blocks is built: the
    first block receives it. *)
Lemma make_layer_basic_dilated planes blocks stride dilate cnf nd Q :
  is_Some nd ->
  ends (basic_at 2) (_make_layer BasicBlockCls planes blocks stride dilate cnf nd)
    NotImplementedError Q.
Proof.
  intros [n ->]. apply ends_fails. intros s ([n0 Hn] & Hd & Hg & Hw).
  unfold _make_layer.
  destruct dilate;
    cbn [bind get ret lift modify set_dilation inplanes groups base_width
         dilation];
    by rewrite Hg, Hw, Hd, BasicBlock_new.
Qed.

Ltac basic_steps d :=
  repeat (first
    [ apply ends_bind_get; intros ? ?
    | eapply ends_bind_lift; [reflexivity|]
    | apply (ends_bind (basic_at d) (basic_at d));
        [ first [ apply ends_modify; by intros ? ?
                | apply new_node_basic_at
                | apply make_layer_basic;
                    match goal with Hb : basic_at _ _ |- _ => apply Hb end ]
        | intros ? ] ]).

(** X11: with basic blocks (the block of sew_resnet18, 19, 20, 32, 34,
    44 and 56) no network is constructed once the first entry of
    [replace_stride_with_dilation] is set: the second layer stack doubles
    [self.dilation], and the next basic block that is built receives a
    dilation above 1 and raises NotImplementedError. *)
Theorem basic_block_networks_refuse_dilation (c : NetCls) (layers : list nat)
  (cnf : option string) (kw : Kwargs R) (d1 d2 : bool) :
  kw_replace_stride_with_dilation kw = Some [true; d1; d2] ->
  default 1 (kw_groups kw) = 1 -> default 64 (kw_width_per_group kw) = 64 ->
  stacks c <= length layers ->
  construct (net_init (Mem := Mem) c BasicBlockCls layers cnf kw)
  = Raise NotImplementedError.
Proof.
  intros Hr Hg Hw Hlen. apply ends_construct.
  destruct c; cbn [net_init stacks] in *;
    unfold SEWResNet.__init__, SEWResNet19.__init__, SEWResNetCifar.__init__,
      BaseModule__init__, init_attributes, init_groups, setattr;
    cbv zeta; rewrite Hr, Hg, Hw; cbn [length Nat.eqb negb];
    (apply (ends_bind _ (fun _ => True));
       [by apply ends_modify|intros _]);
    (apply (ends_bind _ (fun s => is_Some (node s) /\ dilation s = 1));
       [apply ends_modify; intros s _; split; [by eexists|done]|intros _]);
    (apply (ends_bind _ (basic_at 1));
       [apply ends_modify; intros s [Hn Hd]; by split|intros _]);
    destruct layers as [|n0 [|n1 [|n2 layers]]]; try (simpl in Hlen; lia);
    try (destruct layers as [|n3 layers]; [simpl in Hlen; lia|]);
    basic_steps 1;
    (apply (ends_bind (basic_at 1) (basic_at 2));
       [ apply make_layer_basic_dilate;
           match goal with Hb : basic_at _ _ |- _ => apply Hb end
       | intros ? ]);
    basic_steps 2;
    (apply (ends_bind (basic_at 2) (fun _ => False));
       [ apply make_layer_basic_dilated;
           match goal with Hb : basic_at _ _ |- _ => apply Hb end
       | by intros ? ? [] ]).
Qed.

(** With bottleneck blocks every stack is built, whatever the
    dilation. *)
Definition bottle_at (d : nat) (s : Net R Mem) : Prop :=
  is_Some (node s) /\ dilation s = d.

Lemma bottle_at_modify d (f : Net R Mem -> Net R Mem) :
  (forall s, node (f s) = node s /\ dilation (f s) = dilation s) ->
  succeeds (bottle_at d) (modify f) (bottle_at d).
Proof.
  intros Hf. apply succeeds_modify. intros s [Hn Hd].
  destruct (Hf s) as [En Ed]. unfold bottle_at. by rewrite En, Ed.
Qed.

Lemma bottle_at_new_node d :
  succeeds (bottle_at d) (new_node (R := R)) (bottle_at d).
Proof.
  intros s Hs. unfold new_node, bind, get.
  destruct Hs as ([n Hn] & Hs). rewrite Hn. exists n, s. split; [done|].
  split; [by exists n|done].
Qed.

Lemma make_layer_bottleneck d planes blocks stride dilate cnf nd :
  is_Some nd ->
  succeeds (bottle_at d)
    (_make_layer BottleneckCls planes blocks stride dilate cnf nd)
    (bottle_at (if dilate then d * stride else d)).
Proof.
  intros [n ->] s ([n0 Hn] & Hd). unfold _make_layer.
  destruct dilate;
    cbn [bind get ret lift modify block_new res_bind];
    unfold Bottleneck.__init__; cbv zeta;
    cbn [bind get ret lift modify res_bind];
    (match goal with |- context [append_blocks ?k (Ok ?b) ?l] =>
       destruct (append_blocks_ok k b l) as (l' & ->) end);
    eexists _, _; (split; [reflexivity|]);
    (split; [by exists n0|cbn; by rewrite Hd]).
Qed.

Ltac bottle_steps :=
  repeat (first
    [ apply succeeds_bind_get; intros ? ?
    | eapply succeeds_bind_lift; [reflexivity|]
    | eapply succeeds_bind;
        [ first [ apply bottle_at_modify; by intros ?
                | apply bottle_at_new_node
                | apply make_layer_bottleneck;
                    match goal with Hb : bottle_at _ _ |- _ => apply Hb end ]
        | intros ? ]
    | apply bottle_at_modify; by intros ? ]).

(** X12: with bottleneck blocks a network is constructed for every
    choice of the three flags; each flag that is used doubles
    [self.dilation].  SEWResNet19 and SEWResNetCifar, which have three
    layer stacks, never read the third flag. *)
Theorem bottleneck_networks_accept_dilation (c : NetCls) (layers : list nat)
  (cnf : option string) (kw : Kwargs R) (d0 d1 d2 : bool) :
  kw_replace_stride_with_dilation kw = Some [d0; d1; d2] ->
  stacks c <= length layers ->
  exists self : Net R Mem,
    construct (net_init c BottleneckCls layers cnf kw) = Ok self /\
    dilation self
    = (if d0 then 2 else 1) * (if d1 then 2 else 1)
      * match c with
        | SEWResNetCls => if d2 then 2 else 1
        | SEWResNet19Cls | SEWResNetCifarCls => 1
        end.
Proof.
  intros Hr Hlen.
  assert (exists D,
            succeeds (fun _ => True) (net_init c BottleneckCls layers cnf kw)
              (bottle_at D) /\
            D = (if d0 then 2 else 1) * (if d1 then 2 else 1)
                * match c with
                  | SEWResNetCls => if d2 then 2 else 1
                  | SEWResNet19Cls | SEWResNetCifarCls => 1
                  end) as (D & Hs & HD).
  { destruct c; cbn [net_init stacks] in *;
      unfold SEWResNet.__init__, SEWResNet19.__init__, SEWResNetCifar.__init__,
        BaseModule__init__, init_attributes, init_groups, setattr;
      cbv zeta; rewrite Hr; cbn [length Nat.eqb negb];
      destruct layers as [|n0 [|n1 [|n2 layers]]]; try (simpl in Hlen; lia);
      try (destruct layers as [|n3 layers]; [simpl in Hlen; lia|]);
      eexists; (split;
        [ (apply (succeeds_bind _ (fun _ => True));
             [by apply succeeds_modify|intros _]);
          (apply (succeeds_bind _ (bottle_at 1));
             [apply succeeds_modify; intros s _; split; [by eexists|done]
             |intros _]);
          bottle_steps
        | by destruct d0, d1, d2 ]). }
  destruct (Hs blank I) as (u & self & E & _ & Hd).
  exists self. unfold construct. rewrite E. split; [done|]. by rewrite Hd, HD.
Qed.

End Dilation.

(** ** The further properties on the concrete instance *)

Section MoreWitnesses.
#[local] Existing Instances Demo.Z_scalar Demo.if_node Demo.torch_per_sample
  Demo.framework Demo.checkpoints.
#[local] Open Scope Z_scope.

Lemma looped_pass_without_timesteps_witness :
  (net_forward SEWResNetCls Demo.input (Demo.resnet18 false false true 0)).1
  = Raise ZeroDivisionError /\
  (net_forward SEWResNetCls Demo.input (Demo.resnet18 false false false 0)).1
  = Ok (VList []).
Proof.
  split.
  - pose (self := Demo.resnet18 false false true 0).
    assert (once self = false) as Ho by (vm_compute; reflexivity).
    assert (layer_by_layer self = false) as Hl by (vm_compute; reflexivity).
    assert (step self = 0%nat) as Hs by (vm_compute; reflexivity).
    assert (sum_output self = true) as Hsum by (vm_compute; reflexivity).
    pose proof (looped_pass_without_timesteps SEWResNetCls Demo.input self
                  Ho Hl Hs) as E.
    rewrite Hsum in E. exact (f_equal fst E).
  - pose (self := Demo.resnet18 false false false 0).
    assert (once self = false) as Ho by (vm_compute; reflexivity).
    assert (layer_by_layer self = false) as Hl by (vm_compute; reflexivity).
    assert (step self = 0%nat) as Hs by (vm_compute; reflexivity).
    assert (sum_output self = false) as Hsum by (vm_compute; reflexivity).
    pose proof (looped_pass_without_timesteps SEWResNetCls Demo.input self
                  Ho Hl Hs) as E.
    rewrite Hsum in E. exact (f_equal fst E).
Defined.

Lemma looped_outputs_reads_step_slices_witness :
  looped_outputs (net_body SEWResNetCls)
    (VList [Demo.input; Demo.input; Stack []]) (seq 0 2)
    (reset_net (Demo.resnet18 false false true 2))
  = looped_outputs (net_body SEWResNetCls)
      (VList [Demo.input; Demo.input]) (seq 0 2)
      (reset_net (Demo.resnet18 false false true 2)).
Proof.
  apply looped_outputs_reads_step_slices.
  intros [|[|t]] Ht; [reflexivity|reflexivity|lia].
Defined.

Lemma looped_outputs_too_few_slices_witness :
  (looped_outputs (net_body SEWResNetCls) (VList [Demo.input]) (seq 0 2)
     (reset_net (Demo.resnet18 false false true 2))).1
  = Raise IndexError.
Proof.
  pose (s := reset_net (Demo.resnet18 false false true 2)).
  pose (s1 := (unroll (net_body SEWResNetCls) [Demo.input] s).2).
  assert (unroll (net_body SEWResNetCls) [Demo.input] s
          = (Ok [Stack [Stack [Scalar 9; Scalar 0]; Stack [Scalar 0; Scalar 9]]],
             s1)) as E by (vm_compute; reflexivity).
  assert (length [Demo.input] < 2)%nat as Hlt by (simpl; lia).
  exact (f_equal fst
           (looped_outputs_too_few_slices (net_body SEWResNetCls) [Demo.input]
              _ 2 s s1 Hlt E)).
Defined.

Lemma sew_function_on_spikes_witness :
  (exists p, sew_function (Stack [Scalar 1; Scalar 0]) (Stack [Scalar 1; Scalar 1])
               (Some "AND") = Ok p /\ binary p) /\
  (exists q, sew_function (Stack [Scalar 1; Scalar 0]) (Stack [Scalar 1; Scalar 1])
               (Some "IAND") = Ok q /\ binary q) /\
  (exists s, sew_function (Stack [Scalar 1; Scalar 0]) (Stack [Scalar 1; Scalar 1])
               (Some "ADD") = Ok s /\
             Forall (fun v => 0 <= v <= 2) (leaves s)).
Proof.
  apply sew_function_on_spikes.
  - reflexivity.
  - unfold binary. cbn. repeat (apply Forall_cons_2; [auto|]). apply Forall_nil_2.
  - unfold binary. cbn. repeat (apply Forall_cons_2; [auto|]). apply Forall_nil_2.
Defined.

Lemma _make_layer_returns_witness :
  exists l s',
    _make_layer BasicBlockCls 128 0 2 false (Some "ADD")
      (Some (Demo.node0 false 2)) (Demo.resnet18 false false true 2)
    = (Ok l, s') /\
    length l = 1%nat /\ inplanes s' = 128%nat.
Proof.
  pose (r := _make_layer BasicBlockCls 128 0 2 false (Some "ADD")
               (Some (Demo.node0 false 2)) (Demo.resnet18 false false true 2)).
  pose (l := match r.1 with Ok l => l | Raise _ => [] end).
  assert (_make_layer BasicBlockCls 128 0 2 false (Some "ADD")
            (Some (Demo.node0 false 2)) (Demo.resnet18 false false true 2)
          = (Ok l, r.2)) as E by (vm_compute; reflexivity).
  exists l, r.2. split; [exact E|].
  destruct (_make_layer_returns BasicBlockCls 128 0 2 false (Some "ADD")
              (Some (Demo.node0 false 2)) (Demo.resnet18 false false true 2)
              r.2 l E)
    as (Hl & _ & _ & _ & Hi & _).
  split; [exact Hl|exact Hi].
Defined.


Lemma constructed_layer_stacks_witness :
  exists l,
    _modules (Demo.resnet19 false false true 2) !! "layer3"
    = Some (MSequential l) /\
    length l = 2%nat /\
    Forall (fun b => block_class b = BasicBlockCls) l.
Proof.
  apply (constructed_layer_stacks SEWResNet19Cls BasicBlockCls [3; 3; 2]%nat
           (Some "ADD") (Demo.kwargs false false true 2) _ 2%nat 2%nat).
  - vm_compute. reflexivity.
  - simpl. lia.
  - reflexivity.
Defined.

Lemma forward_never_misses_attribute_witness :
  (net_forward SEWResNet19Cls Demo.input
     (foldl (fun s y => (net_forward SEWResNet19Cls y s).2)
        (Demo.resnet19 false false true 2) [Demo.input; Demo.input])).1
  <> Raise (AttributeError "maxpool").
Proof.
  apply (forward_never_misses_attribute SEWResNet19Cls BasicBlockCls
           [3; 3; 2]%nat (Some "ADD") (Demo.kwargs false false true 2)).
  - vm_compute. reflexivity.
  - right. vm_compute. reflexivity.
Defined.

Lemma basic_block_networks_refuse_dilation_witness :
  construct
    (net_init (Mem := option (tensor Z)) SEWResNetCls BasicBlockCls
       [2; 2; 2; 2]%nat (Some "ADD")
       (set_replace_stride_with_dilation (Some [true; false; false])
          (Demo.kwargs false false true 2)))
  = Raise NotImplementedError.
Proof.
  apply (basic_block_networks_refuse_dilation SEWResNetCls [2; 2; 2; 2]%nat
           (Some "ADD") _ false false).
  - reflexivity.
  - reflexivity.
  - reflexivity.
  - simpl. lia.
Defined.

Lemma bottleneck_networks_accept_dilation_witness :
  exists self : Net Z (option (tensor Z)),
    construct
      (net_init SEWResNet19Cls BottleneckCls [1; 1; 1]%nat (Some "ADD")
         (set_replace_stride_with_dilation (Some [true; true; true])
            (Demo.kwargs false false true 2)))
    = Ok self /\
    dilation self = 4%nat.
Proof.
  apply (bottleneck_networks_accept_dilation SEWResNet19Cls [1; 1; 1]%nat
           (Some "ADD") _ true true true).
  - reflexivity.
  - simpl. lia.
Defined.

End MoreWitnesses.

(** ** The layer-by-layer flag of the constructors *)

Section FlagOfConstructor.
Context {R Mem : Type} `{ScalarOps R} `{NodeDynamics R Mem} `{Torch R} `{Framework R}.
Variables (b : bool) (T : nat) (et : string).

(** The same network with the flag [b]. *)
Definition flagged (s : Net R Mem) : Net R Mem :=
  net_mode b (Encoder T et b) s.

Definition res_map {A} (f : A -> A) (r : res A) : res A :=
  res_bind r (fun a => Ok (f a)).

(** [m'] does on the flagged network what [m] does on the network, and
    returns the flagged value. *)
Definition sim {A} (f : A -> A) (m m' : M (Net R Mem) A) : Prop :=
  forall s, step s = T ->
    m' (flagged s) = (res_map f (m s).1, flagged (m s).2) /\
    step (m s).2 = T.

Lemma sim_bind {A B} (f : A -> A) (g : B -> B) (m m' : M (Net R Mem) A)
  (k k' : A -> M (Net R Mem) B) :
  sim f m m' -> (forall a, sim g (k a) (k' (f a))) ->
  sim g (bind m k) (bind m' k').
Proof.
  intros Hm Hk s Hs. destruct (Hm s Hs) as [E Hs1]. unfold bind. rewrite E.
  destruct (m s) as [[a|e] s1]; cbn [fst snd res_map res_bind] in *; [|done].
  by apply Hk.
Qed.

Lemma sim_bind_get {B} (g : B -> B) (k k' : Net R Mem -> M (Net R Mem) B) :
  (forall s0, step s0 = T -> sim g (k s0) (k' (flagged s0))) ->
  sim g (bind get k) (bind get k').
Proof. intros Hk s Hs. unfold bind, get. by apply Hk. Qed.

Lemma sim_ret {A} (f : A -> A) (a : A) : sim f (ret a) (ret (f a)).
Proof. by intros s Hs. Qed.

Lemma sim_raise {A} (f : A -> A) e : sim f (raise e) (raise e).
Proof. by intros s Hs. Qed.

Lemma sim_lift {A} (r : res A) : sim (fun a => a) (lift r) (lift r).
Proof. intros s Hs. unfold lift, res_map. by destruct r. Qed.

Lemma sim_modify (g : Net R Mem -> Net R Mem) :
  (forall s, g (flagged s) = flagged (g s) /\ step (g s) = step s) ->
  sim (fun u => u) (modify g) (modify g).
Proof.
  intros Hg s Hs. destruct (Hg s) as [E Es]. unfold modify.
  cbn [fst snd res_map res_bind]. rewrite E. split; [done|]. by rewrite Es.
Qed.

Lemma sim_setattr name (m : module R Mem) :
  sim (fun u => u) (setattr name m) (setattr name (module_mode b T m)).
Proof.
  intros s Hs. unfold setattr, modify, flagged.
  cbn [fst snd res_map res_bind]. by rewrite net_mode_insert, Hs.
Qed.

Lemma sim_new_node : sim (node_mode b T) new_node new_node.
Proof.
  intros s Hs. unfold new_node, bind, get, flagged.
  cbn [node net_mode]. rewrite Hs.
  by destruct (node s) as [n|].
Qed.

Lemma block_new_flagged cls i p st ds g w d nl cnf (nd : option (Node Mem)) :
  block_new (R := R) cls i p st ds g w d nl cnf (node_mode b T <$> nd)
  = res_map (block_mode b T) (block_new cls i p st ds g w d nl cnf nd).
Proof.
  destruct cls; cbn [block_new].
  - unfold BasicBlock.__init__. cbv zeta.
    destruct (negb (g =? 1) || negb (w =? 64)); [done|].
    destruct (1 <? d); [done|]. destruct nd as [n|]; [|done].
    by destruct ds.
  - unfold Bottleneck.__init__. cbv zeta.
    destruct nd as [n|]; [|done]. by destruct ds.
Qed.

Lemma append_blocks_flagged n (mk : res (block R Mem)) : forall l,
  append_blocks n (res_map (block_mode b T) mk) (block_mode b T <$> l)
  = res_map (fmap (block_mode b T)) (append_blocks n mk l).
Proof.
  induction n as [|n IH]; intros l; [done|]. cbn [append_blocks].
  destruct mk as [blk|e]; [|done]. cbn [res_map res_bind].
  specialize (IH (l ++ [blk])). rewrite fmap_app in IH. exact IH.
Qed.

Lemma sim_make_layer cls planes blocks stride dilate cnf nd :
  sim (fmap (block_mode b T))
    (_make_layer cls planes blocks stride dilate cnf nd)
    (_make_layer cls planes blocks stride dilate cnf (node_mode b T <$> nd)).
Proof.
  intros s Hs. unfold _make_layer.
  destruct dilate;
    cbn [bind get ret lift modify];
    unfold flagged;
    cbn [inplanes groups base_width dilation _norm_layer net_mode
         set_dilation set_inplanes];
    rewrite block_new_flagged;
    (match goal with |- context [res_map _ (block_new ?c ?i ?p ?st ?ds ?g ?w ?d ?nl ?cn nd)] =>
       destruct (block_new c i p st ds g w d nl cn nd) as [b0|e]
     end; [|by cbn]);
    cbn [res_map res_bind bind get ret lift modify fst snd];
    cbn [inplanes groups base_width dilation _norm_layer net_mode
         set_dilation set_inplanes];
    rewrite block_new_flagged;
    (change [block_mode b T b0] with (block_mode b T <$> [b0]));
    rewrite append_blocks_flagged;
    (match goal with |- context [append_blocks ?k ?mk ?l] =>
       destruct (append_blocks k mk l) as [l'|e]
     end); cbn [res_map res_bind fst snd step set_inplanes set_dilation];
    by rewrite ?Hs.
Qed.

End FlagOfConstructor.

Section FlagOfInit.
Context {R Mem : Type} `{ScalarOps R} `{NodeDynamics R Mem} `{Torch R} `{Framework R}.

Lemma bind_modify {B} (f : Net R Mem -> Net R Mem) (k : unit -> M (Net R Mem) B) s :
  bind (modify f) k s = k tt (f s).
Proof. done. Qed.

Ltac sim_step b T :=
  lazymatch goal with
  | |- sim _ _ _ _ (raise _) _ => apply sim_raise
  | |- sim _ _ _ _ (bind get _) _ =>
      apply sim_bind_get;
      let s0 := fresh "s" in let Hs0 := fresh "Hs" in
      intros s0 Hs0; unfold flagged;
      cbn [inplanes node net_mode]; rewrite ?Hs0
  | |- sim _ _ _ _ (bind (setattr ?n ?m) _) _ =>
      apply (sim_bind b T _ (fun u => u));
      [apply (sim_setattr b T _ n m)|intros _]
  | |- sim _ _ _ _ (bind new_node _) _ =>
      apply (sim_bind b T _ (node_mode b T)); [apply sim_new_node|intros ?]
  | |- sim _ _ _ _ (bind (lift _) _) _ =>
      apply (sim_bind b T _ (fun a => a)); [apply sim_lift|intros ?]
  | |- sim _ _ _ _ (bind (_make_layer _ _ _ _ _ _ _) _) _ =>
      apply (sim_bind b T _ (fmap (block_mode b T)));
      [apply sim_make_layer|intros ?]
  | |- sim _ _ _ _ (bind (modify _) _) _ =>
      apply (sim_bind b T _ (fun u => u));
      [apply sim_modify; intros ?; split; reflexivity|intros _]
  | |- sim _ _ _ _ (setattr ?n ?m) _ => apply (sim_setattr b T _ n m)
  end.

Lemma net_init_flagged (b : bool) (c : NetCls) cls layers cnf (kw : Kwargs R) :
  let T := default 8 (kw_step kw) in
  let et := default "direct" (kw_encode_type kw) in
  net_init c cls layers cnf (set_layer_by_layer (Some b) kw) blank
  = (res_map (fun u => u) (net_init c cls layers cnf kw blank).1,
     flagged b T et (net_init (Mem := Mem) c cls layers cnf kw blank).2).
Proof.
  intros T et.
  destruct c; cbn [net_init];
    unfold SEWResNet.__init__, SEWResNet19.__init__, SEWResNetCifar.__init__,
      BaseModule__init__, init_attributes;
    cbv zeta; cbn [set_layer_by_layer kw_dataset kw_once kw_sum_output
      kw_layer_by_layer kw_num_classes kw_step kw_encode_type kw_groups
      kw_width_per_group kw_replace_stride_with_dilation kw_norm_layer default];
    rewrite !bind_modify; cbv beta; rewrite ?bind_modify; cbv beta;
    fold T; fold et;
    match goal with |- ?m' ?s' = (res_map _ (?m ?s).1, _) =>
      assert (s' = flagged b T et s) as ->
        by (unfold flagged, net_mode; cbn; by rewrite fmap_empty);
      assert (step s = T) as Hs0 by reflexivity;
      generalize dependent s; intros s0 Hs0;
      apply (proj1 (A := m' (flagged b T et s0)
                         = (res_map (fun u => u) (m s0).1,
                            flagged b T et (m s0).2))
                   (B := step (m s0).2 = T));
      revert s0 Hs0;
      change (sim b T et (fun u => u) m m')
    end;
    (match goal with |- sim _ _ _ _ (if ?c then _ else _) _ => destruct c end;
     [apply sim_raise|]);
    unfold init_groups;
    repeat sim_step b T.
Qed.

End FlagOfInit.

Section ConstructedStrategies.
Context {R Mem : Type} `{ScalarOps R} `{NodeDynamics R Mem} `{Torch R} `{Framework R}.

Lemma construct_flagged (b : bool) (c : NetCls) cls layers cnf (kw : Kwargs R) :
  construct (net_init c cls layers cnf (set_layer_by_layer (Some b) kw))
  = res_bind (construct (net_init (Mem := Mem) c cls layers cnf kw))
      (fun self =>
         Ok (net_mode b
               (Encoder (default 8 (kw_step kw))
                  (default "direct" (kw_encode_type kw)) b) self)).
Proof.
  unfold construct. rewrite net_init_flagged.
  by destruct (net_init c cls layers cnf kw blank) as [[u|e] s].
Qed.

(** X13: the keyword [layer_by_layer] changes nothing of what a
    constructor builds but the flag of the network, the flag of every
    node (the node factory receives the keyword) and the encoder: the
    network built with the flag [b] is the network built without it,
    set to [b]; one construction fails exactly when the other does, with
    the same exception. *)
Theorem layer_by_layer_keyword (b : bool) (c : NetCls) (cls : BlockCls)
  (layers : list nat) (cnf : option string) (kw : Kwargs R) :
  construct (net_init c cls layers cnf (set_layer_by_layer (Some b) kw))
  = res_bind (construct (net_init (Mem := Mem) c cls layers cnf kw))
      (fun self =>
         Ok (net_mode b
               (Encoder (default 8 (kw_step kw))
                  (default "direct" (kw_encode_type kw)) b) self)).
Proof. apply construct_flagged. Qed.

Lemma make_layer_flags cls planes blocks stride dilate cnf nd (s : Net R Mem) :
  let s' := (_make_layer cls planes blocks stride dilate cnf nd s).2 in
  step s' = step s /\ once s' = once s /\ sum_output s' = sum_output s.
Proof.
  unfold _make_layer.
  destruct dilate; cbn [bind get ret lift modify];
    (match goal with |- context [block_new ?c ?i ?p ?st ?ds ?g ?w ?d ?nl ?cn ?n] =>
       destruct (block_new c i p st ds g w d nl cn n) as [b0|e]
     end; [|done]);
    cbn [bind get ret lift modify];
    (match goal with |- context [append_blocks ?k ?mk ?l] =>
       destruct (append_blocks k mk l) as [l'|e]
     end); done.
Qed.

Lemma wp_make_layer_flags cls planes blocks stride dilate cnf nd
  (Q : list (block R Mem) -> Net R Mem -> Prop) s :
  (forall l s', step s' = step s -> once s' = once s ->
     sum_output s' = sum_output s -> Q l s') ->
  wp (_make_layer cls planes blocks stride dilate cnf nd) Q s.
Proof.
  intros Hq. unfold wp.
  pose proof (make_layer_flags cls planes blocks stride dilate cnf nd s) as Hf.
  destruct (_make_layer _ _ _ _ _ _ _ s) as [[l|e] s']; [|done].
  destruct Hf as (? & ? & ?). by apply Hq.
Qed.

Ltac flag_step :=
  lazymatch goal with
  | |- wp (raise _) _ _ => apply wp_raise
  | |- wp (if _ then raise _ else _) _ _ => apply wp_if; [apply wp_raise|]
  | |- wp (bind get _) _ _ => apply wp_bind, wp_get
  | |- wp (bind (modify _) _) _ _ => apply wp_bind, wp_modify
  | |- wp (bind new_node _) _ _ => apply wp_bind, wp_new_node; intros ? _
  | |- wp (bind (lift _) _) _ _ => apply wp_bind, wp_lift; intros ? _
  | |- wp (bind (_make_layer _ _ _ _ _ _ _) _) _ _ =>
      apply wp_bind, wp_make_layer_flags; intros ? ? ? ? ?
  | |- wp (modify _) _ _ => apply wp_modify
  end;
  cbv beta.

(** The flags a constructor takes from its keyword arguments. *)
Lemma net_init_flags (c : NetCls) cls layers cnf (kw : Kwargs R) (self : Net R Mem) :
  construct (net_init c cls layers cnf kw) = Ok self ->
  step self = default 8 (kw_step kw) /\
  once self = default false (kw_once kw) /\
  sum_output self = default true (kw_sum_output kw).
Proof.
  apply (wp_construct _ (fun s => step s = default 8 (kw_step kw) /\
                                    once s = default false (kw_once kw) /\
                                    sum_output s = default true (kw_sum_output kw))).
  destruct c; cbn [net_init];
    unfold SEWResNet.__init__, SEWResNet19.__init__, SEWResNetCifar.__init__,
      BaseModule__init__, init_attributes, init_groups, setattr;
    cbv zeta;
    do 4 flag_step;
    match goal with |- wp _ _ ?s =>
      assert (step s = default 8 (kw_step kw) /\
              once s = default false (kw_once kw) /\
              sum_output s = default true (kw_sum_output kw)) as (Hst & Hon & Hsu)
        by (by cbn);
      generalize dependent s; intros s0 Hst Hon Hsu
    end;
    repeat flag_step;
    cbn [step once sum_output with_modules];
    repeat match goal with
           | E : step ?s = _ |- context [step ?s] => rewrite E
           | E : once ?s = _ |- context [once ?s] => rewrite E
           | E : sum_output ?s = _ |- context [sum_output ?s] => rewrite E
           | |- _ => progress cbn [step once sum_output with_modules]
           end;
    done.
Qed.

(** X14: the two execution strategies on networks built from the same
    arguments.  Let the layers the tensor library builds, and the
    normalisation layer passed to the constructor, act on each sample of
    the batch on its own; let a node step keep the batch; let
    [sum_output] be set (or absent) and [once] unset (or absent); and
    let the looped encoder give [step] time slices of [b] samples and
    the flattened encoder their concatenation.  If the network built
    with [layer_by_layer=False] returns a mean of rank 2, the network
    built with [layer_by_layer=True] is constructed and returns the same
    tensor. *)
Theorem constructed_strategies_agree (c : NetCls) (cls : BlockCls)
  (layers : list nat) (cnf : option string) (kw : Kwargs R)
  (self_l s1 : Net R Mem) (x : tensor R) (b : nat)
  (ls : list (list (tensor R))) (m : tensor R) :
  let T := default 8 (kw_step kw) in
  let et := default "direct" (kw_encode_type kw) in
  torch_per_sample_layers ->
  (forall nl, kw_norm_layer kw = Some nl -> forall n, per_sample (nl n)) ->
  node_keeps_batch ->
  default false (kw_once kw) = false ->
  default true (kw_sum_output kw) = true ->
  length ls = T -> Forall (fun l => length l = b) ls ->
  Encoder T et false x = VList (Stack <$> ls) ->
  Encoder T et true x = VTensor (Stack (concat ls)) ->
  construct (net_init c cls layers cnf (set_layer_by_layer (Some false) kw))
  = Ok self_l ->
  net_forward c x self_l = (Ok (VTensor m), s1) ->
  length (shape m) = 2 ->
  exists self_f : Net R Mem,
    construct (net_init c cls layers cnf (set_layer_by_layer (Some true) kw))
    = Ok self_f /\
    (net_forward c x self_f).1 = Ok (VTensor m).
Proof.
  intros T et Ht Hnl Hk Ho Hsum HT Hall Hel Hef El Hfw Hrank.
  rewrite construct_flagged in El |- *.
  destruct (construct (net_init c cls layers cnf kw)) as [self|e] eqn:E; [|done].
  cbn [res_bind] in El |- *. injection El as <-.
  destruct (net_init_flags _ _ _ _ _ _ E) as (Hst & Hon & Hsu).
  eexists. split; [reflexivity|].
  assert (once self = false) as Ho' by (by rewrite Hon).
  assert (sum_output self = true) as Hsum' by (by rewrite Hsu).
  assert (length ls = step self) as HT' by (by rewrite Hst).
  destruct (passes_agree c self (Encoder T et false) (Encoder T et true) x b ls
              m s1 Hk (constructed_layers_per_sample _ _ _ _ _ _ Ht Hnl E)
              Ho' Hsum' HT' Hall Hel Hef Hfw Hrank)
    as (s'' & _ & F).
  exact (f_equal fst F).
Qed.

End ConstructedStrategies.

Section ConstructedWitness.
#[local] Existing Instances Demo.Z_scalar Demo.if_node Demo.torch_per_sample
  Demo.framework Demo.checkpoints.
#[local] Open Scope Z_scope.

Lemma constructed_strategies_agree_witness :
  exists self_f : Net Z (option (tensor Z)),
    construct
      (net_init SEWResNet19Cls BasicBlockCls [3; 3; 2]%nat (Some "ADD")
         (set_layer_by_layer (Some true) (Demo.kwargs false false true 2)))
    = Ok self_f /\
    (net_forward SEWResNet19Cls Demo.input self_f).1
    = Ok (VTensor (Stack [Stack [Scalar 3; Scalar 0]; Stack [Scalar 0; Scalar 3]])).
Proof.
  pose (kw := Demo.kwargs false false true 2).
  pose (l0 := [Stack [Scalar 1; Scalar 0]; Stack [Scalar 0; Scalar 3]]).
  pose (self_l := Demo.resnet19 false false true 2).
  pose (s1 := (net_forward SEWResNet19Cls Demo.input self_l).2).
  assert (construct
            (net_init SEWResNet19Cls BasicBlockCls [3; 3; 2]%nat (Some "ADD")
               (set_layer_by_layer (Some false) kw)) = Ok self_l) as El
    by (vm_compute; reflexivity).
  assert (net_forward SEWResNet19Cls Demo.input self_l
          = (Ok (VTensor (Stack [Stack [Scalar 3; Scalar 0];
                                 Stack [Scalar 0; Scalar 3]])), s1)) as Hfw
    by (vm_compute; reflexivity).
  assert (Forall (fun l : list (tensor Z) => length l = 2%nat) [l0; l0]) as Hall
    by (repeat constructor).
  apply (constructed_strategies_agree SEWResNet19Cls BasicBlockCls [3; 3; 2]%nat
           (Some "ADD") kw self_l s1 Demo.input 2 [l0; l0] _
           demo_torch_per_sample).
  - by intros nl.
  - exact if_node_keeps_batch.
  - reflexivity.
  - reflexivity.
  - reflexivity.
  - exact Hall.
  - reflexivity.
  - reflexivity.
  - exact El.
  - exact Hfw.
  - reflexivity.
Defined.

End ConstructedWitness.

(** ** Groups and width of basic blocks *)

Section Groups.
Context {R Mem : Type} `{ScalarOps R} `{NodeDynamics R Mem} `{Torch R} `{Framework R}.

Definition odd_groups (s : Net R Mem) : Prop :=
  is_Some (node s) /\ (groups s <> 1 \/ base_width s <> 64).

Lemma odd_groups_new_node e :
  ends odd_groups (new_node (R := R)) e odd_groups.
Proof.
  intros s Hs. right. unfold new_node, bind, get.
  destruct Hs as ([n Hn] & Hs). rewrite Hn. exists n, s. split; [done|].
  split; [by exists n|done].
Qed.

Lemma make_layer_odd_groups planes blocks stride dilate cnf nd Q :
  is_Some nd ->
  ends odd_groups (_make_layer BasicBlockCls planes blocks stride dilate cnf nd)
    ValueError Q.
Proof.
  intros [n ->]. apply ends_fails. intros s ([n0 Hn] & Hg).
  assert (negb (groups s =? 1) || negb (base_width s =? 64) = true) as Hc.
  { apply orb_true_iff. destruct Hg as [Hg|Hw]; [left|right];
      by apply negb_true_iff, Nat.eqb_neq. }
  unfold _make_layer.
  destruct dilate;
    cbn [bind get ret lift modify set_dilation inplanes groups base_width
         dilation block_new];
    unfold BasicBlock.__init__; cbv zeta; by rewrite Hc.
Qed.

Ltac odd_steps :=
  repeat (first
    [ apply ends_bind_get; intros ? ?
    | apply (ends_bind odd_groups odd_groups);
        [ first [ apply ends_modify; by intros ? ?
                | apply odd_groups_new_node ]
        | intros ? ] ]).

(** X15: with basic blocks no network is constructed when [groups] is
    not 1 or [width_per_group] is not 64: as soon as the first layer
    stack is built (the list [layers] must have its first entry, or the
    IndexError comes first) the first BasicBlock raises ValueError, the
    exception that a malformed [replace_stride_with_dilation] raises
    before. *)
Theorem basic_block_networks_need_default_groups (c : NetCls)
  (layers : list nat) (cnf : option string) (kw : Kwargs R) :
  layers <> [] ->
  default 1 (kw_groups kw) <> 1 \/ default 64 (kw_width_per_group kw) <> 64 ->
  construct (net_init (Mem := Mem) c BasicBlockCls layers cnf kw)
  = Raise ValueError.
Proof.
  intros Hl Hg. apply ends_construct.
  destruct layers as [|n0 layers]; [done|].
  destruct c; cbn [net_init];
    unfold SEWResNet.__init__, SEWResNet19.__init__, SEWResNetCifar.__init__,
      BaseModule__init__, init_attributes, init_groups, setattr;
    cbv zeta;
    (apply (ends_bind _ (fun _ => True));
       [by apply ends_modify|intros _]);
    (apply (ends_bind _ (fun s => is_Some (node s)));
       [apply ends_modify; intros s _; by eexists|intros _]);
    (match goal with |- ends _ (if ?c then _ else _) _ _ => destruct c end;
     [by apply ends_fails|]);
    (apply (ends_bind _ odd_groups);
       [apply ends_modify; intros s Hn; by split|intros _]);
    odd_steps;
    (eapply ends_bind_lift; [reflexivity|]);
    (apply (ends_bind odd_groups (fun _ => False));
       [ apply make_layer_odd_groups;
           match goal with Hb : odd_groups _ |- _ => apply Hb end
       | by intros ? ? [] ]).
Qed.

End Groups.

(** ** The order of the operands of the combination function *)

Section OperandOrder.
Context {R : Type} `{ScalarOps R}.

Lemma tzip_comm (f : R -> R -> R) (a : tensor R) : forall b,
  (forall x y, f x y = f y x) -> tzip f a b = tzip f b a.
Proof.
  intros b Hf. revert b.
  induction a as [r|l IH] using tensor_ind'; intros [r'|l']; try done.
  - cbn. by rewrite Hf.
  - rewrite !tzip_Stack. f_equal.
    revert l'. induction IH as [|a l Ha _ IHl]; intros [|b l']; try done.
    cbn [tzip_list]. by rewrite Ha, IHl.
Qed.

(** X16: when addition and multiplication of the scalars commute, the
    order of the two operands of [sew_function] matters under IAND
    only: under ADD and AND, [sew_function(x, y)] and
    [sew_function(y, x)] return the same tensor or raise the same
    exception, so the two block classes, which pass (identity, out)
    and (out, identity), merge alike. *)
Theorem sew_function_operand_order (x y : tensor R) :
  (forall u v : R, radd u v = radd v u) ->
  (forall u v : R, rmul u v = rmul v u) ->
  sew_function x y (Some "ADD") = sew_function y x (Some "ADD") /\
  sew_function x y (Some "AND") = sew_function y x (Some "AND").
Proof.
  intros Ha Hm. rewrite !sew_function_ADD, !sew_function_AND.
  unfold tadd, tmul. split; by apply tzip_comm.
Qed.

End OperandOrder.

Section OperandOrderWitness.
#[local] Existing Instances Demo.Z_scalar Demo.if_node Demo.torch_per_sample
  Demo.framework Demo.checkpoints.
#[local] Open Scope Z_scope.

Lemma sew_function_operand_order_witness :
  sew_function (Stack [Scalar 1; Scalar 0]) (Stack [Scalar 1; Scalar 1])
    (Some "ADD")
  = sew_function (Stack [Scalar 1; Scalar 1]) (Stack [Scalar 1; Scalar 0])
      (Some "ADD") /\
  sew_function (Stack [Scalar 1; Scalar 0]) (Stack [Scalar 1; Scalar 1])
    (Some "AND")
  = sew_function (Stack [Scalar 1; Scalar 1]) (Stack [Scalar 1; Scalar 0])
      (Some "AND") /\
  sew_function (Stack [Scalar 1; Scalar 0]) (Stack [Scalar 1; Scalar 1])
    (Some "IAND")
  <> sew_function (Stack [Scalar 1; Scalar 1]) (Stack [Scalar 1; Scalar 0])
       (Some "IAND").
Proof.
  assert (forall u v : Z, radd u v = radd v u) as Ha
    by (intros u v; apply Z.add_comm).
  assert (forall u v : Z, rmul u v = rmul v u) as Hm
    by (intros u v; apply Z.mul_comm).
  destruct (sew_function_operand_order
              (Stack [Scalar 1; Scalar 0]) (Stack [Scalar 1; Scalar 1])
              Ha Hm) as [Ea Em].
  split; [exact Ea|]. split; [exact Em|]. vm_compute. discriminate.
Defined.

Lemma basic_block_networks_need_default_groups_witness :
  construct
    (net_init (Mem := option (tensor Z)) SEWResNetCifarCls BasicBlockCls
       [3; 3; 3]%nat (Some "ADD")
       (set_groups_width (Some 32%nat) (Some 4%nat)
          (Demo.kwargs false false true 2)))
  = Raise ValueError.
Proof.
  apply basic_block_networks_need_default_groups.
  - discriminate.
  - left. cbn. lia.
Defined.

End OperandOrderWitness.

(** ** What the factories build *)

Section FactoriesBuild.
Context {R Mem : Type} `{ScalarOps R} `{NodeDynamics R Mem} `{Torch R}
  `{Framework R} `{Checkpoints R Mem}.

(** A network of class [c] whose layer stacks have the sizes [sizes],
    with blocks of class [cls]. *)
Definition has_stacks (c : NetCls) (cls : BlockCls) (sizes : list nat)
  (self : Net R Mem) : Prop :=
  dom (_modules self) = list_to_set (children c) /\
  Forall2 (fun i n =>
             exists l, _modules self !! layer_name i = Some (MSequential l) /\
                       length l = n /\
                       Forall (fun b => block_class b = cls) l)
    (seq 0 (stacks c)) sizes.

Lemma constructed_has_stacks (c : NetCls) cls layers cnf (kw : Kwargs R) :
  kw_replace_stride_with_dilation kw = None ->
  length layers = stacks c -> Forall (fun n => 1 <= n) layers ->
  (cls = BottleneckCls \/
   (default 1 (kw_groups kw) = 1 /\ default 64 (kw_width_per_group kw) = 64)) ->
  exists self : Net R Mem,
    construct (net_init c cls layers cnf kw) = Ok self /\
    has_stacks c cls layers self.
Proof.
  intros Hr Hlen Hpos Hc.
  destruct (net_init_succeeds c cls layers cnf kw Hr) as [self E];
    [lia|done|].
  exists self. split; [done|].
  destruct (wp_construct _ _ _ (net_init_built c cls layers cnf kw) E)
    as (Hdom & _ & Hl).
  split; [done|].
  apply Forall2_same_length_lookup_2; [by rewrite length_seq|].
  intros i j n Hj Hn. apply lookup_seq in Hj as [-> Hi]. cbn [Nat.add].
  destruct (Hl i n Hi Hn) as (l & El & Hll & Hcl).
  exists l. split; [done|]. split; [|done].
  pose proof (Forall_lookup_1 _ _ _ _ Hpos Hn) as Hn1. cbn beta in Hn1. lia.
Qed.

Lemma sew_resnet_has_stacks arch cls layers cnf (kw : Kwargs R) progress :
  kw_replace_stride_with_dilation kw = None ->
  length layers = 4 -> Forall (fun n => 1 <= n) layers ->
  (cls = BottleneckCls \/
   (default 1 (kw_groups kw) = 1 /\ default 64 (kw_width_per_group kw) = 64)) ->
  exists self : Net R Mem,
    _sew_resnet arch cls layers false progress cnf [] kw = Ok self /\
    has_stacks SEWResNetCls cls layers self.
Proof.
  intros Hr Hlen Hpos Hc.
  destruct (constructed_has_stacks SEWResNetCls cls layers cnf kw Hr Hlen Hpos Hc)
    as (self & E & Hs).
  exists self. split; [|done]. unfold _sew_resnet.
  cbn [net_init] in E. by rewrite E.
Qed.

Ltac sizes_ok := repeat (apply Forall_cons_2; [lia|]); apply Forall_nil_2.

(** X17: with [pretrained=False] and without
    [replace_stride_with_dilation], [groups] and [width_per_group] among
    the keyword arguments, each of the thirteen factories other than
    sew_resnext34_32x4d and sew_resnext101_32x8d returns a network of
    its class with the children of that class and layer stacks of the
    sizes and the block class its call names. *)
Theorem factories_build (cnf : option string) (kw : Kwargs R) (progress : bool) :
  kw_replace_stride_with_dilation kw = None ->
  kw_groups kw = None -> kw_width_per_group kw = None ->
  Forall (fun '(f, c, cls, sizes) =>
            exists self : Net R Mem,
              f false progress cnf kw = Ok self /\ has_stacks c cls sizes self)
    [ (sew_resnet18, SEWResNetCls, BasicBlockCls, [2; 2; 2; 2]);
      (sew_resnet34, SEWResNetCls, BasicBlockCls, [3; 4; 6; 3]);
      (sew_resnet50, SEWResNetCls, BottleneckCls, [3; 4; 6; 3]);
      (sew_resnet101, SEWResNetCls, BottleneckCls, [3; 4; 23; 3]);
      (sew_resnet152, SEWResNetCls, BottleneckCls, [3; 8; 36; 3]);
      (sew_resnext50_32x4d, SEWResNetCls, BottleneckCls, [3; 4; 6; 3]);
      (sew_wide_resnet50_2, SEWResNetCls, BottleneckCls, [3; 4; 6; 3]);
      (sew_wide_resnet101_2, SEWResNetCls, BottleneckCls, [3; 4; 23; 3]);
      (sew_resnet19, SEWResNet19Cls, BasicBlockCls, [3; 3; 2]);
      (sew_resnet20, SEWResNetCifarCls, BasicBlockCls, [3; 3; 3]);
      (sew_resnet32, SEWResNetCifarCls, BasicBlockCls, [5; 5; 5]);
      (sew_resnet44, SEWResNetCifarCls, BasicBlockCls, [7; 7; 7]);
      (sew_resnet56, SEWResNetCifarCls, BasicBlockCls, [9; 9; 9]) ].
Proof.
  intros Hr Hg Hw.
  assert (BasicBlockCls = BottleneckCls \/
          (default 1 (kw_groups kw) = 1 /\
           default 64 (kw_width_per_group kw) = 64)) as Hb
    by (right; by rewrite Hg, Hw).
  apply Forall_cons_2.
  { unfold sew_resnet18.
    apply sew_resnet_has_stacks; [done|done|sizes_ok|done]. }
  apply Forall_cons_2.
  { unfold sew_resnet34.
    apply sew_resnet_has_stacks; [done|done|sizes_ok|done]. }
  apply Forall_cons_2.
  { unfold sew_resnet50.
    apply sew_resnet_has_stacks; [done|done|sizes_ok|by left]. }
  apply Forall_cons_2.
  { unfold sew_resnet101.
    apply sew_resnet_has_stacks; [done|done|sizes_ok|by left]. }
  apply Forall_cons_2.
  { unfold sew_resnet152.
    apply sew_resnet_has_stacks; [done|done|sizes_ok|by left]. }
  apply Forall_cons_2.
  { unfold sew_resnext50_32x4d. cbv zeta.
    apply sew_resnet_has_stacks; [exact Hr|done|sizes_ok|by left]. }
  apply Forall_cons_2.
  { unfold sew_wide_resnet50_2. cbv zeta.
    apply sew_resnet_has_stacks; [exact Hr|done|sizes_ok|by left]. }
  apply Forall_cons_2.
  { unfold sew_wide_resnet101_2. cbv zeta.
    apply sew_resnet_has_stacks; [exact Hr|done|sizes_ok|by left]. }
  apply Forall_cons_2.
  { unfold sew_resnet19.
    apply (constructed_has_stacks SEWResNet19Cls BasicBlockCls [3; 3; 2] cnf kw);
      [done|done|sizes_ok|done]. }
  apply Forall_cons_2.
  { unfold sew_resnet20.
    apply (constructed_has_stacks SEWResNetCifarCls BasicBlockCls [3; 3; 3] cnf kw);
      [done|done|sizes_ok|done]. }
  apply Forall_cons_2.
  { unfold sew_resnet32.
    apply (constructed_has_stacks SEWResNetCifarCls BasicBlockCls [5; 5; 5] cnf kw);
      [done|done|sizes_ok|done]. }
  apply Forall_cons_2.
  { unfold sew_resnet44.
    apply (constructed_has_stacks SEWResNetCifarCls BasicBlockCls [7; 7; 7] cnf kw);
      [done|done|sizes_ok|done]. }
  apply Forall_cons_2.
  { unfold sew_resnet56.
    apply (constructed_has_stacks SEWResNetCifarCls BasicBlockCls [9; 9; 9] cnf kw);
      [done|done|sizes_ok|done]. }
  apply Forall_nil_2.
Qed.

End FactoriesBuild.

Section FactoriesWitness.
#[local] Existing Instances Demo.Z_scalar Demo.if_node Demo.torch_per_sample
  Demo.framework Demo.checkpoints.

Lemma factories_build_witness :
  exists self : Net Z (option (tensor Z)),
    sew_resnet50 false true (Some "ADD") (Demo.kwargs false false true 2)
    = Ok self /\
    has_stacks SEWResNetCls BottleneckCls [3; 4; 6; 3] self.
Proof.
  pose proof (factories_build (Some "ADD") (Demo.kwargs false false true 2) true
                eq_refl eq_refl eq_refl) as Hf.
  apply Forall_cons in Hf as [_ Hf]. apply Forall_cons in Hf as [_ Hf].
  apply Forall_cons in Hf as [H50 _]. exact H50.
Defined.

End FactoriesWitness.
